(** * The firmware updater command-line tool (tools/rsid-fw-update/main.cc)

    A shallow embedding of the updater's entry point and of its helpers,
    followed by the properties of the natural-language specification that
    concern them.

    Conventions of the embedding:
    - [std::string] is [string]; [size_t] values are integers in
      [0, 2^64), with the wrap-around of [pos + 1] written out;
    - [int] values are integers (no arithmetic of the tool can overflow:
      counters are only incremented below a bound that is itself an [int]);
    - the library that talks to the device (DeviceController, FwUpdater,
      DiscoverDevices, IsFwCompatibleWithHost) is not part of the tool: it is
      an [Environment] of oracles, and every call to it is recorded in a
      trace;
    - [std::cin] is the sequence of characters that remain to be read;
      what is printed on [std::cout] is not modelled;
    - a write past the end of an array makes the behaviour of the program
      undefined: the computation stops there with the outcome [Undefined],
      about which nothing more is said. *)

From Equations Require Import Equations.
From Stdlib Require Import String Ascii List ZArith Lia Bool.
Import ListNotations.

Local Open Scope string_scope.
Local Open Scope Z_scope.

(* ===================================================================== *)
(** * Part I: the embedding *)
(* ===================================================================== *)

(** ** The operations of [std::string] and of the streams that the tool uses *)

Module StdString.

(** [std::string::npos], the largest [size_t]. *)
Definition size_t_modulus : Z := 2 ^ 64.
Definition npos : Z := size_t_modulus - 1.

(** Addition on [size_t]. *)
Definition size_add (a b : Z) : Z := (a + b) mod size_t_modulus.

Definition size (s : string) : Z := Z.of_nat (String.length s).

(** Position of the first occurrence of [needle] in [s], if any. *)
Fixpoint find_first (needle s : string) : option nat :=
  if prefix needle s then Some 0%nat
  else match s with
       | EmptyString => None
       | String _ s' => option_map S (find_first needle s')
       end.

(** [s.find(needle)]: the position, or [npos]. *)
Definition find (s needle : string) : Z :=
  match find_first needle s with
  | Some i => Z.of_nat i
  | None => npos
  end.

(** [s.substr(pos, n)]; [None] stands for [std::out_of_range], thrown
    when [pos > s.size()]. *)
Definition substr (s : string) (pos n : Z) : option string :=
  if size s <? pos then None
  else Some (substring (Z.to_nat pos) (Z.to_nat (Z.min n (size s - pos))) s).

Definition byte_value (c : ascii) : Z := Z.of_N (N_of_ascii c).

(** [a.compare(b)]: negative, zero or positive. *)
Fixpoint compare (a b : string) : Z :=
  match a, b with
  | EmptyString, EmptyString => 0
  | EmptyString, String _ _ => -1
  | String _ _, EmptyString => 1
  | String x a', String y b' =>
      if Ascii.eqb x y then compare a' b' else byte_value x - byte_value y
  end.

(** [strcmp] on the NUL-terminated strings of [argv]. *)
Definition strcmp (a b : string) : Z := compare a b.

(** [a == b] on [std::string]: same size and equal contents. *)
Definition equal (a b : string) : bool :=
  (size a =? size b) && (compare a b =? 0).

(** The characters up to the first [delim] (which is consumed and not
    stored) or up to the end of the input, and what is left to read. *)
Fixpoint getline_scan (input : string) (delim : ascii) : string * string :=
  match input with
  | EmptyString => (EmptyString, EmptyString)
  | String c input' =>
      if Ascii.eqb c delim then (EmptyString, input')
      else let '(str, rest) := getline_scan input' delim in (String c str, rest)
  end.

(** [std::getline(input, str, delim)]: [None] when the stream fails, which
    happens when nothing at all could be extracted. *)
Definition getline (input : string) (delim : ascii) : option (string * string) :=
  match input with
  | EmptyString => None
  | String _ _ => Some (getline_scan input delim)
  end.

(** [std::isspace] in the "C" locale. *)
Definition isspace (c : ascii) : bool :=
  let n := byte_value c in (n =? 32) || ((9 <=? n) && (n <=? 13)).

Fixpoint skipws (input : string) : string :=
  match input with
  | EmptyString => EmptyString
  | String c input' => if isspace c then skipws input' else input
  end.

(** [input >> key] for a [char]: skips white space and extracts one
    character; [None] when the stream fails (end of input). *)
Definition extract_char (input : string) : option (ascii * string) :=
  match skipws input with
  | EmptyString => None
  | String c rest => Some (c, rest)
  end.

Definition isdigit (c : ascii) : bool :=
  let n := byte_value c in (48 <=? n) && (n <=? 57).

(** The value of the leading decimal digits, and how many there are. *)
Fixpoint digits (s : string) (acc : Z) (count : nat) : Z * nat :=
  match s with
  | EmptyString => (acc, count)
  | String c s' =>
      if isdigit c then digits s' (10 * acc + (byte_value c - 48)) (S count)
      else (acc, count)
  end.

Definition INT_MIN : Z := - 2 ^ 31.
Definition INT_MAX : Z := 2 ^ 31 - 1.

(** [std::stoi(str)]: leading white space, an optional sign, decimal
    digits; the rest of the string is ignored.  [None] stands for the
    exceptions [std::invalid_argument] (no digits) and
    [std::out_of_range] (the value is not an [int]). *)
Definition stoi (str : string) : option Z :=
  let s := skipws str in
  let '(negative, s) :=
    match s with
    | String "-" s' => (true, s')
    | String "+" s' => (false, s')
    | _ => (false, s)
    end in
  let '(magnitude, count) := digits s 0 0 in
  let value := if negative then - magnitude else magnitude in
  match count with
  | O => None
  | S _ => if (INT_MIN <=? value) && (value <=? INT_MAX) then Some value else None
  end.

(** Each successful [getline] consumes at least one character. *)
Lemma getline_scan_shrinks (input : string) (delim : ascii) :
  (String.length (snd (getline_scan input delim)) <= String.length input)%nat.
Proof.
  induction input as [|c input IH]; simpl; [lia|].
  destruct (Ascii.eqb c delim); simpl; [lia|].
  destruct (getline_scan input delim) as [str rest]; simpl in *; lia.
Qed.

Lemma getline_shrinks (input : string) (delim : ascii) (str rest : string) :
  getline input delim = Some (str, rest) ->
  (String.length rest < String.length input)%nat.
Proof.
  destruct input as [|c input]; [discriminate|].
  unfold getline; simpl. intros H.
  pose proof (getline_scan_shrinks input delim) as Hle.
  destruct (Ascii.eqb c delim).
  - injection H as _ <-. lia.
  - destruct (getline_scan input delim) as [s r]; simpl in *.
    injection H as _ <-. lia.
Qed.

Lemma skipws_shrinks (input : string) :
  (String.length (skipws input) <= String.length input)%nat.
Proof.
  induction input as [|c input IH]; simpl; [lia|].
  destruct (isspace c); simpl; lia.
Qed.

Lemma extract_char_shrinks (input : string) (c : ascii) (rest : string) :
  extract_char input = Some (c, rest) ->
  (String.length rest < String.length input)%nat.
Proof.
  unfold extract_char. pose proof (skipws_shrinks input) as Hle.
  destruct (skipws input) as [|d r]; [discriminate|].
  intros H; injection H as _ <-. simpl in Hle. lia.
Qed.

End StdString.

Import StdString.

(** Remembers the equation of a scrutinee, for the termination proofs of
    the loops below. *)
Definition inspect {A : Type} (a : A) : {b : A | a = b} := exist _ a eq_refl.

(** ** Constants of the tool *)

Definition SUCCESS_MAIN : Z := 0.
Definition FAILURE_MAIN : Z := 1.
Definition MIN_WAIT_FOR_DEVICE : Z := 6.
Definition MAX_WAIT_FOR_DEVICE : Z := 30.
Definition OPFW : string := "OPFW".
Definition RECOG : string := "RECOG".

(** ** Version strings *)

(** The loop of [ExtractModuleFromVersion] over the sections that
    [std::getline] reads from the string stream.  [None] stands for an
    exception leaving the function. *)
Equations ExtractModuleFromVersion_loop (module_name version_stream : string) : option string
  by wf (String.length version_stream) lt :=
  ExtractModuleFromVersion_loop module_name version_stream
    with inspect (getline version_stream "|") := {
    | exist _ (Some (section, rest)) _ :=
        if negb (find section module_name =? npos) then
          let pos := find section ":" in
          substr section (size_add pos 1) npos
        else ExtractModuleFromVersion_loop module_name rest
    | exist _ None _ := Some "Unknown" }.
Next Obligation. eapply getline_shrinks; eassumption. Qed.

Definition ExtractModuleFromVersion (module_name full_version : string) : option string :=
  ExtractModuleFromVersion_loop module_name full_version.

Definition ParseFirmwareVersion (full_version : string) : option string :=
  ExtractModuleFromVersion "OPFW:" full_version.

Definition ParseRecognitionVersion (full_version : string) : option string :=
  ExtractModuleFromVersion "RECOG:" full_version.

(** ** Command line arguments *)

Record CommandLineArgs := mkCommandLineArgs {
  is_valid : bool;        (* was parsing successful *)
  force_version : bool;   (* force non-compatible versions *)
  force_full : bool;      (* force update of all modules *)
  is_interactive : bool;  (* ask user for confirmation before starting *)
  auto_approve : bool;    (* automatically approve all *)
  fw_file : string;       (* path to firmware update binary *)
  serial_port : string    (* serial port *)
}.

(** The member initialisers of the struct. *)
Definition CommandLineArgs_default : CommandLineArgs :=
  mkCommandLineArgs false false false false false "" "".

Definition set_is_valid (a : CommandLineArgs) (v : bool) :=
  mkCommandLineArgs v (force_version a) (force_full a) (is_interactive a)
    (auto_approve a) (fw_file a) (serial_port a).
Definition set_force_version (a : CommandLineArgs) (v : bool) :=
  mkCommandLineArgs (is_valid a) v (force_full a) (is_interactive a)
    (auto_approve a) (fw_file a) (serial_port a).
Definition set_force_full (a : CommandLineArgs) (v : bool) :=
  mkCommandLineArgs (is_valid a) (force_version a) v (is_interactive a)
    (auto_approve a) (fw_file a) (serial_port a).
Definition set_is_interactive (a : CommandLineArgs) (v : bool) :=
  mkCommandLineArgs (is_valid a) (force_version a) (force_full a) v
    (auto_approve a) (fw_file a) (serial_port a).
Definition set_auto_approve (a : CommandLineArgs) (v : bool) :=
  mkCommandLineArgs (is_valid a) (force_version a) (force_full a) (is_interactive a)
    v (fw_file a) (serial_port a).
Definition set_fw_file (a : CommandLineArgs) (v : string) :=
  mkCommandLineArgs (is_valid a) (force_version a) (force_full a) (is_interactive a)
    (auto_approve a) v (serial_port a).
Definition set_serial_port (a : CommandLineArgs) (v : string) :=
  mkCommandLineArgs (is_valid a) (force_version a) (force_full a) (is_interactive a)
    (auto_approve a) (fw_file a) v.

(** [argv[i]]; every read of the parser is guarded by [i < argc]. *)
Definition argv_at (argv : list string) (i : Z) : string :=
  nth (Z.to_nat i) argv "".

(** The body of the [for] loop of [ParseCommandLineArgs], at index [i]:
    the index after the options' own [++i], and the arguments so far. *)
Definition ParseCommandLineArgs_body (argc : Z) (argv : list string)
    (i : Z) (args : CommandLineArgs) : Z * CommandLineArgs :=
  if strcmp (argv_at argv i) "--file" =? 0 then
    if i + 1 <? argc then (i + 1, set_fw_file args (argv_at argv (i + 1)))
    else (i, args)
  else if strcmp (argv_at argv i) "--port" =? 0 then
    if i + 1 <? argc then (i + 1, set_serial_port args (argv_at argv (i + 1)))
    else (i, args)
  else if strcmp (argv_at argv i) "--force-full" =? 0 then
    (i, set_force_full args true)
  else if strcmp (argv_at argv i) "--force-version" =? 0 then
    (i, set_force_version args true)
  else if strcmp (argv_at argv i) "--interactive" =? 0 then
    (i, set_is_interactive args true)
  else if strcmp (argv_at argv i) "--auto-approve" =? 0 then
    (i, set_auto_approve args true)
  else (i, args).

Lemma ParseCommandLineArgs_body_advances argc argv i args :
  i <= fst (ParseCommandLineArgs_body argc argv i args).
Proof.
  unfold ParseCommandLineArgs_body.
  repeat match goal with |- context [if ?b then _ else _] => destruct b end;
    simpl; lia.
Qed.

(** [for (int i = 1; i < argc; i++) { ... }], from index [i]. *)
Equations ParseCommandLineArgs_loop (argc : Z) (argv : list string)
    (i : Z) (args : CommandLineArgs) : CommandLineArgs
  by wf (Z.to_nat (argc - i)) lt :=
  ParseCommandLineArgs_loop argc argv i args with Z_lt_dec i argc := {
    | left _ with inspect (ParseCommandLineArgs_body argc argv i args) := {
      | exist _ (i', args') _ := ParseCommandLineArgs_loop argc argv (i' + 1) args' }
    | right _ := args }.
Next Obligation.
  pose proof (ParseCommandLineArgs_body_advances argc argv i args) as H.
  match goal with E : ParseCommandLineArgs_body _ _ _ _ = _ |- _ => rewrite E in H end.
  simpl in H. lia.
Qed.

Definition ParseCommandLineArgs (argc : Z) (argv : list string) : CommandLineArgs :=
  let args := CommandLineArgs_default in
  if argc <? 2 then args
  else
    let args := ParseCommandLineArgs_loop argc argv 1 args in
    (* Make sure all required options are available. *)
    if size (fw_file args) =? 0 then args
    else if is_interactive args && auto_approve args then args
    else set_is_valid args true.

(** ** The device library, as seen from the tool *)

(** [RealSenseID::Status] is declared outside the tool, which only names
    [Status::Ok]; every other status is [NotOk]. *)
Inductive Status := Ok | NotOk (code : Z).

Definition Status_eqb (a b : Status) : bool :=
  match a, b with
  | Ok, Ok => true
  | NotOk x, NotOk y => x =? y
  | _, _ => false
  end.

Record SerialConfig := mkSerialConfig { port : string }.

(** [RealSenseID::DeviceInfo] is declared by the library: [serialPort] is
    an array of [char] of a fixed size, which is a parameter of the model
    ([serialPort_size] below).  The field is the C string that the array
    holds, NUL excluded, which takes the terminating NUL to be in the
    array: the arrays that the library fills have it, and the one array
    that the tool fills itself has it when the port leaves room for it (see
    [strncpy_serialPort]). *)
Record DeviceInfo := mkDeviceInfo { serialPort : string }.

Record DeviceMetadata := mkDeviceMetadata {
  serial_number : string;
  fw_version : string;
  recognition_version : string
}.

Definition DeviceMetadata_default : DeviceMetadata :=
  mkDeviceMetadata "Unknown" "Unknown" "Unknown".

Record FullDeviceInfo := mkFullDeviceInfo {
  metadata : DeviceMetadata;
  config : DeviceInfo
}.

(** [FwUpdater::Settings]. *)
Record Settings := mkSettings {
  settings_port : string;
  settings_force_full : bool
}.

(** What [FwUpdater::ExtractFwInformation] returns and leaves in its
    output parameters. *)
Record FwInformation := mkFwInformation {
  extracted : bool;
  outFwVersion : string;
  outRecognitionVersion : string;
  moduleNames : list string
}.

(** The answers of the library and of the device, and the size that the
    library declares for the array [DeviceInfo::serialPort].  A ping is
    answered according to the second at which it is sent. *)
Record Environment := mkEnvironment {
  serialPort_size : Z;
  DiscoverDevices : list DeviceInfo;
  QueryFirmwareVersion : string -> string;
  QuerySerialNumber : string -> string;
  Ping : string -> Z -> Status;
  ExtractFwInformation : string -> FwInformation;
  IsEncryptionSupported : string -> string -> bool;
  IsFwCompatibleWithHost : string -> bool;
  UpdateModules : Settings -> string -> list string -> Status
}.

(** The calls that leave the tool. *)
Inductive Event :=
| EvDiscoverDevices
| EvConnect (port : string)
| EvQueryFirmwareVersion (port : string)
| EvQuerySerialNumber (port : string)
| EvPing (port : string) (status : Status)
| EvDisconnect (port : string)
| EvExtractFwInformation (binPath : string) (info : FwInformation)
| EvIsEncryptionSupported (binPath deviceSerialNumber : string) (supported : bool)
| EvIsFwCompatibleWithHost (version : string) (compatible : bool)
| EvUpdateModules (settings : Settings) (binPath : string)
    (names : list string) (status : Status).

(** ** Computations of the tool *)

(** What is left on [std::cin], the seconds slept so far, and the calls
    made so far, oldest first. *)
Record State := mkState {
  cin : string;
  clock : Z;
  trace : list Event
}.

(** A computation returns, or loops for ever on a prompt that is never
    answered, or is left by an exception that nothing catches, or reaches
    an operation whose behaviour is undefined. *)
Inductive Outcome (A : Type) :=
| Returns (a : A) (st : State)
| NeverReturns (st : State)
| Throws (st : State)
| Undefined (st : State).
Arguments Returns {A} a st.
Arguments NeverReturns {A} st.
Arguments Throws {A} st.
Arguments Undefined {A} st.

Definition M (A : Type) : Type := State -> Outcome A.

Definition ret {A : Type} (a : A) : M A := fun st => Returns a st.

Definition bind {A B : Type} (m : M A) (k : A -> M B) : M B :=
  fun st =>
    match m st with
    | Returns a st' => k a st'
    | NeverReturns st' => NeverReturns st'
    | Throws st' => Throws st'
    | Undefined st' => Undefined st'
    end.

Notation "x <- m ;; k" := (bind m (fun x => k))
  (at level 61, m at next level, right associativity).
Notation "m ;; k" := (bind m (fun _ => k))
  (at level 61, right associativity).

Definition emit (e : Event) : M unit :=
  fun st => Returns tt (mkState (cin st) (clock st) (trace st ++ [e])).

(** An operation whose behaviour is undefined. *)
Definition undefined {A : Type} : M A := fun st => Undefined st.

(** The value of an expression that may throw. *)
Definition or_throw {A : Type} (o : option A) : M A :=
  fun st => match o with Some a => Returns a st | None => Throws st end.

(** [std::this_thread::sleep_for(std::chrono::seconds(n))]. *)
Definition sleep_for_seconds (n : Z) : M unit :=
  fun st => Returns tt (mkState (cin st) (clock st + Z.max 0 n) (trace st)).

(** [v.at(i)]. *)
Definition vector_at {A : Type} (v : list A) (i : Z) : M A :=
  or_throw (if i <? 0 then None else nth_error v (Z.to_nat i)).

(** A range-based [for] that pushes one element per iteration. *)
Fixpoint for_each {A B : Type} (f : A -> M B) (l : list A) : M (list B) :=
  match l with
  | [] => ret []
  | x :: l' => y <- f x ;; ys <- for_each f l' ;; ret (y :: ys)
  end.

(** ** The compatibility of a firmware version with the host *)

Module Version.

(** Modelled from the spec: the type of a parsed semantic version,
    MAJOR.MINOR.PATCH.  [RealSenseID::IsFwCompatibleWithHost] is declared
    in RealSenseID/Version.h and defined in the library, outside the
    sources of the tool. *)
Definition SemanticVersion : Type := (Z * Z * Z)%type.

(** Modelled from the spec: the value of a non-empty string of decimal
    digits, one component of a semantic version. *)
Fixpoint number (s : string) (acc : Z) : option Z :=
  match s with
  | EmptyString => Some acc
  | String c s' =>
      if isdigit c then number s' (10 * acc + (byte_value c - 48)) else None
  end.

(** Modelled from the spec: a component of a semantic version is not
    empty. *)
Definition component (s : string) : option Z :=
  match s with
  | EmptyString => None
  | String _ _ => number s 0
  end.

(** Modelled from the spec: the components of a version string, which
    dots separate. *)
Fixpoint split_dots (s : string) : list string :=
  match s with
  | EmptyString => [""]
  | String c s' =>
      if Ascii.eqb c "." then "" :: split_dots s'
      else match split_dots s' with
           | piece :: pieces => String c piece :: pieces
           | [] => [String c ""]
           end
  end.

(** Modelled from the spec: "parses a semantic version". *)
Definition parse (versionString : string) : option SemanticVersion :=
  match split_dots versionString with
  | [major; minor; patch] =>
      match component major, component minor, component patch with
      | Some x, Some y, Some z => Some (x, y, z)
      | _, _, _ => None
      end
  | _ => None
  end.

(** Modelled from the spec: the order of semantic versions. *)
Definition leb (a b : SemanticVersion) : bool :=
  let '(a1, a2, a3) := a in
  let '(b1, b2, b3) := b in
  (a1 <? b1) || ((a1 =? b1) && ((a2 <? b2) || ((a2 =? b2) && (a3 <=? b3)))).

(** Modelled from the spec: "the host's supported range", a parameter of
    the model. *)
Record HostRange := mkHostRange {
  oldest_supported : SemanticVersion;
  newest_supported : SemanticVersion
}.

(** Modelled from the spec: "[IsFwCompatibleWithHost(versionString)]
    parses a semantic version and returns true iff it falls within the
    host's supported range"; a string that is not a semantic version is not
    compatible. *)
Definition IsFwCompatibleWithHost (host : HostRange) (versionString : string) : bool :=
  match parse versionString with
  | Some version =>
      leb (oldest_supported host) version && leb version (newest_supported host)
  | None => false
  end.

End Version.

(** ** [std::remove_if] and [vector::erase] *)

Module StdAlgorithm.
Section Vector.
Context {A : Type}.

(** [std::find_if]: the index of the first element that satisfies
    [pred], or the size of the vector. *)
Fixpoint find_if (pred : A -> bool) (v : list A) : nat :=
  match v with
  | [] => 0%nat
  | x :: v' => if pred x then 0%nat else S (find_if pred v')
  end.

(** [v[i] = x]. *)
Fixpoint assign (v : list A) (i : nat) (x : A) : list A :=
  match v, i with
  | [], _ => []
  | _ :: v', O => x :: v'
  | y :: v', S i' => y :: assign v' i' x
  end.

(** [for (i = first; ++i != last;) if (!pred( *i)) *first++ = move( *i);]
    with [n] elements left to visit at index [i].  The element moved
    from is never read again; it is left as it was. *)
Fixpoint remove_if_loop (pred : A -> bool) (n i first : nat) (v : list A)
  : list A * nat :=
  match n with
  | O => (v, first)
  | S n' =>
      match nth_error v i with
      | Some x =>
          if pred x then remove_if_loop pred n' (S i) first v
          else remove_if_loop pred n' (S i) (S first) (assign v first x)
      | None => (v, first)
      end
  end.

(** [std::remove_if(v.begin(), v.end(), pred)]: the vector after the
    shifts and the index of its new logical end. *)
Definition remove_if (pred : A -> bool) (v : list A) : list A * nat :=
  let first := find_if pred v in
  if (first =? List.length v)%nat then (v, first)
  else remove_if_loop pred (List.length v - S first) (S first) first v.

(** [v.erase(v.begin() + first, v.end())]. *)
Definition erase_to_end (v : list A) (first : nat) : list A := firstn first v.
End Vector.
End StdAlgorithm.

Import StdAlgorithm.

(** Modelled from the spec: a call of [IsFwCompatibleWithHost], "pure,
    side-effect-free", as a computation of the tool. *)
Definition call_IsFwCompatibleWithHost (host : Version.HostRange) (versionString : string)
  : M bool :=
  ret (Version.IsFwCompatibleWithHost host versionString).

(** Modelled from the spec: [n] calls in a row with the same string, and
    their results. *)
Fixpoint repeat_IsFwCompatibleWithHost (host : Version.HostRange) (versionString : string)
    (n : nat) : M (list bool) :=
  match n with
  | O => ret []
  | S n' =>
      compatible <- call_IsFwCompatibleWithHost host versionString ;;
      others <- repeat_IsFwCompatibleWithHost host versionString n' ;;
      ret (compatible :: others)
  end.

(** ** User interaction *)

(** The loop of [UserDeviceSelection], entered with the current value of
    [device_index].  [None]: the loop never ends (once [std::cin] fails
    every line is empty, [std::stoi] throws and the index stays -1). *)
Equations UserDeviceSelection_loop (devices_size device_index : Z) (input : string)
  : option (Z * string) by wf (String.length input) lt :=
  UserDeviceSelection_loop devices_size device_index input
    with inspect ((device_index <? 1) || (device_index mod size_t_modulus >? devices_size)) := {
    | exist _ false _ := Some (device_index, input)
    | exist _ true _ with inspect (getline input "010") := {
      | exist _ (Some (line, rest)) _ :=
          let device_index := match stoi line with Some v => v | None => -1 end in
          UserDeviceSelection_loop devices_size device_index rest
      | exist _ None _ := None } }.
Next Obligation. eapply getline_shrinks; eassumption. Qed.

Definition UserDeviceSelection (devices : list FullDeviceInfo) : M Z :=
  fun st =>
    let device_index := -1 in
    match UserDeviceSelection_loop (Z.of_nat (List.length devices)) device_index (cin st) with
    | Some (device_index, rest) =>
        Returns (device_index - 1) (mkState rest (clock st) (trace st))
    | None => NeverReturns (mkState "" (clock st) (trace st))
    end.

(** The loop of [UserApproval], entered with the current value of [key].
    [None]: the loop never ends (once [std::cin] fails [key] no longer
    changes). *)
Equations UserApproval_loop (key : ascii) (input : string) : option (ascii * string)
  by wf (String.length input) lt :=
  UserApproval_loop key input
    with inspect (negb (Ascii.eqb key "y") && negb (Ascii.eqb key "n")) := {
    | exist _ false _ := Some (key, input)
    | exist _ true _ with inspect (extract_char input) := {
      | exist _ (Some (read, rest)) _ := let key := read in UserApproval_loop key rest
      | exist _ None _ := None } }.
Next Obligation. eapply extract_char_shrinks; eassumption. Qed.

Definition UserApproval : M bool :=
  fun st =>
    let key := "0"%char in
    match UserApproval_loop key (cin st) with
    | Some (key, rest) =>
        Returns (Ascii.eqb key "y") (mkState rest (clock st) (trace st))
    | None => NeverReturns (mkState "" (clock st) (trace st))
    end.

(** ** The tool *)

Section Tool.

Variable env : Environment.

(** The [RealSenseID::DeviceController] operations, on the port that the
    controller was connected to. *)
Definition DeviceController_Connect (serial_config : SerialConfig) : M unit :=
  emit (EvConnect (port serial_config)).

Definition DeviceController_QueryFirmwareVersion (serial_config : SerialConfig) : M string :=
  emit (EvQueryFirmwareVersion (port serial_config)) ;;
  ret (QueryFirmwareVersion env (port serial_config)).

Definition DeviceController_QuerySerialNumber (serial_config : SerialConfig) : M string :=
  emit (EvQuerySerialNumber (port serial_config)) ;;
  ret (QuerySerialNumber env (port serial_config)).

Definition DeviceController_Ping (serial_config : SerialConfig) : M Status :=
  fun st =>
    let status := Ping env (port serial_config) (clock st) in
    (emit (EvPing (port serial_config) status) ;; ret status) st.

Definition DeviceController_Disconnect (serial_config : SerialConfig) : M unit :=
  emit (EvDisconnect (port serial_config)).

Definition QueryDeviceMetadata (serial_config : SerialConfig) : M DeviceMetadata :=
  let metadata := DeviceMetadata_default in
  DeviceController_Connect serial_config ;;
  version <- DeviceController_QueryFirmwareVersion serial_config ;;
  metadata <-
    (if negb (size version =? 0) then
       fw <- or_throw (ParseFirmwareVersion version) ;;
       recog <- or_throw (ParseRecognitionVersion version) ;;
       ret (mkDeviceMetadata (serial_number metadata) fw recog)
     else ret metadata) ;;
  serial <- DeviceController_QuerySerialNumber serial_config ;;
  let metadata :=
    if negb (size serial =? 0)
    then mkDeviceMetadata serial (fw_version metadata) (recognition_version metadata)
    else metadata in
  DeviceController_Disconnect serial_config ;;
  ret metadata.

Definition IsDeviceAlive (serial_config : SerialConfig) : M bool :=
  DeviceController_Connect serial_config ;;
  status <- DeviceController_Ping serial_config ;;
  DeviceController_Disconnect serial_config ;;
  ret (Status_eqb status Ok).

(** [while (!isDeviceAlive && waitCounter < max_wait_seconds) { ... }] *)
Equations WaitForDevice_loop (max_wait_seconds : Z) (port : string)
    (isDeviceAlive : bool) (waitCounter : Z) : M bool
  by wf (Z.to_nat (max_wait_seconds - waitCounter)) lt :=
  WaitForDevice_loop max_wait_seconds port isDeviceAlive waitCounter
    with Z_lt_dec waitCounter max_wait_seconds := {
    | left _ :=
        if negb isDeviceAlive then
          sleep_for_seconds 1 ;;
          let waitCounter := waitCounter + 1 in
          isDeviceAlive <- IsDeviceAlive (mkSerialConfig port) ;;
          WaitForDevice_loop max_wait_seconds port isDeviceAlive waitCounter
        else ret isDeviceAlive
    | right _ := ret isDeviceAlive }.
Next Obligation. lia. Qed.

Definition WaitForDevice (min_wait_seconds max_wait_seconds : Z) (port : string) : M bool :=
  let isDeviceAlive := false in
  sleep_for_seconds min_wait_seconds ;;
  let waitCounter := min_wait_seconds in
  WaitForDevice_loop max_wait_seconds port isDeviceAlive waitCounter.

(** The calls of [main] into the firmware updater and the host library. *)
Definition FwUpdater_ExtractFwInformation (binPath : string) : M FwInformation :=
  let info := ExtractFwInformation env binPath in
  emit (EvExtractFwInformation binPath info) ;; ret info.

Definition FwUpdater_IsEncryptionSupported (binPath deviceSerialNumber : string) : M bool :=
  let supported := IsEncryptionSupported env binPath deviceSerialNumber in
  emit (EvIsEncryptionSupported binPath deviceSerialNumber supported) ;; ret supported.

Definition RealSenseID_IsFwCompatibleWithHost (version : string) : M bool :=
  let compatible := IsFwCompatibleWithHost env version in
  emit (EvIsFwCompatibleWithHost version compatible) ;; ret compatible.

Definition FwUpdater_UpdateModules (settings : Settings) (binPath : string)
    (names : list string) : M Status :=
  let status := UpdateModules env settings binPath names in
  emit (EvUpdateModules settings binPath names status) ;; ret status.

Definition RealSenseID_DiscoverDevices : M (list DeviceInfo) :=
  emit EvDiscoverDevices ;; ret (DiscoverDevices env).

(** [current_recognition_version == new_recognition_version] *)
Definition is_database_compatible (current_recognition_version new_recognition_version : string)
  : bool :=
  equal current_recognition_version new_recognition_version.

(** The predicate given to [std::remove_if]. *)
Definition is_RECOG (moduleName : string) : bool := compare moduleName RECOG =? 0.

(** [auto device_info = std::make_unique<RealSenseID::DeviceInfo>();
    ::strncpy(device_info->serialPort, s.data(), s.size());]
    The array of the new [DeviceInfo] is zeroed, and [strncpy] writes the
    [s.size()] characters of [s] into it, without a NUL after them.  When
    [s] is shorter than the array, the array holds the C string [s].  When
    [s] is longer than the array, the copy writes past its end.  When [s]
    has exactly the size of the array, the copy fills the array and
    leaves it without any NUL, so that it holds no C string, and its
    uses as one (lines 345 and 392) read past its end.  In both of these
    cases the model takes the behaviour to be undefined from the copy
    on. *)
Definition strncpy_serialPort (s : string) : M DeviceInfo :=
  if size s <? serialPort_size env then ret (mkDeviceInfo s) else undefined.

(** [main], lines 268 to 309: populate the device list and select a
    device.  [None] is the early [return FAILURE_MAIN] of an empty list. *)
Definition main_select_device (args : CommandLineArgs) : M (option FullDeviceInfo) :=
  let auto_detect := size (serial_port args) =? 0 in
  devices_info <-
    (if auto_detect then
       detected_devices <- RealSenseID_DiscoverDevices ;;
       for_each
         (fun detected_device =>
            metadata <- QueryDeviceMetadata (mkSerialConfig (serialPort detected_device)) ;;
            ret (mkFullDeviceInfo metadata detected_device))
         detected_devices
     else
       metadata <- QueryDeviceMetadata (mkSerialConfig (serial_port args)) ;;
       device_info <- strncpy_serialPort (serial_port args) ;;
       ret [mkFullDeviceInfo metadata device_info]) ;;
  if (List.length devices_info =? 0)%nat then ret None
  else
    (* if more than one device exists - ask user to select *)
    id <- (if (List.length devices_info =? 1)%nat then ret 0
           else UserDeviceSelection devices_info) ;;
    selected_device <- vector_at devices_info id ;;
    ret (Some selected_device).

(** [main], lines 311 to 424: the checks, the questions and the update
    of the selected device. *)
Definition main_update_device (args : CommandLineArgs) (selected_device : FullDeviceInfo)
  : M Z :=
  let bin_path := fw_file args in
  info <- FwUpdater_ExtractFwInformation bin_path ;;
  let new_fw_version := outFwVersion info in
  let new_recognition_version := outRecognitionVersion info in
  let moduleNames := moduleNames info in
  if negb (extracted info) then ret FAILURE_MAIN
  else
    supported <- FwUpdater_IsEncryptionSupported bin_path
                   (serial_number (metadata selected_device)) ;;
    if negb supported then ret FAILURE_MAIN
    else
      (* check compatibility with host *)
      let current_fw_version := fw_version (metadata selected_device) in
      current_compatible <- RealSenseID_IsFwCompatibleWithHost current_fw_version ;;
      new_compatible <- RealSenseID_IsFwCompatibleWithHost new_fw_version ;;
      let current_recognition_version := recognition_version (metadata selected_device) in
      let is_database_compatible :=
        is_database_compatible current_recognition_version new_recognition_version in
      (* ask user for approval if interactive *)
      user_agreed <- (if is_interactive args then UserApproval else ret true) ;;
      if negb user_agreed then ret FAILURE_MAIN
      else
        (* allow bypass of incompatible version if forced *)
        if negb new_compatible && negb (force_version args) then ret FAILURE_MAIN
        else
          let update_recognition :=
            if is_database_compatible || auto_approve args then true else false in
          update_recognition <-
            (if negb is_database_compatible then
               if auto_approve args then ret update_recognition else UserApproval
             else ret update_recognition) ;;
          let moduleNames :=
            if negb update_recognition then
              let '(v, new_end) := remove_if is_RECOG moduleNames in
              erase_to_end v new_end
            else moduleNames in
          let settings :=
            mkSettings (serialPort (config selected_device)) (force_full args) in
          status <- FwUpdater_UpdateModules settings (fw_file args) moduleNames ;;
          let success := Status_eqb status Ok in
          ret (if success then SUCCESS_MAIN else FAILURE_MAIN).

Definition main (argv : list string) : M Z :=
  let argc := Z.of_nat (List.length argv) in
  (* parse cli args *)
  let args := ParseCommandLineArgs argc argv in
  if negb (is_valid args) then ret FAILURE_MAIN
  else
    selected <- main_select_device args ;;
    match selected with
    | None => ret FAILURE_MAIN
    | Some selected_device => main_update_device args selected_device
    end.

End Tool.

(** ** The words of the specification *)

(** These definitions are not taken from the code: they say what the
    specification means by a section, a token, a subsequence and so on, and
    the theorems of Part II compare the code with them. *)

(** [needle] occurs somewhere in [s]. *)
Definition Substring (needle s : string) : Prop :=
  exists pre post, s = pre ++ needle ++ post.

(** [s] does not contain the character [c]. *)
Fixpoint char_free (c : ascii) (s : string) : bool :=
  match s with
  | EmptyString => true
  | String x s' => negb (Ascii.eqb x c) && char_free c s'
  end.

(** What follows the first colon of [s], if [s] has a colon. *)
Fixpoint colon_suffix (s : string) : option string :=
  match s with
  | EmptyString => None
  | String c s' => if Ascii.eqb c ":" then Some s' else colon_suffix s'
  end.

(** The suffix of a section after its first colon; the whole section when
    it has no colon. *)
Definition after_first_colon (section : string) : string :=
  match colon_suffix section with
  | Some suffix => suffix
  | None => section
  end.

(** The pieces of [s] between its pipes. *)
Fixpoint split_pipes (s : string) : list string :=
  match s with
  | EmptyString => [""]
  | String c s' =>
      if Ascii.eqb c "|" then "" :: split_pipes s'
      else match split_pipes s' with
           | piece :: pieces => String c piece :: pieces
           | [] => [String c ""]
           end
  end.

(** The '|'-separated sections of a composite version string; the empty
    string has none. *)
Definition pipe_sections (full_version : string) : list string :=
  match full_version with
  | EmptyString => []
  | String _ _ => split_pipes full_version
  end.

(** A token [NAME:VERSION], and the composite string of a list of tokens. *)
Definition Token : Type := string * string.

Definition token_text (t : Token) : string := fst t ++ ":" ++ snd t.

Definition composite (tokens : list Token) : string :=
  String.concat "|" (map token_text tokens).

(** Names and versions contain neither the pipe nor the colon. *)
Definition plain (s : string) : bool := char_free "|" s && char_free ":" s.

Definition well_formed (tokens : list Token) : Prop :=
  Forall (fun t => plain (fst t) = true /\ plain (snd t) = true) tokens.

(** [s] ends with [suffix]. *)
Fixpoint ends_with (s suffix : string) : bool :=
  String.eqb s suffix ||
  match s with
  | EmptyString => false
  | String _ s' => ends_with s' suffix
  end.

(** The version of the first token whose name is exactly [name]. *)
Fixpoint version_of (name : string) (tokens : list Token) : option string :=
  match tokens with
  | [] => None
  | (n, v) :: tokens' => if String.eqb n name then Some v else version_of name tokens'
  end.

(** The version of the first token whose name ends with [name]. *)
Fixpoint version_of_suffix (name : string) (tokens : list Token) : option string :=
  match tokens with
  | [] => None
  | (n, v) :: tokens' => if ends_with n name then Some v else version_of_suffix name tokens'
  end.

(** [needle] is found in [s]. *)
Definition occurs (needle s : string) : bool :=
  match find_first needle s with Some _ => true | None => false end.

(** The text that the first section in which the name occurs stands for:
    what follows its first colon. *)
Fixpoint select (module_name : string) (sections : list string) : string :=
  match sections with
  | [] => "Unknown"
  | section :: sections' =>
      if occurs module_name section then after_first_colon section
      else select module_name sections'
  end.

(** The options of a command line, read from left to right: the argument
    that follows [--file] or [--port] is the value of that option and is
    not itself read as an option; a [--file] or [--port] that ends the
    command line, and every other argument, is ignored. *)
Inductive CliOption :=
| OptFile (value : string)
| OptPort (value : string)
| OptForceFull
| OptForceVersion
| OptInteractive
| OptAutoApprove.

Fixpoint read_options (arguments : list string) : list CliOption :=
  match arguments with
  | [] => []
  | argument :: rest =>
      if String.eqb argument "--file" then
        match rest with
        | value :: rest' => OptFile value :: read_options rest'
        | [] => []
        end
      else if String.eqb argument "--port" then
        match rest with
        | value :: rest' => OptPort value :: read_options rest'
        | [] => []
        end
      else if String.eqb argument "--force-full" then OptForceFull :: read_options rest
      else if String.eqb argument "--force-version" then OptForceVersion :: read_options rest
      else if String.eqb argument "--interactive" then OptInteractive :: read_options rest
      else if String.eqb argument "--auto-approve" then OptAutoApprove :: read_options rest
      else read_options rest
  end.

(** What an option does to the arguments record. *)
Definition apply_option (args : CommandLineArgs) (o : CliOption) : CommandLineArgs :=
  match o with
  | OptFile value => set_fw_file args value
  | OptPort value => set_serial_port args value
  | OptForceFull => set_force_full args true
  | OptForceVersion => set_force_version args true
  | OptInteractive => set_is_interactive args true
  | OptAutoApprove => set_auto_approve args true
  end.

(** The value of the last [--file] option; empty when there is none. *)
Definition file_value (options : list CliOption) : string :=
  fold_left (fun value o => match o with OptFile v => v | _ => value end) options "".

(** The command line [argv] (program name first) is valid. *)
Definition valid_command_line (argv : list string) : Prop :=
  (2 <= List.length argv)%nat /\
  file_value (read_options (tl argv)) <> "" /\
  ~ (In OptInteractive (read_options (tl argv)) /\
     In OptAutoApprove (read_options (tl argv))).

(** Validity as the specification words it: an argument is given, some
    [--file] is followed by a non-empty argument, and [--interactive] and
    [--auto-approve] are not both among the arguments. *)
Definition stated_valid_command_line (argv : list string) : Prop :=
  (2 <= List.length argv)%nat /\
  (exists before value after,
      tl argv = (before ++ "--file" :: value :: after)%list /\ value <> "") /\
  ~ (In "--interactive" (tl argv) /\ In "--auto-approve" (tl argv)).

(** [l] is [m] with some elements left out, the others in their order. *)
Inductive Subsequence {A : Type} : list A -> list A -> Prop :=
| Subsequence_nil : Subsequence [] []
| Subsequence_keep (x : A) (l m : list A) :
    Subsequence l m -> Subsequence (x :: l) (x :: m)
| Subsequence_drop (x : A) (l m : list A) :
    Subsequence l m -> Subsequence l (x :: m).

(** A run of the tool: [main] started with [input] on [std::cin], before
    any call has been made. *)
Definition run (env : Environment) (argv : list string) (input : string) : Outcome Z :=
  main env argv (mkState input 0 []).

Definition final_state {A : Type} (o : Outcome A) : State :=
  match o with
  | Returns _ st => st
  | NeverReturns st => st
  | Throws st => st
  | Undefined st => st
  end.

(** The calls made during a run. *)
Definition calls {A : Type} (o : Outcome A) : list Event := trace (final_state o).

(** The exit code of the process, when [main] returns. *)
Definition exit_code (o : Outcome Z) : option Z :=
  match o with
  | Returns code _ => Some code
  | _ => None
  end.

(** The run waits for ever for an answer of the user. *)
Definition waits_for_ever {A : Type} (o : Outcome A) : Prop :=
  match o with
  | NeverReturns _ => True
  | _ => False
  end.

(** The behaviour of the run is undefined. *)
Definition undefined_behaviour {A : Type} (o : Outcome A) : Prop :=
  match o with
  | Undefined _ => True
  | _ => False
  end.

(** The port of the command line, if there is one, fits the array
    [DeviceInfo::serialPort] with its terminating NUL. *)
Definition port_fits (env : Environment) (args : CommandLineArgs) : Prop :=
  serial_port args = "" \/ size (serial_port args) < serialPort_size env.

(** The calls that query a device for its metadata. *)
Definition is_query (e : Event) : Prop :=
  match e with
  | EvDiscoverDevices | EvConnect _ | EvQueryFirmwareVersion _
  | EvQuerySerialNumber _ | EvDisconnect _ => True
  | _ => False
  end.

(** The call that transfers modules to the device. *)
Definition is_update (e : Event) : Prop :=
  match e with
  | EvUpdateModules _ _ _ _ => True
  | _ => False
  end.

(** No module transfer among the events. *)
Definition no_update (events : list Event) : Prop :=
  Forall (fun e => ~ is_update e) events.

(** The module list without its RECOG entries. *)
Definition without_RECOG (names : list string) : list string :=
  filter (fun name => negb (String.eqb name RECOG)) names.

(** ** A sample environment *)

(** Two devices, the port of a device being an array of 256 characters;
    the image "fw.bin" holds OPFW 3.2, which the host supports, and RECOG
    2.1, the recognition version of the second device only; the device
    answers a ping from the tenth second on. *)
Definition sample_environment : Environment :=
  mkEnvironment
    256
    [mkDeviceInfo "COM1"; mkDeviceInfo "COM2"]
    (fun port =>
       if String.eqb port "COM1" then "OPFW:3.1.0|RECOG:2.0"
       else "OPFW:3.1.0|NNLED:4.0|RECOG:2.1")
    (fun port => "SN-" ++ port)
    (fun _ second => if 10 <=? second then Ok else NotOk 1)
    (fun binPath =>
       if String.eqb binPath "fw.bin"
       then mkFwInformation true "3.2.0" "2.1" ["OPFW"; "NNLED"; "RECOG"]
       else mkFwInformation false "" "" [])
    (fun _ _ => true)
    (fun version => String.eqb version "3.2.0")
    (fun _ _ _ => Ok).

(** The end of a line typed by the user. *)
Definition newline : string := String "010" "".


Definition auto_approve_command : list string :=
  ["rsid-fw-update"; "--file"; "fw.bin"; "--port"; "COM1"; "--auto-approve"].

Definition interactive_command : list string :=
  ["rsid-fw-update"; "--file"; "fw.bin"; "--interactive"].

(** ** The paths through [main] *)

(** The calls that query one device. *)
Definition query_events (port : string) : list Event :=
  [EvConnect port; EvQueryFirmwareVersion port; EvQuerySerialNumber port;
   EvDisconnect port].

Section Paths.

Variable env : Environment.
Variable args : CommandLineArgs.
Variable selected_device : FullDeviceInfo.

Let info := ExtractFwInformation env (fw_file args).
Let serial := serial_number (metadata selected_device).
Let supported := IsEncryptionSupported env (fw_file args) serial.
Let new_compatible := IsFwCompatibleWithHost env (outFwVersion info).
Let settings := mkSettings (serialPort (config selected_device)) (force_full args).

(** The calls of the checks, in the order in which they are made. *)
Definition extract_event : Event := EvExtractFwInformation (fw_file args) info.
Definition encryption_event : Event :=
  EvIsEncryptionSupported (fw_file args) serial supported.
Definition compatibility_events : list Event :=
  [EvIsFwCompatibleWithHost (fw_version (metadata selected_device))
     (IsFwCompatibleWithHost env (fw_version (metadata selected_device)));
   EvIsFwCompatibleWithHost (outFwVersion info) new_compatible].
Definition update_event (names : list string) : Event :=
  EvUpdateModules settings (fw_file args) names
    (UpdateModules env settings (fw_file args) names).
Definition update_code (names : list string) : Z :=
  if Status_eqb (UpdateModules env settings (fw_file args) names) Ok
  then SUCCESS_MAIN else FAILURE_MAIN.

(** The four ways in which the second half of [main] can go. *)
Inductive UpdatePath (st : State) (o : Outcome Z) : Prop :=
| InvalidFile (st' : State) :
    extracted info = false ->
    o = Returns FAILURE_MAIN st' ->
    trace st' = (trace st ++ [extract_event])%list ->
    UpdatePath st o
| EncryptionUnsupported (st' : State) :
    extracted info = true -> supported = false ->
    o = Returns FAILURE_MAIN st' ->
    trace st' = (trace st ++ [extract_event; encryption_event])%list ->
    UpdatePath st o
| StoppedBeforeUpdate (st' : State) :
    extracted info = true -> supported = true ->
    o = Returns FAILURE_MAIN st' \/ o = NeverReturns st' ->
    (o = NeverReturns st' ->
     is_interactive args = true \/
     (new_compatible = true \/ force_version args = true) /\ auto_approve args = false) ->
    trace st' =
      (trace st ++ extract_event :: encryption_event :: compatibility_events)%list ->
    UpdatePath st o
| Updated (st' : State) (names : list string) :
    extracted info = true -> supported = true ->
    new_compatible = true \/ force_version args = true ->
    names = moduleNames info \/ names = without_RECOG (moduleNames info) ->
    o = Returns (update_code names) st' ->
    trace st' =
      (trace st ++ extract_event :: encryption_event :: compatibility_events
         ++ [update_event names])%list ->
    UpdatePath st o.

End Paths.

Local Open Scope list_scope.

(** The ways in which a run can go: the command line is refused; no
    device is selected; the port of the command line does not fit the array
    it is copied to; a device is selected and the second half of [main] runs
    on it. *)
Inductive RunPath (env : Environment) (argv : list string) (input : string) : Prop :=
| Refused :
    is_valid (ParseCommandLineArgs (Z.of_nat (List.length argv)) argv) = false ->
    run env argv input = Returns FAILURE_MAIN (mkState input 0 []) ->
    RunPath env argv input
| NoDevice (st' : State) :
    is_valid (ParseCommandLineArgs (Z.of_nat (List.length argv)) argv) = true ->
    Forall is_query (trace st') ->
    run env argv input = Returns FAILURE_MAIN st' \/
    run env argv input = NeverReturns st' ->
    RunPath env argv input
| PortTooLong (st' : State) :
    is_valid (ParseCommandLineArgs (Z.of_nat (List.length argv)) argv) = true ->
    Forall is_query (trace st') ->
    ~ port_fits env (ParseCommandLineArgs (Z.of_nat (List.length argv)) argv) ->
    run env argv input = Undefined st' ->
    RunPath env argv input
| Selected (selected_device : FullDeviceInfo) (st' : State) :
    is_valid (ParseCommandLineArgs (Z.of_nat (List.length argv)) argv) = true ->
    Forall is_query (trace st') ->
    main_select_device env (ParseCommandLineArgs (Z.of_nat (List.length argv)) argv)
      (mkState input 0 []) = Returns (Some selected_device) st' ->
    run env argv input =
      main_update_device env (ParseCommandLineArgs (Z.of_nat (List.length argv)) argv)
        selected_device st' ->
    UpdatePath env (ParseCommandLineArgs (Z.of_nat (List.length argv)) argv)
      selected_device st' (run env argv input) ->
    RunPath env argv input.

(** The shape of the calls of a run. *)
Inductive RunCalls (env : Environment) (argv : list string) (input : string) : Prop :=
| QueriesOnly :
    Forall is_query (calls (run env argv input)) ->
    exit_code (run env argv input) = Some FAILURE_MAIN \/
    waits_for_ever (run env argv input) \/
    undefined_behaviour (run env argv input) /\
    ~ port_fits env (ParseCommandLineArgs (Z.of_nat (List.length argv)) argv) ->
    RunCalls env argv input
| ChecksFailed (args := ParseCommandLineArgs (Z.of_nat (List.length argv)) argv)
    (dev : FullDeviceInfo) (queries : list Event) :
    Forall is_query queries ->
    (extracted (ExtractFwInformation env (fw_file args)) = false /\
     calls (run env argv input) = queries ++ [extract_event env args] /\
     exit_code (run env argv input) = Some FAILURE_MAIN) \/
    (extracted (ExtractFwInformation env (fw_file args)) = true /\
     IsEncryptionSupported env (fw_file args) (serial_number (metadata dev)) = false /\
     calls (run env argv input) =
       queries ++ [extract_event env args; encryption_event env args dev] /\
     exit_code (run env argv input) = Some FAILURE_MAIN) \/
    (extracted (ExtractFwInformation env (fw_file args)) = true /\
     IsEncryptionSupported env (fw_file args) (serial_number (metadata dev)) = true /\
     calls (run env argv input) =
       queries ++ extract_event env args :: encryption_event env args dev
         :: compatibility_events env args dev /\
     (exit_code (run env argv input) = Some FAILURE_MAIN \/
      waits_for_ever (run env argv input) /\
      (is_interactive args = true \/
       IsFwCompatibleWithHost env (outFwVersion (ExtractFwInformation env (fw_file args)))
         = true \/ force_version args = true))) ->
    RunCalls env argv input
| UpdateCalled (args := ParseCommandLineArgs (Z.of_nat (List.length argv)) argv)
    (dev : FullDeviceInfo) (queries : list Event) (names : list string) :
    Forall is_query queries ->
    extracted (ExtractFwInformation env (fw_file args)) = true ->
    IsEncryptionSupported env (fw_file args) (serial_number (metadata dev)) = true ->
    IsFwCompatibleWithHost env (outFwVersion (ExtractFwInformation env (fw_file args))) = true \/
    force_version args = true ->
    names = moduleNames (ExtractFwInformation env (fw_file args)) \/
    names = without_RECOG (moduleNames (ExtractFwInformation env (fw_file args))) ->
    calls (run env argv input) =
      (queries ++ extract_event env args :: encryption_event env args dev
         :: compatibility_events env args dev) ++ [update_event env args dev names] ->
    exit_code (run env argv input) = Some (update_code env args dev names) ->
    RunCalls env argv input.

Local Open Scope string_scope.
Local Open Scope Z_scope.

(** ** The progress bar *)

(** [progress_bars] of [FwUpdaterCliEventHandler::OnProgress]. *)
Definition progress_bars : Z := 80.

(** [for (int bar = 0; bar < progress_bars; ++bar) std::cout << to_print;]
    with [n] cells left to print from [bar] on: the characters printed.
    The progress is a [float]; the loop depends on it through
    [progress_marker] only, the [int] that the cast of
    [progress_bars * adjustedProgress] gives, which is a parameter here. *)
Fixpoint OnProgress_bar_loop (n : nat) (bar progress_marker : Z) : string :=
  match n with
  | O => ""
  | S n' =>
      let to_print := if bar <? progress_marker then ":"%char else " "%char in
      String to_print (OnProgress_bar_loop n' (bar + 1) progress_marker)
  end.

(** What [OnProgress] prints between the brackets. *)
Definition OnProgress_bar (progress_marker : Z) : string :=
  OnProgress_bar_loop (Z.to_nat (progress_bars - 0)) 0 progress_marker.

(** ** More words for the properties of the tool *)

(** The value of the last [--port] option; empty when there is none. *)
Definition port_value (options : list CliOption) : string :=
  fold_left (fun value o => match o with OptPort v => v | _ => value end) options "".

(** [n] times the character [c]. *)
Fixpoint replicate (n : nat) (c : ascii) : string :=
  match n with
  | O => ""
  | S n' => String c (replicate n' c)
  end.

(** The text that a version parser gave, "Unknown" standing for none. *)
Definition text_or_unknown (parsed : option string) : string :=
  match parsed with
  | Some text => text
  | None => "Unknown"
  end.

(** The metadata that the tool keeps of the device on [port]: what the
    device reports, "Unknown" standing for what it does not report. *)
Definition metadata_of (env : Environment) (port : string) : DeviceMetadata :=
  let version := QueryFirmwareVersion env port in
  let serial := QuerySerialNumber env port in
  mkDeviceMetadata
    (if size serial =? 0 then "Unknown" else serial)
    (if size version =? 0 then "Unknown"
     else text_or_unknown (ParseFirmwareVersion version))
    (if size version =? 0 then "Unknown"
     else text_or_unknown (ParseRecognitionVersion version)).

(** The device list of [main] for the detected devices. *)
Definition full_device_info (env : Environment) (detected_device : DeviceInfo)
  : FullDeviceInfo :=
  mkFullDeviceInfo (metadata_of env (serialPort detected_device)) detected_device.

(** The calls with which [main] populates its device list. *)
Definition populate_events (env : Environment) (args : CommandLineArgs) : list Event :=
  if size (serial_port args) =? 0
  then EvDiscoverDevices
         :: flat_map (fun d => query_events (serialPort d)) (DiscoverDevices env)
  else query_events (serial_port args).

(** The device list that [main] populates: the detected devices, or the
    device of the [--port] option alone (when that port fits its array). *)
Definition devices_of (env : Environment) (args : CommandLineArgs) : list FullDeviceInfo :=
  if size (serial_port args) =? 0
  then map (full_device_info env) (DiscoverDevices env)
  else [mkFullDeviceInfo (metadata_of env (serial_port args))
          (mkDeviceInfo (serial_port args))].

(** The first half of [main], once the devices are queried. *)
Definition select_outcome (env : Environment) (args : CommandLineArgs) (st : State)
  : Outcome (option FullDeviceInfo) :=
  let devices_info := devices_of env args in
  let queried := (trace st ++ populate_events env args)%list in
  if negb (size (serial_port args) =? 0)
     && negb (size (serial_port args) <? serialPort_size env) then
    Undefined (mkState (cin st) (clock st) queried)
  else
    match devices_info with
    | [] => Returns None (mkState (cin st) (clock st) queried)
    | [device] => Returns (Some device) (mkState (cin st) (clock st) queried)
    | _ =>
        match UserDeviceSelection_loop (Z.of_nat (List.length devices_info)) (-1) (cin st) with
        | None => NeverReturns (mkState "" (clock st) queried)
        | Some (device_index, rest) =>
            match nth_error devices_info (Z.to_nat (device_index - 1)) with
            | Some device => Returns (Some device) (mkState rest (clock st) queried)
            | None => Throws (mkState rest (clock st) queried)
            end
        end
    end.

(** The calls of one ping, and of [count] pings sent one second apart
    after second [from]. *)
Definition ping_events (env : Environment) (port : string) (second : Z) : list Event :=
  [EvConnect port; EvPing port (Ping env port second); EvDisconnect port].

Fixpoint pings (env : Environment) (port : string) (from : Z) (count : nat) : list Event :=
  match count with
  | O => []
  | S count' => (ping_events env port (from + 1) ++ pings env port (from + 1) count')%list
  end.

(** The answer to a question of [UserApproval] that is asked only when
    [asked] holds, y being taken for granted otherwise: the key that ends
    the loop and the input that is left, if the loop ends. *)
Definition answer (asked : bool) (input : string) : option (ascii * string) :=
  if asked then UserApproval_loop "0" input else Some ("y"%char, input).

(** The second half of [main] on the selected device, question by
    question. *)
Definition update_outcome (env : Environment) (args : CommandLineArgs)
    (dev : FullDeviceInfo) (st : State) : Outcome Z :=
  let info := ExtractFwInformation env (fw_file args) in
  let checked :=
    (trace st ++ extract_event env args :: encryption_event env args dev
       :: compatibility_events env args dev)%list in
  if negb (extracted info) then
    Returns FAILURE_MAIN (mkState (cin st) (clock st) (trace st ++ [extract_event env args]))
  else if negb (IsEncryptionSupported env (fw_file args) (serial_number (metadata dev))) then
    Returns FAILURE_MAIN
      (mkState (cin st) (clock st)
         (trace st ++ [extract_event env args; encryption_event env args dev]))
  else
    match answer (is_interactive args) (cin st) with
    | None => NeverReturns (mkState "" (clock st) checked)
    | Some (proceed, rest) =>
        if negb (Ascii.eqb proceed "y") then
          Returns FAILURE_MAIN (mkState rest (clock st) checked)
        else if negb (IsFwCompatibleWithHost env (outFwVersion info))
                && negb (force_version args) then
          Returns FAILURE_MAIN (mkState rest (clock st) checked)
        else
          match answer
                  (negb (is_database_compatible (recognition_version (metadata dev))
                           (outRecognitionVersion info))
                   && negb (auto_approve args)) rest with
          | None => NeverReturns (mkState "" (clock st) checked)
          | Some (clear, rest') =>
              let names :=
                if Ascii.eqb clear "y" then moduleNames info
                else without_RECOG (moduleNames info) in
              Returns (update_code env args dev names)
                (mkState rest' (clock st) (checked ++ [update_event env args dev names]))
          end
    end.

(** The environment in which the host answers [compatible] about the
    compatibility of firmware versions, all else being equal. *)
Definition with_compatibility (env : Environment) (compatible : string -> bool)
  : Environment :=
  mkEnvironment (serialPort_size env) (DiscoverDevices env) (QueryFirmwareVersion env)
    (QuerySerialNumber env) (Ping env) (ExtractFwInformation env)
    (IsEncryptionSupported env) compatible (UpdateModules env).

(** ** More sample runs *)






(* ===================================================================== *)
(** * Part II: properties *)
(* ===================================================================== *)

(** ** Facts about the string operations *)

Module StdStringFacts.

Lemma prefix_true_iff (p s : string) :
  prefix p s = true <-> exists post, s = p ++ post.
Proof.
  revert s; induction p as [|x p IH]; intros s.
  - destruct s; simpl; split; eauto.
  - destruct s as [|y s]; simpl.
    + split; [discriminate | intros [post H]; discriminate].
    + destruct (ascii_dec x y) as [->|Hne].
      * rewrite IH. split; intros [post H]; exists post; simpl in *; congruence.
      * split; [discriminate | intros [post H]; simpl in H; congruence].
Qed.

Lemma prefix_empty (s : string) : prefix "" s = true.
Proof. destruct s; reflexivity. Qed.

Lemma prefix_cons (x : ascii) (p : string) (y : ascii) (s : string) :
  prefix (String x p) (String y s) = Ascii.eqb x y && prefix p s.
Proof.
  cbn [prefix]. destruct (ascii_dec x y) as [->|Hne].
  - rewrite Ascii.eqb_refl. reflexivity.
  - destruct (Ascii.eqb_spec x y); [contradiction | reflexivity].
Qed.

Lemma find_first_unfold (needle s : string) :
  find_first needle s =
  if prefix needle s then Some 0%nat
  else match s with
       | EmptyString => None
       | String _ s' => option_map S (find_first needle s')
       end.
Proof. destruct s; reflexivity. Qed.

(** Where [find_first] finds its needle, the needle is. *)
Lemma find_first_Some (needle s : string) (i : nat) :
  find_first needle s = Some i ->
  exists pre post, s = pre ++ needle ++ post /\ String.length pre = i.
Proof.
  revert i; induction s as [|c s IH]; intros i; rewrite find_first_unfold.
  - destruct (prefix needle "") eqn:Hp; [|discriminate].
    intros [= <-]. apply prefix_true_iff in Hp as [post Hp].
    exists "", post. split; [exact Hp | reflexivity].
  - destruct (prefix needle (String c s)) eqn:Hp.
    + intros [= <-]. apply prefix_true_iff in Hp as [post Hp].
      exists "", post. split; [exact Hp | reflexivity].
    + destruct (find_first needle s) as [j|]; [|discriminate].
      simpl. intros [= <-]. destruct (IH j eq_refl) as (pre & post & -> & Hlen).
      exists (String c pre), post. simpl. split; congruence.
Qed.

(** A needle that occurs is found. *)
Lemma find_first_occurs (needle pre post : string) :
  exists i, find_first needle (pre ++ needle ++ post) = Some i.
Proof.
  induction pre as [|c pre [i IH]]; rewrite find_first_unfold.
  - assert (Hp : prefix needle (needle ++ post) = true)
      by (apply prefix_true_iff; eauto).
    simpl. rewrite Hp; eauto.
  - destruct (prefix needle (String c pre ++ needle ++ post)); [eauto|].
    simpl. rewrite IH. simpl. eauto.
Qed.
Lemma append_empty_r (s : string) : s ++ "" = s.
Proof. induction s as [|c s IH]; simpl; congruence. Qed.

Lemma append_assoc (a b c : string) : (a ++ b) ++ c = a ++ (b ++ c).
Proof. induction a as [|x a IH]; simpl; congruence. Qed.

Lemma length_append (a b : string) :
  String.length (a ++ b) = (String.length a + String.length b)%nat.
Proof. induction a as [|x a IH]; simpl; congruence. Qed.


Lemma find_first_bound (needle s : string) (i : nat) :
  find_first needle s = Some i -> (i + String.length needle <= String.length s)%nat.
Proof.
  intros H. destruct (find_first_Some _ _ _ H) as (pre & post & -> & <-).
  rewrite !length_append. lia.
Qed.

Lemma substring_all (s : string) : substring 0 (String.length s) s = s.
Proof. induction s as [|c s IH]; simpl; congruence. Qed.

Lemma compare_eq_iff (a b : string) : compare a b = 0 <-> a = b.
Proof.
  revert b; induction a as [|x a IH]; intros [|y b]; simpl;
    try (split; [lia | discriminate]); [tauto|].
  destruct (Ascii.eqb_spec x y) as [->|Hne].
  - rewrite IH. split; congruence.
  - split; [|congruence]. intros H. exfalso. apply Hne.
    unfold byte_value in H.
    rewrite <- (ascii_N_embedding x), <- (ascii_N_embedding y).
    f_equal. lia.
Qed.

Lemma equal_true_iff (a b : string) : equal a b = true <-> a = b.
Proof.
  unfold equal. rewrite andb_true_iff, !Z.eqb_eq, compare_eq_iff.
  split; [tauto | intros ->; tauto].
Qed.

Lemma strcmp_eqb (a b : string) : (strcmp a b =? 0) = String.eqb a b.
Proof.
  unfold strcmp. destruct (String.eqb_spec a b) as [->|Hne].
  - apply Z.eqb_eq, compare_eq_iff. reflexivity.
  - apply Z.eqb_neq. rewrite compare_eq_iff. exact Hne.
Qed.

End StdStringFacts.

Import StdStringFacts.

(** ** Version strings *)

Section VersionStrings.

(** One turn of the loop of [ExtractModuleFromVersion]. *)
Lemma ExtractModuleFromVersion_loop_step (module_name version_stream : string) :
  ExtractModuleFromVersion_loop module_name version_stream =
  match getline version_stream "|" with
  | Some (section, rest) =>
      if negb (find section module_name =? npos) then
        substr section (size_add (find section ":") 1) npos
      else ExtractModuleFromVersion_loop module_name rest
  | None => Some "Unknown"
  end.
Proof.
  rewrite ExtractModuleFromVersion_loop_equation_1.
  unfold ExtractModuleFromVersion_loop_unfold_clause_1, inspect.
  destruct (getline version_stream "|") as [[section rest]|]; reflexivity.
Qed.

Lemma occurs_iff (needle s : string) : occurs needle s = true <-> Substring needle s.
Proof.
  unfold occurs, Substring. split.
  - destruct (find_first needle s) as [i|] eqn:H; [|discriminate].
    intros _. destruct (find_first_Some _ _ _ H) as (pre & post & Hs & _). eauto.
  - intros (pre & post & ->).
    destruct (find_first_occurs needle pre post) as [i ->]. reflexivity.
Qed.

(** On a string that a [std::string] can hold, [find] answers [npos]
    exactly when there is no occurrence. *)
Lemma find_npos (needle s : string) :
  size s < npos -> negb (find s needle =? npos) = occurs needle s.
Proof.
  unfold find, occurs, size. intros Hs.
  destruct (find_first needle s) as [i|] eqn:H.
  - apply find_first_bound in H. apply negb_true_iff, Z.eqb_neq. lia.
  - rewrite Z.eqb_refl. reflexivity.
Qed.

Lemma colon_suffix_find (s : string) :
  match find_first ":" s with
  | Some i => colon_suffix s = Some (substring (S i) (String.length s - S i) s)
  | None => colon_suffix s = None
  end.
Proof.
  induction s as [|c s IH]; [reflexivity|].
  rewrite find_first_unfold. cbn [prefix colon_suffix].
  destruct (ascii_dec ":" c) as [<-|Hne].
  - destruct s; simpl; rewrite ?Nat.sub_0_r, ?substring_all; reflexivity.
  - destruct (Ascii.eqb_spec c ":") as [->|_]; [congruence|].
    destruct (find_first ":" s) as [i|]; simpl; exact IH.
Qed.

(** The call [section.substr(pos + 1, npos)], with [pos] the result of
    [section.find(":")]: when there is no colon, [pos + 1] wraps around
    to 0 and the whole section is returned. *)
Lemma substr_after_colon (section : string) :
  size section < npos ->
  substr section (size_add (find section ":") 1) npos = Some (after_first_colon section).
Proof.
  unfold find, after_first_colon, substr, size_add, size. intros Hs.
  pose proof (colon_suffix_find section) as Hc.
  destruct (find_first ":" section) as [i|] eqn:Hf.
  - apply find_first_bound in Hf. simpl in Hf. rewrite Hc.
    unfold npos, size_t_modulus in *.
    rewrite Z.mod_small by lia.
    destruct (Z.ltb_spec (Z.of_nat (String.length section)) (Z.of_nat i + 1)); [lia|].
    do 2 f_equal; lia.
  - rewrite Hc. unfold npos, size_t_modulus in *.
    replace ((2 ^ 64 - 1 + 1) mod 2 ^ 64) with 0 by reflexivity.
    destruct (Z.ltb_spec (Z.of_nat (String.length section)) 0); [lia|].
    replace (Z.to_nat (Z.min (2 ^ 64 - 1) (Z.of_nat (String.length section) - 0)))
      with (String.length section) by lia.
    change (Z.to_nat 0) with 0%nat. rewrite substring_all. reflexivity.
Qed.

(** The function never throws: [pos + 1] is at most the size of the
    section, wrapped around or not. *)
Lemma substr_after_colon_returns (section : string) :
  exists text, substr section (size_add (find section ":") 1) npos = Some text.
Proof.
  unfold substr. destruct (Z.ltb_spec (size section) (size_add (find section ":") 1)) as [H|H];
    [exfalso | eauto].
  unfold size_add, find, size in H.
  destruct (find_first ":" section) as [i|] eqn:Hf.
  - apply find_first_bound in Hf. simpl in Hf.
    assert (Hm : 0 < size_t_modulus) by reflexivity.
    pose proof (Z.mod_le (Z.of_nat i + 1) size_t_modulus ltac:(lia) Hm). lia.
  - change ((npos + 1) mod size_t_modulus) with 0 in H. lia.
Qed.

Lemma ExtractModuleFromVersion_loop_returns (module_name version_stream : string) :
  exists text, ExtractModuleFromVersion_loop module_name version_stream = Some text.
Proof.
  remember (String.length version_stream) as n eqn:Hn.
  revert version_stream Hn.
  induction n as [n IH] using lt_wf_ind. intros version_stream ->.
  rewrite ExtractModuleFromVersion_loop_step.
  destruct (getline version_stream "|") as [[section rest]|] eqn:Hg; [|eauto].
  destruct (negb (find section module_name =? npos)).
  - apply substr_after_colon_returns.
  - apply getline_shrinks in Hg. eapply IH; [exact Hg | reflexivity].
Qed.

(** What [getline] reads is the first piece; what it leaves holds the
    other pieces. *)
Lemma getline_scan_split (s : string) :
  exists pieces,
    split_pipes s = fst (getline_scan s "|") :: pieces /\
    (pieces = [] /\ snd (getline_scan s "|") = "" \/
     pieces = split_pipes (snd (getline_scan s "|"))).
Proof.
  induction s as [|c s (pieces & Hsplit & Hrest)]; simpl.
  - exists []. auto.
  - destruct (Ascii.eqb c "|"); simpl.
    + exists (split_pipes s). auto.
    + rewrite Hsplit. destruct (getline_scan s "|") as [str rest]; simpl in *.
      exists pieces. auto.
Qed.

Lemma getline_scan_length (s : string) :
  (String.length (fst (getline_scan s "|")) <= String.length s)%nat.
Proof.
  induction s as [|c s IH]; simpl; [lia|].
  destruct (Ascii.eqb c "|"); simpl; [lia|].
  destruct (getline_scan s "|"); simpl in *; lia.
Qed.

Lemma occurs_empty_needle (s : string) : occurs "" s = true.
Proof. apply occurs_iff. exists "", s. reflexivity. Qed.

Lemma occurs_in_empty (needle : string) : occurs needle "" = true -> needle = "".
Proof.
  rewrite occurs_iff. intros (pre & post & H).
  destruct pre; [|discriminate]. destruct needle; [reflexivity | discriminate].
Qed.

Lemma ExtractModuleFromVersion_select (module_name full_version : string) :
  size full_version < npos ->
  ExtractModuleFromVersion module_name full_version =
  Some (select module_name (pipe_sections full_version)).
Proof.
  unfold ExtractModuleFromVersion.
  remember (String.length full_version) as n eqn:Hn.
  revert full_version Hn.
  induction n as [n IH] using lt_wf_ind. intros s -> Hs.
  rewrite ExtractModuleFromVersion_loop_step.
  destruct s as [|c s]; [reflexivity|].
  cbn [getline pipe_sections].
  destruct (getline_scan_split (String c s)) as (pieces & Hsplit & Hrest).
  pose proof (getline_scan_length (String c s)) as Hlen.
  assert (Hshrink : (String.length (snd (getline_scan (String c s) "|"))
                     < String.length (String c s))%nat).
  { apply (getline_shrinks (String c s) "|" (fst (getline_scan (String c s) "|"))).
    unfold getline. rewrite <- surjective_pairing. reflexivity. }
  rewrite Hsplit.
  destruct (getline_scan (String c s) "|") as [section rest].
  cbn [fst snd] in *. cbn [select].
  unfold size in *.
  rewrite find_npos by (unfold size; lia).
  destruct (occurs module_name section) eqn:Hocc.
  - apply substr_after_colon. unfold size. lia.
  - rewrite (IH (String.length rest) Hshrink rest eq_refl) by lia.
    f_equal. destruct Hrest as [ [-> ->] | -> ]; [reflexivity|].
    destruct rest as [|d rest]; [|reflexivity].
    cbn [pipe_sections split_pipes select].
    destruct (occurs module_name "") eqn:Hempty; [|reflexivity].
    apply occurs_in_empty in Hempty. subst module_name.
    rewrite occurs_empty_needle in Hocc. discriminate.
Qed.

Lemma colon_suffix_token (name text : string) :
  char_free ":" name = true -> colon_suffix (name ++ ":" ++ text) = Some text.
Proof.
  induction name as [|c name IH]; simpl; [reflexivity|].
  intros H. apply andb_true_iff in H as [Hc Hname].
  apply negb_true_iff in Hc. rewrite Hc. exact (IH Hname).
Qed.

Lemma after_first_colon_token (name text : string) :
  char_free ":" name = true -> after_first_colon (name ++ ":" ++ text) = text.
Proof.
  intros H. unfold after_first_colon. rewrite (colon_suffix_token name text H).
  reflexivity.
Qed.

Lemma after_first_colon_none (section : string) :
  char_free ":" section = true -> after_first_colon section = section.
Proof.
  unfold after_first_colon. intros H.
  assert (E : colon_suffix section = None).
  { induction section as [|c s IH]; simpl in *; [reflexivity|].
    apply andb_true_iff in H as [Hc Hs]. apply negb_true_iff in Hc.
    rewrite Hc. auto. }
  rewrite E. reflexivity.
Qed.

Lemma select_first_match (module_name : string) (before : list string)
    (section : string) (after : list string) :
  Forall (fun s => ~ Substring module_name s) before ->
  Substring module_name section ->
  select module_name (before ++ section :: after) = after_first_colon section.
Proof.
  intros Hbefore Hsec. induction Hbefore as [|s before Hs _ IH]; simpl.
  - apply occurs_iff in Hsec. rewrite Hsec. reflexivity.
  - destruct (occurs module_name s) eqn:E; [|exact IH].
    apply occurs_iff in E. contradiction.
Qed.

Lemma select_no_match (module_name : string) (sections : list string) :
  Forall (fun s => ~ Substring module_name s) sections ->
  select module_name sections = "Unknown".
Proof.
  induction 1 as [|s sections Hs _ IH]; simpl; [reflexivity|].
  destruct (occurs module_name s) eqn:E; [|exact IH].
  apply occurs_iff in E. contradiction.
Qed.

(** *** Composite strings of well-formed tokens *)

Lemma char_free_append (c : ascii) (a b : string) :
  char_free c (a ++ b) = char_free c a && char_free c b.
Proof.
  induction a as [|x a IH]; simpl; [reflexivity|].
  rewrite IH, andb_assoc. reflexivity.
Qed.

Lemma split_pipes_plain (piece : string) :
  char_free "|" piece = true -> split_pipes piece = [piece].
Proof.
  induction piece as [|c piece IH]; simpl; [reflexivity|].
  intros H. apply andb_true_iff in H as [Hc Hp]. apply negb_true_iff in Hc.
  rewrite Hc, (IH Hp). reflexivity.
Qed.

Lemma split_pipes_cons (piece rest : string) :
  char_free "|" piece = true ->
  split_pipes (piece ++ "|" ++ rest) = piece :: split_pipes rest.
Proof.
  induction piece as [|c piece IH]; simpl; [reflexivity|].
  intros H. apply andb_true_iff in H as [Hc Hp]. apply negb_true_iff in Hc.
  specialize (IH Hp). simpl in IH. rewrite Hc, IH. reflexivity.
Qed.

Lemma token_text_pipe_free (t : Token) :
  plain (fst t) = true -> plain (snd t) = true -> char_free "|" (token_text t) = true.
Proof.
  unfold plain, token_text. intros Hn Hv.
  apply andb_true_iff in Hn as [Hn _]. apply andb_true_iff in Hv as [Hv _].
  rewrite !char_free_append, Hn, Hv. reflexivity.
Qed.

Lemma split_pipes_composite (t : Token) (tokens : list Token) :
  well_formed (t :: tokens) ->
  split_pipes (composite (t :: tokens)) = map token_text (t :: tokens).
Proof.
  revert t; induction tokens as [|u tokens IH]; intros t Hwf;
    inversion Hwf as [|? ? [Hn Hv] Hrest]; subst.
  - apply split_pipes_plain, token_text_pipe_free; assumption.
  - change (composite (t :: u :: tokens))
      with (token_text t ++ "|" ++ composite (u :: tokens)).
    rewrite split_pipes_cons by (apply token_text_pipe_free; assumption).
    rewrite (IH u Hrest). reflexivity.
Qed.

Lemma pipe_sections_composite (tokens : list Token) :
  well_formed tokens -> pipe_sections (composite tokens) = map token_text tokens.
Proof.
  destruct tokens as [|t tokens]; [reflexivity|]. intros Hwf.
  rewrite <- (split_pipes_composite t tokens Hwf).
  unfold pipe_sections.
  destruct (composite (t :: tokens)) eqn:E; [|reflexivity].
  exfalso.
  assert (Hc : exists rest, composite (t :: tokens) = token_text t ++ rest).
  { destruct tokens as [|u tokens].
    - exists "". simpl. rewrite append_empty_r. reflexivity.
    - eexists. reflexivity. }
  destruct Hc as [rest Hc]. rewrite E in Hc.
  unfold token_text in Hc. destruct (fst t); discriminate.
Qed.

Lemma ends_with_iff (s suffix : string) :
  ends_with s suffix = true <-> exists pre, s = pre ++ suffix.
Proof.
  induction s as [|c s IH]; cbn [ends_with]; rewrite orb_true_iff, String.eqb_eq.
  - split.
    + intros [<-|H]; [exists ""; reflexivity | discriminate].
    + intros [pre H]. left. destruct pre; simpl in H; [exact H | discriminate].
  - rewrite IH. split.
    + intros [<-|[pre ->]]; [exists ""; reflexivity | exists (String c pre); reflexivity].
    + intros [[|d pre] H]; simpl in H; [left; exact H | right].
      injection H as _ ->. eauto.
Qed.

(** A colon-free text has no prefix that ends with a colon. *)
Lemma prefix_colon_in_colon_free (name text : string) :
  char_free ":" text = true -> prefix (name ++ ":") text = false.
Proof.
  revert text; induction name as [|c name IH]; intros [|x text] H;
    try reflexivity; cbn [append]; rewrite prefix_cons;
    cbn [char_free] in H; apply andb_true_iff in H as [Hx Ht].
  - apply negb_true_iff in Hx. rewrite Ascii.eqb_sym, Hx. reflexivity.
  - rewrite (IH text Ht). apply andb_false_r.
Qed.

Lemma find_first_colon_free (name text : string) :
  char_free ":" text = true -> find_first (name ++ ":") text = None.
Proof.
  induction text as [|x text IH]; intros H; rewrite find_first_unfold,
    prefix_colon_in_colon_free by exact H; [reflexivity|].
  cbn [char_free] in H. apply andb_true_iff in H as [_ Ht]. rewrite (IH Ht). reflexivity.
Qed.

(** In a token, ["<NAME>:"] can only start where the name of the token
    ends with [NAME]. *)
Lemma prefix_in_token (name n v : string) :
  char_free ":" n = true -> char_free ":" v = true ->
  prefix (name ++ ":") (n ++ ":" ++ v) = String.eqb n name.
Proof.
  revert name; induction n as [|c n IH]; intros [|d name] Hn Hv;
    cbn [append String.eqb]; rewrite ?prefix_cons.
  - rewrite prefix_empty. reflexivity.
  - rewrite (prefix_colon_in_colon_free name v Hv). apply andb_false_r.
  - cbn [char_free] in Hn. apply andb_true_iff in Hn as [Hc _].
    apply negb_true_iff in Hc. rewrite Ascii.eqb_sym, Hc. reflexivity.
  - cbn [char_free] in Hn. apply andb_true_iff in Hn as [_ Hn].
    specialize (IH name Hn Hv). cbn [append] in IH.
    rewrite IH, Ascii.eqb_sym.
    destruct (Ascii.eqb c d); reflexivity.
Qed.

Lemma occurs_in_token (name n v : string) :
  char_free ":" n = true -> char_free ":" v = true ->
  occurs (name ++ ":") (n ++ ":" ++ v) = ends_with n name.
Proof.
  intros Hn Hv. unfold occurs.
  induction n as [|c n IH].
  - rewrite find_first_unfold, (prefix_in_token name "" v Hn Hv).
    cbn [ends_with]. destruct (String.eqb "" name); [reflexivity|].
    simpl. rewrite find_first_colon_free by exact Hv. reflexivity.
  - rewrite find_first_unfold, (prefix_in_token name (String c n) v Hn Hv).
    cbn [ends_with]. destruct (String.eqb (String c n) name); [reflexivity|].
    simpl in Hn. apply andb_true_iff in Hn as [_ Hn]. specialize (IH Hn).
    cbn [append] in *.
    destruct (find_first (name ++ ":") (n ++ String ":" v)); simpl; exact IH.
Qed.

Lemma select_tokens (name : string) (tokens : list Token) :
  well_formed tokens ->
  select (name ++ ":") (map token_text tokens) =
  match version_of_suffix name tokens with Some v => v | None => "Unknown" end.
Proof.
  induction 1 as [|[n v] tokens [Hn Hv] _ IH]; [reflexivity|].
  cbn [map select version_of_suffix].
  unfold plain in Hn, Hv. cbn [fst snd] in Hn, Hv.
  apply andb_true_iff in Hn as [_ Hn]. apply andb_true_iff in Hv as [_ Hv].
  unfold token_text; cbn [fst snd]. rewrite occurs_in_token by assumption.
  destruct (ends_with n name); [|exact IH].
  apply after_first_colon_token. exact Hn.
Qed.

(** When the names of the tokens that end with [name] are [name] itself,
    the search by suffix is the search by name. *)
Lemma version_of_suffix_exact (name : string) (tokens : list Token) :
  (forall n v, In (n, v) tokens -> ends_with n name = true -> n = name) ->
  version_of_suffix name tokens = version_of name tokens.
Proof.
  induction tokens as [|[n v] tokens IH]; simpl; [reflexivity|]. intros H.
  destruct (String.eqb_spec n name) as [->|Hne].
  - assert (E : ends_with name name = true)
      by (apply ends_with_iff; exists ""; reflexivity).
    rewrite E. reflexivity.
  - destruct (ends_with n name) eqn:E.
    + exfalso. apply Hne. apply (H n v); [left; reflexivity | exact E].
    + apply IH. intros n' v' Hin. apply (H n' v'). right. exact Hin.
Qed.

End VersionStrings.

(** [ExtractModuleFromVersion] always returns: no exception leaves it. *)
Lemma ExtractModuleFromVersion_returns (module_name full_version : string) :
  exists text, ExtractModuleFromVersion module_name full_version = Some text.
Proof. apply ExtractModuleFromVersion_loop_returns. Qed.

(** Claim C10.  For every searched name and every composite version string
    (of a size that a [std::string] can have), [ExtractModuleFromVersion]
    selects the first '|'-separated section in which the name occurs as a
    substring, wherever in the section that is, and returns what follows the
    first colon of that section; a selected section without any colon is
    returned whole; and when the name occurs in no section the result is
    "Unknown". *)
Theorem ExtractModuleFromVersion_first_matching_section
    (module_name full_version : string) :
  size full_version < npos ->
  (forall before section after,
      pipe_sections full_version = (before ++ section :: after)%list ->
      Forall (fun s => ~ Substring module_name s) before ->
      Substring module_name section ->
      (forall head text,
          section = head ++ ":" ++ text -> char_free ":" head = true ->
          ExtractModuleFromVersion module_name full_version = Some text) /\
      (char_free ":" section = true ->
       ExtractModuleFromVersion module_name full_version = Some section)) /\
  (Forall (fun s => ~ Substring module_name s) (pipe_sections full_version) ->
   ExtractModuleFromVersion module_name full_version = Some "Unknown").
Proof.
  intros Hsize. rewrite (ExtractModuleFromVersion_select _ _ Hsize). split.
  - intros before section after -> Hbefore Hsection.
    rewrite (select_first_match _ _ _ _ Hbefore Hsection). split.
    + intros head text -> Hhead. rewrite (after_first_colon_token _ _ Hhead).
      reflexivity.
    + intros Hfree. rewrite (after_first_colon_none _ Hfree). reflexivity.
  - intros Hnone. rewrite (select_no_match _ _ Hnone). reflexivity.
Qed.

(** The name is found inside the first section, which has no colon. *)
Lemma ExtractModuleFromVersion_first_matching_section_witness :
  ExtractModuleFromVersion "REC" "xRECOG|RECOG:4.5.6" = Some "xRECOG".
Proof.
  assert (Hsize : size "xRECOG|RECOG:4.5.6" < npos) by (vm_compute; reflexivity).
  destruct (ExtractModuleFromVersion_first_matching_section
              "REC" "xRECOG|RECOG:4.5.6" Hsize) as [Hfound _].
  destruct (Hfound [] "xRECOG" ["RECOG:4.5.6"]) as [_ Hwhole].
  - reflexivity.
  - constructor.
  - exists "x", "OG". reflexivity.
  - apply Hwhole. reflexivity.
Defined.

(** Claim C3, as amended.  For every composite version string made of
    pipe-separated NAME:VERSION tokens (names and versions without pipe or
    colon) and every queried name, searching for ["<NAME>:"] returns the
    version of the first token whose name ends with the queried name, and
    "Unknown" when there is no such token; when the only names that end
    with the queried name are the queried name itself, this is the version
    of the token of that name.  [ParseFirmwareVersion] and
    [ParseRecognitionVersion] are the instances for OPFW and RECOG. *)
Theorem ExtractModuleFromVersion_tokens (tokens : list Token) (name : string) :
  well_formed tokens ->
  size (composite tokens) < npos ->
  ExtractModuleFromVersion (name ++ ":") (composite tokens) =
    Some (match version_of_suffix name tokens with
          | Some version => version
          | None => "Unknown"
          end) /\
  ((forall n v, In (n, v) tokens -> ends_with n name = true -> n = name) ->
   ExtractModuleFromVersion (name ++ ":") (composite tokens) =
     Some (match version_of name tokens with
           | Some version => version
           | None => "Unknown"
           end)) /\
  ParseFirmwareVersion (composite tokens) =
    ExtractModuleFromVersion (OPFW ++ ":") (composite tokens) /\
  ParseRecognitionVersion (composite tokens) =
    ExtractModuleFromVersion (RECOG ++ ":") (composite tokens).
Proof.
  intros Hwf Hsize.
  assert (H : ExtractModuleFromVersion (name ++ ":") (composite tokens) =
              Some (match version_of_suffix name tokens with
                    | Some version => version
                    | None => "Unknown"
                    end)).
  { rewrite (ExtractModuleFromVersion_select _ _ Hsize),
      (pipe_sections_composite _ Hwf), (select_tokens _ _ Hwf). reflexivity. }
  split; [exact H|]. split; [|split; reflexivity].
  intros Hexact. rewrite H, (version_of_suffix_exact _ _ Hexact). reflexivity.
Qed.

Lemma ExtractModuleFromVersion_tokens_witness :
  ExtractModuleFromVersion "RECOG:" "OPFW:1.2.3|RECOG:4.5.6" = Some "4.5.6".
Proof.
  assert (Hwf : well_formed [("OPFW", "1.2.3"); ("RECOG", "4.5.6")])
    by (repeat constructor).
  assert (Hsize : size (composite [("OPFW", "1.2.3"); ("RECOG", "4.5.6")]) < npos)
    by (vm_compute; reflexivity).
  exact (proj1 (ExtractModuleFromVersion_tokens
                  [("OPFW", "1.2.3"); ("RECOG", "4.5.6")] "RECOG" Hwf Hsize)).
Defined.

(** Claim C3, as stated, fails: the token named OPFW has version 2, but
    the search stops in the token named XOPFW; and where no token is named
    OPFW the result is not "Unknown". *)
Lemma ExtractModuleFromVersion_named_token_counterexample :
  well_formed [("XOPFW", "1"); ("OPFW", "2")] /\
  composite [("XOPFW", "1"); ("OPFW", "2")] = "XOPFW:1|OPFW:2" /\
  version_of "OPFW" [("XOPFW", "1"); ("OPFW", "2")] = Some "2" /\
  ExtractModuleFromVersion "OPFW:" "XOPFW:1|OPFW:2" = Some "1" /\
  ParseFirmwareVersion "XOPFW:1|OPFW:2" = Some "1" /\
  version_of "OPFW" [("XOPFW", "1")] = None /\
  ParseFirmwareVersion (composite [("XOPFW", "1")]) = Some "1".
Proof. repeat split; repeat constructor. Qed.

(** ** The command line *)

Section CommandLine.

(** One turn of the [for] loop. *)
Lemma ParseCommandLineArgs_loop_step argc argv i args :
  ParseCommandLineArgs_loop argc argv i args =
  if i <? argc then
    let '(i', args') := ParseCommandLineArgs_body argc argv i args in
    ParseCommandLineArgs_loop argc argv (i' + 1) args'
  else args.
Proof.
  rewrite ParseCommandLineArgs_loop_equation_1.
  unfold ParseCommandLineArgs_loop_unfold_clause_1.
  destruct (Z_lt_dec i argc) as [Hlt|Hge].
  - rewrite (proj2 (Z.ltb_lt i argc) Hlt).
    unfold ParseCommandLineArgs_loop_unfold_clause_1_clause_1, inspect.
    destruct (ParseCommandLineArgs_body argc argv i args). reflexivity.
  - rewrite (proj2 (Z.ltb_nlt i argc) Hge). reflexivity.
Qed.

Lemma argv_at_middle (before : list string) (a : string) (after : list string) :
  argv_at (before ++ a :: after) (Z.of_nat (List.length before)) = a.
Proof. unfold argv_at. rewrite Nat2Z.id. apply nth_middle. Qed.

(** The loop from index [i] applies the options of the arguments from
    [i] on. *)
Lemma ParseCommandLineArgs_loop_options (n : nat) :
  forall (before rest : list string) (args : CommandLineArgs),
    List.length rest = n ->
    ParseCommandLineArgs_loop (Z.of_nat (List.length (before ++ rest))) (before ++ rest)
      (Z.of_nat (List.length before)) args =
    fold_left apply_option (read_options rest) args.
Proof.
  induction n as [n IH] using lt_wf_ind. intros before rest args Hn.
  rewrite ParseCommandLineArgs_loop_step. rewrite length_app.
  destruct rest as [|a rest].
  - simpl. rewrite Nat.add_0_r, Z.ltb_irrefl. reflexivity.
  - destruct (Z.ltb_spec (Z.of_nat (List.length before))
                (Z.of_nat (List.length before + List.length (a :: rest))))
      as [_|Hge]; [|simpl in Hge; lia].
    assert (Hnext : forall args',
               ParseCommandLineArgs_loop
                 (Z.of_nat (List.length before + List.length (a :: rest)))
                 (before ++ a :: rest) (Z.of_nat (List.length before) + 1) args' =
               fold_left apply_option (read_options rest) args').
    { intros args'.
      replace (before ++ a :: rest)%list with ((before ++ [a]) ++ rest)%list
        by (rewrite <- app_assoc; reflexivity).
      replace (Z.of_nat (List.length before) + 1)
        with (Z.of_nat (List.length (before ++ [a])))
        by (rewrite length_app; simpl; lia).
      replace (List.length before + List.length (a :: rest))%nat
        with (List.length ((before ++ [a]) ++ rest))
        by (rewrite !length_app; simpl; lia).
      apply (IH (List.length rest)); [subst n; simpl; lia | reflexivity]. }
    assert (Hnext2 : forall v rest' args', rest = v :: rest' ->
               ParseCommandLineArgs_loop
                 (Z.of_nat (List.length before + List.length (a :: rest)))
                 (before ++ a :: rest) (Z.of_nat (List.length before) + 1 + 1) args' =
               fold_left apply_option (read_options rest') args').
    { intros v rest' args' ->.
      replace (before ++ a :: v :: rest')%list with ((before ++ [a; v]) ++ rest')%list
        by (rewrite <- app_assoc; reflexivity).
      replace (Z.of_nat (List.length before) + 1 + 1)
        with (Z.of_nat (List.length (before ++ [a; v])))
        by (rewrite length_app; simpl; lia).
      replace (List.length before + List.length (a :: v :: rest'))%nat
        with (List.length ((before ++ [a; v]) ++ rest'))
        by (rewrite !length_app; simpl; lia).
      apply (IH (List.length rest')); [subst n; simpl; lia | reflexivity]. }
    assert (Hvalue : forall v rest', rest = v :: rest' ->
               argv_at (before ++ a :: rest) (Z.of_nat (List.length before) + 1) = v).
    { intros v rest' ->.
      replace (before ++ a :: v :: rest')%list with ((before ++ [a]) ++ v :: rest')%list
        by (rewrite <- app_assoc; reflexivity).
      replace (Z.of_nat (List.length before) + 1)
        with (Z.of_nat (List.length (before ++ [a])))
        by (rewrite length_app; simpl; lia).
      apply argv_at_middle. }
    unfold ParseCommandLineArgs_body. rewrite argv_at_middle, !strcmp_eqb.
    cbn [read_options].
    destruct (String.eqb a "--file").
    { destruct rest as [|v rest'].
      - destruct (Z.ltb_spec (Z.of_nat (List.length before) + 1)
                    (Z.of_nat (List.length before + List.length [a])));
          [simpl in *; lia|]. rewrite Hnext. reflexivity.
      - destruct (Z.ltb_spec (Z.of_nat (List.length before) + 1)
                    (Z.of_nat (List.length before + List.length (a :: v :: rest'))));
          [|simpl in *; lia].
        rewrite (Hvalue v rest' eq_refl), (Hnext2 v rest' _ eq_refl). reflexivity. }
    destruct (String.eqb a "--port").
    { destruct rest as [|v rest'].
      - destruct (Z.ltb_spec (Z.of_nat (List.length before) + 1)
                    (Z.of_nat (List.length before + List.length [a])));
          [simpl in *; lia|]. rewrite Hnext. reflexivity.
      - destruct (Z.ltb_spec (Z.of_nat (List.length before) + 1)
                    (Z.of_nat (List.length before + List.length (a :: v :: rest'))));
          [|simpl in *; lia].
        rewrite (Hvalue v rest' eq_refl), (Hnext2 v rest' _ eq_refl). reflexivity. }
    repeat match goal with
           | |- context [String.eqb a ?o] => destruct (String.eqb a o)
           end; rewrite Hnext; reflexivity.
Qed.

(** The fields of the record after the options. *)
Lemma fold_apply_option_fields (options : list CliOption) (args : CommandLineArgs) :
  let args' := fold_left apply_option options args in
  is_valid args' = is_valid args /\
  fw_file args' =
    fold_left (fun value o => match o with OptFile v => v | _ => value end)
      options (fw_file args) /\
  (is_interactive args' = true <-> is_interactive args = true \/ In OptInteractive options) /\
  (auto_approve args' = true <-> auto_approve args = true \/ In OptAutoApprove options).
Proof.
  revert args; induction options as [|o options IH]; intros args; cbn [fold_left].
  - simpl. tauto.
  - destruct (IH (apply_option args o)) as (Hv & Hf & Hi & Ha).
    cbv zeta. rewrite Hv, Hf, Hi, Ha. clear IH Hv Hf Hi Ha.
    destruct o; simpl; repeat split; try tauto;
      try (intros [H|[H|H]]; (discriminate || tauto));
      try (intros [H|H]; tauto).
Qed.

Lemma ParseCommandLineArgs_options (argv : list string) :
  (2 <= List.length argv)%nat ->
  ParseCommandLineArgs_loop (Z.of_nat (List.length argv)) argv 1 CommandLineArgs_default =
  fold_left apply_option (read_options (tl argv)) CommandLineArgs_default.
Proof.
  destruct argv as [|program arguments]; [simpl; lia|]. intros _.
  apply (ParseCommandLineArgs_loop_options (List.length arguments) [program] arguments).
  reflexivity.
Qed.

Lemma size_zero_iff (s : string) : (size s =? 0) = true <-> s = "".
Proof.
  unfold size. rewrite Z.eqb_eq. destruct s; simpl; split; try congruence; lia.
Qed.

End CommandLine.

(** ** [std::remove_if] followed by [erase] *)

Local Open Scope list_scope.

Section EraseRemove.
Context {A : Type} (pred : A -> bool).

Lemma nth_error_middle (before : list A) (x : A) (after : list A) :
  nth_error (before ++ x :: after) (List.length before) = Some x.
Proof. induction before; simpl; auto. Qed.

Lemma assign_middle (before : list A) (y x : A) (after : list A) :
  assign (before ++ y :: after) (List.length before) x = before ++ x :: after.
Proof. induction before as [|b before IH]; simpl; [reflexivity | rewrite IH; reflexivity]. Qed.

(** The invariant of the loop: the elements kept so far, then at least
    one element that may be overwritten, then the elements to visit. *)
Lemma remove_if_loop_spec (todo : list A) :
  forall (kept : list A) (hole : A) (holes : list A),
    let '(v, new_end) :=
      remove_if_loop pred (List.length todo)
        (List.length kept + S (List.length holes)) (List.length kept)
        (kept ++ hole :: holes ++ todo) in
    firstn new_end v = kept ++ filter (fun x => negb (pred x)) todo.
Proof.
  induction todo as [|x todo IH]; intros kept hole holes.
  - simpl. rewrite app_nil_r, firstn_app, firstn_all, Nat.sub_diag. simpl.
    reflexivity.
  - cbn [List.length remove_if_loop].
    replace (kept ++ hole :: holes ++ x :: todo)
      with ((kept ++ hole :: holes) ++ x :: todo)
      by (rewrite <- app_assoc; reflexivity).
    replace (List.length kept + S (List.length holes))%nat
      with (List.length (kept ++ hole :: holes))
      by (rewrite length_app; reflexivity).
    rewrite nth_error_middle. cbn [filter].
    destruct (pred x); cbn [negb].
    + specialize (IH kept hole (holes ++ [x])).
      rewrite <- app_assoc in IH. cbn [app] in IH.
      rewrite <- app_assoc. cbn [app].
      replace (S (List.length (kept ++ hole :: holes)))
        with (List.length kept + S (List.length (holes ++ [x])))%nat
        by (rewrite !length_app; simpl; lia).
      exact IH.
    + rewrite <- app_assoc. cbn [app]. rewrite assign_middle.
      destruct holes as [|hole' holes].
      * specialize (IH (kept ++ [x]) x []).
        rewrite <- !app_assoc in IH. cbn [app] in IH.
        rewrite length_app in IH. cbn [List.length] in IH.
        cbn [app].
        replace (S (List.length (kept ++ [hole])))
          with (List.length kept + 1 + 1)%nat by (rewrite length_app; simpl; lia).
        replace (S (List.length kept)) with (List.length kept + 1)%nat by lia.
        exact IH.
      * specialize (IH (kept ++ [x]) hole' (holes ++ [x])).
        rewrite <- !app_assoc in IH. cbn [app] in IH.
        rewrite !length_app in IH. cbn [List.length] in IH.
        cbn [app].
        replace (S (List.length (kept ++ hole :: hole' :: holes)))
          with (List.length kept + 1 + S (List.length holes + 1))%nat
          by (rewrite length_app; simpl; lia).
        replace (S (List.length kept)) with (List.length kept + 1)%nat by lia.
        exact IH.
Qed.

Lemma find_if_split (v : list A) :
  exists kept rest,
    v = kept ++ rest /\ List.length kept = find_if pred v /\
    filter (fun x => negb (pred x)) kept = kept /\
    match rest with [] => True | x :: _ => pred x = true end.
Proof.
  induction v as [|x v (kept & rest & Hv & Hlen & Hkept & Hrest)]; simpl.
  - exists [], []. auto.
  - destruct (pred x) eqn:Hx.
    + exists [], (x :: v). auto.
    + exists (x :: kept), rest. simpl. rewrite Hx. simpl.
      repeat split; try congruence; try exact Hrest.
Qed.

(** The erase-remove idiom keeps exactly the elements that do not
    satisfy the predicate, in their order. *)
Lemma erase_remove_if (v : list A) :
  (let '(v', new_end) := remove_if pred v in erase_to_end v' new_end) =
  filter (fun x => negb (pred x)) v.
Proof.
  unfold remove_if, erase_to_end.
  destruct (find_if_split v) as (kept & rest & -> & Hlen & Hkept & Hrest).
  rewrite <- Hlen, filter_app, Hkept, length_app.
  destruct rest as [|x rest].
  - simpl. rewrite Nat.add_0_r, Nat.eqb_refl, app_nil_r, firstn_all. reflexivity.
  - destruct (Nat.eqb_spec (List.length kept) (List.length kept + List.length (x :: rest)))
      as [E|_]; [simpl in E; lia|].
    cbn [List.length filter]. rewrite Hrest. cbn [negb].
    replace (List.length kept + S (List.length rest) - S (List.length kept))%nat
      with (List.length rest) by lia.
    pose proof (remove_if_loop_spec rest kept x []) as H.
    cbn [List.length app] in H.
    replace (S (List.length kept)) with (List.length kept + 1)%nat by lia.
    destruct (remove_if_loop pred (List.length rest) (List.length kept + 1)
                (List.length kept) (kept ++ x :: rest)) as [v' new_end].
    exact H.
Qed.

End EraseRemove.

Lemma is_RECOG_eqb (moduleName : string) : is_RECOG moduleName = String.eqb moduleName RECOG.
Proof. unfold is_RECOG. apply strcmp_eqb. Qed.

Section SubsequenceFacts.
Context {A : Type}.

Lemma Subsequence_refl (l : list A) : Subsequence l l.
Proof. induction l; constructor; assumption. Qed.

Lemma Subsequence_filter (f : A -> bool) (l : list A) : Subsequence (filter f l) l.
Proof.
  induction l as [|x l IH]; simpl; [constructor|].
  destruct (f x); constructor; assumption.
Qed.

Lemma Subsequence_incl (l m : list A) : Subsequence l m -> incl l m.
Proof.
  induction 1 as [|x l m _ IH|x l m _ IH]; intros y Hy.
  - exact Hy.
  - destruct Hy as [<-|Hy]; [left; reflexivity | right; auto].
  - right. auto.
Qed.
End SubsequenceFacts.

Local Open Scope string_scope.
Local Open Scope Z_scope.

(** ** User interaction *)

Lemma UserDeviceSelection_loop_step (devices_size device_index : Z) (input : string) :
  UserDeviceSelection_loop devices_size device_index input =
  if (device_index <? 1) || (device_index mod size_t_modulus >? devices_size) then
    match getline input "010" with
    | Some (line, rest) =>
        UserDeviceSelection_loop devices_size
          (match stoi line with Some v => v | None => -1 end) rest
    | None => None
    end
  else Some (device_index, input).
Proof.
  funelim (UserDeviceSelection_loop devices_size device_index input);
    try match goal with E : (_ || _) = _ |- _ => rewrite E end;
    try match goal with E : getline _ _ = _ |- _ => rewrite E end;
    reflexivity.
Qed.

Lemma UserApproval_loop_step (key : ascii) (input : string) :
  UserApproval_loop key input =
  if negb (Ascii.eqb key "y") && negb (Ascii.eqb key "n") then
    match extract_char input with
    | Some (read, rest) => UserApproval_loop read rest
    | None => None
    end
  else Some (key, input).
Proof.
  funelim (UserApproval_loop key input);
    try match goal with E : (_ && _) = _ |- _ => rewrite E end;
    try match goal with E : extract_char _ = _ |- _ => rewrite E end;
    reflexivity.
Qed.

Lemma stoi_range (str : string) (v : Z) : stoi str = Some v -> INT_MIN <= v <= INT_MAX.
Proof.
  unfold stoi.
  destruct (match skipws str with
            | String "-" s' => (true, s')
            | String "+" s' => (false, s')
            | _ => (false, skipws str)
            end) as [negative s].
  destruct (digits s 0 0) as [magnitude [|count]]; [discriminate|].
  destruct (Z.leb_spec INT_MIN (if negative then - magnitude else magnitude));
    destruct (Z.leb_spec (if negative then - magnitude else magnitude) INT_MAX);
    simpl; try discriminate.
  intros [= <-]. lia.
Qed.

(** The index that the user selects is the index of a device. *)
Lemma UserDeviceSelection_loop_range (devices_size : Z) (n : nat) :
  forall (device_index : Z) (input : string) (selected : Z) (rest : string),
    String.length input = n ->
    device_index <= INT_MAX ->
    UserDeviceSelection_loop devices_size device_index input = Some (selected, rest) ->
    1 <= selected <= devices_size.
Proof.
  induction n as [n IH] using lt_wf_ind.
  intros device_index input selected rest Hn Hmax.
  rewrite UserDeviceSelection_loop_step.
  destruct (Z.ltb_spec device_index 1) as [Hlt|Hge]; cbn [orb].
  - destruct (getline input "010") as [[line rest']|] eqn:Hg; [|discriminate].
    apply getline_shrinks in Hg.
    apply (IH (String.length rest')); [lia | reflexivity |].
    destruct (stoi line) as [v|] eqn:Hv; [apply stoi_range in Hv; lia|].
    unfold INT_MAX; lia.
  - assert (Hmod : device_index mod size_t_modulus = device_index).
    { apply Z.mod_small. unfold INT_MAX, size_t_modulus in *. lia. }
    rewrite Hmod.
    destruct (Z.gtb_spec device_index devices_size) as [Hgt|Hle].
    + destruct (getline input "010") as [[line rest']|] eqn:Hg; [|discriminate].
      apply getline_shrinks in Hg.
      apply (IH (String.length rest')); [lia | reflexivity |].
      destruct (stoi line) as [v|] eqn:Hv; [apply stoi_range in Hv; lia|].
      unfold INT_MAX; lia.
    + intros [= <- <-]. lia.
Qed.

(** The two outcomes of a question to the user: an answer, or a wait
    without end; no call is made meanwhile. *)
Lemma UserApproval_cases (st : State) :
  (exists answer rest,
      UserApproval st = Returns answer (mkState rest (clock st) (trace st))) \/
  UserApproval st = NeverReturns (mkState "" (clock st) (trace st)).
Proof.
  unfold UserApproval.
  destruct (UserApproval_loop "0" (cin st)) as [[key rest]|]; eauto.
Qed.

Lemma UserDeviceSelection_cases (devices : list FullDeviceInfo) (st : State) :
  (exists id rest,
      UserDeviceSelection devices st = Returns id (mkState rest (clock st) (trace st)) /\
      0 <= id < Z.of_nat (List.length devices)) \/
  UserDeviceSelection devices st = NeverReturns (mkState "" (clock st) (trace st)).
Proof.
  unfold UserDeviceSelection.
  destruct (UserDeviceSelection_loop (Z.of_nat (List.length devices)) (-1) (cin st))
    as [[selected rest]|] eqn:E; [left | right; reflexivity].
  exists (selected - 1), rest. split; [reflexivity|].
  assert (1 <= selected <= Z.of_nat (List.length devices)); [|lia].
  eapply (UserDeviceSelection_loop_range _ _ (-1) (cin st));
    [reflexivity | unfold INT_MAX; lia | exact E].
Qed.

(** The white space that [>>] skips holds no answer. *)
Lemma skipws_split (input : string) :
  exists blanks,
    input = blanks ++ skipws input /\
    char_free "y" blanks = true /\ char_free "n" blanks = true.
Proof.
  induction input as [|c input (blanks & Hsplit & Hy & Hn)].
  - exists "". auto.
  - cbn [skipws]. destruct (isspace c) eqn:Hspace.
    + exists (String c blanks). cbn [append char_free]. rewrite Hy, Hn, <- Hsplit.
      split; [reflexivity|].
      destruct (Ascii.eqb_spec c "y") as [->|_]; [discriminate|].
      destruct (Ascii.eqb_spec c "n") as [->|_]; [discriminate|]. auto.
    + exists "". auto.
Qed.

(** The question is never answered exactly when what is left to read holds
    neither a y nor an n. *)
Lemma UserApproval_loop_waits (n : nat) :
  forall (key : ascii) (input : string),
    String.length input = n ->
    key <> "y"%char -> key <> "n"%char ->
    (UserApproval_loop key input = None <->
     char_free "y" input = true /\ char_free "n" input = true).
Proof.
  induction n as [n IH] using lt_wf_ind. intros key input Hlen Hy Hn.
  rewrite UserApproval_loop_step.
  destruct (Ascii.eqb_spec key "y") as [E|_]; [contradiction|].
  destruct (Ascii.eqb_spec key "n") as [E|_]; [contradiction|].
  cbn [negb andb].
  destruct (skipws_split input) as (blanks & Hsplit & Hby & Hbn).
  pose proof (skipws_shrinks input) as Hshrink.
  unfold extract_char. rewrite Hsplit at 2 3.
  rewrite !char_free_append, Hby, Hbn. cbn [andb].
  destruct (skipws input) as [|c rest]; [tauto|].
  cbn [char_free String.length] in *.
  destruct (Ascii.eqb_spec c "y") as [->|Hcy].
  { rewrite UserApproval_loop_step. cbn. split; [discriminate | intros [H _]; discriminate]. }
  destruct (Ascii.eqb_spec c "n") as [->|Hcn].
  { rewrite UserApproval_loop_step. cbn. split; [discriminate | intros [_ H]; discriminate]. }
  cbn [negb andb].
  apply (IH (String.length rest)); [lia | reflexivity | exact Hcy | exact Hcn].
Qed.

Lemma UserApproval_waits_iff (st : State) :
  waits_for_ever (UserApproval st) <->
  char_free "y" (cin st) = true /\ char_free "n" (cin st) = true.
Proof.
  rewrite <- (UserApproval_loop_waits _ "0" (cin st) eq_refl) by discriminate.
  unfold UserApproval.
  destruct (UserApproval_loop "0" (cin st)) as [[key rest]|]; cbn;
    split; try tauto; try discriminate.
Qed.

(** ** The device queries of [main] *)

Section Queries.

Variable env : Environment.

Lemma query_events_are_queries (port : string) : Forall is_query (query_events port).
Proof. repeat constructor. Qed.

Lemma QueryDeviceMetadata_returns (serial_config : SerialConfig) (st : State) :
  exists metadata,
    QueryDeviceMetadata env serial_config st =
    Returns metadata
      (mkState (cin st) (clock st) (trace st ++ query_events (port serial_config))).
Proof.
  unfold QueryDeviceMetadata, DeviceController_Connect,
    DeviceController_QueryFirmwareVersion, DeviceController_QuerySerialNumber,
    DeviceController_Disconnect, ParseFirmwareVersion, ParseRecognitionVersion,
    bind, emit, ret, or_throw, query_events.
  cbn [cin clock trace].
  set (version := QueryFirmwareVersion env (port serial_config)).
  destruct (ExtractModuleFromVersion_returns "OPFW:" version) as [fw Hfw].
  destruct (ExtractModuleFromVersion_returns "RECOG:" version) as [recog Hrecog].
  destruct (negb (size version =? 0)); rewrite ?Hfw, ?Hrecog;
    cbn [cin clock trace]; eexists; rewrite <- !app_assoc; reflexivity.
Qed.

Lemma populate_returns (detected_devices : list DeviceInfo) (st : State) :
  exists devices_info events,
    for_each
      (fun detected_device =>
         metadata <- QueryDeviceMetadata env (mkSerialConfig (serialPort detected_device)) ;;
         ret (mkFullDeviceInfo metadata detected_device))
      detected_devices st =
    Returns devices_info (mkState (cin st) (clock st) (trace st ++ events)) /\
    Forall is_query events /\
    List.length devices_info = List.length detected_devices.
Proof.
  revert st; induction detected_devices as [|d devices IH]; intros st.
  - exists [], []. cbn. rewrite app_nil_r. destruct st; auto.
  - cbn [for_each]. unfold bind at 1. unfold bind at 1.
    destruct (QueryDeviceMetadata_returns (mkSerialConfig (serialPort d)) st)
      as [metadata ->].
    unfold ret at 1.
    destruct (IH (mkState (cin st) (clock st)
                    (trace st ++ query_events (port (mkSerialConfig (serialPort d))))))
      as (infos & events & Hrun & Hq & Hlen).
    unfold bind at 1. rewrite Hrun. cbn [cin clock trace ret].
    eexists _, (query_events (serialPort d) ++ events)%list.
    rewrite app_assoc. split; [reflexivity|]. split.
    + apply Forall_app. split; [apply query_events_are_queries | exact Hq].
    + simpl. congruence.
Qed.

Lemma select_outcome_intro (o : Outcome (option FullDeviceInfo)) (st : State)
    (input : string) (seconds : Z) (events : list Event) (too_long : Prop) :
  Forall is_query events ->
  (let st' := mkState input seconds (trace st ++ events) in
   o = Returns None st' \/
   (exists selected_device, o = Returns (Some selected_device) st') \/
   o = NeverReturns st' \/
   o = Undefined st' /\ too_long) ->
  exists st' events,
    trace st' = (trace st ++ events)%list /\ Forall is_query events /\
    (o = Returns None st' \/
     (exists selected_device, o = Returns (Some selected_device) st') \/
     o = NeverReturns st' \/
     o = Undefined st' /\ too_long).
Proof.
  intros Hq H. exists (mkState input seconds (trace st ++ events)), events.
  split; [reflexivity|]. split; [exact Hq | exact H].
Qed.

(** Selecting a device only queries devices, and ends with a device,
    with the finding that there is none, with a wait for an answer that
    does not come, or with the copy of a port that does not fit its
    array. *)
Lemma main_select_device_cases (args : CommandLineArgs) (st : State) :
  exists st' events,
    trace st' = (trace st ++ events)%list /\ Forall is_query events /\
    (main_select_device env args st = Returns None st' \/
     (exists selected_device,
         main_select_device env args st = Returns (Some selected_device) st') \/
     main_select_device env args st = NeverReturns st' \/
     main_select_device env args st = Undefined st' /\ ~ port_fits env args).
Proof.
  remember (main_select_device env args st) as o eqn:Ho.
  unfold main_select_device in Ho.
  destruct (size (serial_port args) =? 0) eqn:Hauto.
  - unfold bind at 1 in Ho. unfold bind at 1 in Ho.
    unfold RealSenseID_DiscoverDevices at 1 in Ho.
    unfold bind at 1 in Ho. unfold emit at 1 in Ho. unfold ret at 1 in Ho.
    destruct (populate_returns (DiscoverDevices env)
                (mkState (cin st) (clock st) (trace st ++ [EvDiscoverDevices])))
      as (infos & events & Hrun & Hq & Hlen).
    rewrite Hrun in Ho. clear Hrun.
    cbn [cin clock trace] in Ho. rewrite <- app_assoc in Ho. cbn [app] in Ho.
    assert (Hall : Forall is_query (EvDiscoverDevices :: events))
      by (constructor; [exact I | exact Hq]).
    destruct infos as [|d0 infos].
    + cbn in Ho. eapply select_outcome_intro; [exact Hall | left; exact Ho].
    + destruct (Nat.eqb_spec (List.length (d0 :: infos)) 0) as [E|_]; [discriminate|].
      destruct (Nat.eqb_spec (List.length (d0 :: infos)) 1) as [E|_].
      * cbn in Ho. eapply select_outcome_intro; [exact Hall | right; left; eauto].
      * unfold bind at 1 in Ho.
        destruct (UserDeviceSelection_cases (d0 :: infos)
                    (mkState (cin st) (clock st)
                       (trace st ++ EvDiscoverDevices :: events)))
          as [(id & rest & Hsel & Hid)|Hsel]; rewrite Hsel in Ho; clear Hsel.
        -- unfold bind, vector_at, or_throw, ret in Ho. cbn [cin clock trace] in Ho.
           destruct (Z.ltb_spec id 0); [lia|].
           destruct (nth_error (d0 :: infos) (Z.to_nat id)) as [dev|] eqn:Hnth.
           ++ eapply select_outcome_intro; [exact Hall | right; left; eauto].
           ++ apply nth_error_None in Hnth. lia.
        -- cbn [cin clock trace] in Ho.
           eapply select_outcome_intro; [exact Hall | right; right; left; exact Ho].
  - unfold bind at 1 in Ho. unfold bind at 1 in Ho.
    destruct (QueryDeviceMetadata_returns (mkSerialConfig (serial_port args)) st)
      as [metadata Hq]. rewrite Hq in Ho. clear Hq.
    unfold bind at 1 in Ho. unfold strncpy_serialPort in Ho.
    destruct (Z.ltb_spec (size (serial_port args)) (serialPort_size env)) as [Hfits|Hlong].
    + cbn in Ho. eapply select_outcome_intro;
        [apply query_events_are_queries | right; left; eauto].
    + cbn in Ho. eapply select_outcome_intro;
        [apply query_events_are_queries | right; right; right; split; [exact Ho|]].
      intros [Hnone | Hfits]; [|lia].
      rewrite Hnone in Hauto. discriminate.
Qed.


End Queries.

(** ** The checks and the update of [main] *)

Lemma erase_remove_RECOG (names : list string) :
  (let '(v, new_end) := remove_if is_RECOG names in erase_to_end v new_end) =
  without_RECOG names.
Proof.
  rewrite erase_remove_if. unfold without_RECOG. apply filter_ext.
  intros name. rewrite is_RECOG_eqb. reflexivity.
Qed.

Section Update.

Variable env : Environment.
Variable args : CommandLineArgs.
Variable selected_device : FullDeviceInfo.

Let info := ExtractFwInformation env (fw_file args).
Let serial := serial_number (metadata selected_device).
Let supported := IsEncryptionSupported env (fw_file args) serial.
Let new_compatible := IsFwCompatibleWithHost env (outFwVersion info).
Let settings := mkSettings (serialPort (config selected_device)) (force_full args).

Lemma main_update_device_path (st : State) :
  UpdatePath env args selected_device st (main_update_device env args selected_device st).
Proof.
  remember (main_update_device env args selected_device st) as o eqn:Ho.
  unfold main_update_device, FwUpdater_ExtractFwInformation,
    FwUpdater_IsEncryptionSupported, RealSenseID_IsFwCompatibleWithHost,
    FwUpdater_UpdateModules in Ho.
  fold info in Ho. fold serial in Ho. fold supported in Ho. fold new_compatible in Ho.
  fold settings in Ho.
  unfold bind at 1 in Ho. unfold bind at 1 in Ho. unfold emit at 1 in Ho.
  unfold ret at 1 in Ho.
  destruct (extracted info) eqn:Hextracted; cbn [negb] in Ho.
  2:{ eapply InvalidFile; [exact Hextracted | exact Ho | reflexivity]. }
  unfold bind at 1 in Ho. unfold bind at 1 in Ho. unfold emit at 1 in Ho.
  unfold ret at 1 in Ho. cbn [cin clock trace] in Ho.
  destruct supported eqn:Hsupported; cbn [negb] in Ho.
  all: pose proof Hsupported as Hsupported'; unfold supported, serial in Hsupported'.
  2:{ eapply EncryptionUnsupported; [exact Hextracted | exact Hsupported | exact Ho |].
      unfold encryption_event. rewrite Hsupported'.
      cbn [trace]. rewrite <- app_assoc. reflexivity. }
  unfold bind at 1 in Ho. unfold bind at 1 in Ho. unfold emit at 1 in Ho.
  unfold ret at 1 in Ho. cbn [cin clock trace] in Ho.
  unfold bind at 1 in Ho. unfold bind at 1 in Ho. unfold emit at 1 in Ho.
  unfold ret at 1 in Ho. cbn [cin clock trace] in Ho.
  rewrite <- !app_assoc in Ho. cbn [app] in Ho.
  fold (extract_event env args) in Ho.
  unfold bind at 1 in Ho.
  set (st_checked :=
         mkState (cin st) (clock st)
           (trace st ++ extract_event env args
              :: EvIsEncryptionSupported (fw_file args) serial true
              :: compatibility_events env args selected_device)) in *.
  assert (Hchecked : trace st_checked =
            (trace st ++ extract_event env args
               :: encryption_event env args selected_device
               :: compatibility_events env args selected_device)%list).
  { unfold st_checked, encryption_event. rewrite Hsupported'. reflexivity. }
  match type of Ho with
  | context [(if is_interactive args then UserApproval else ret true) ?s] =>
      change s with st_checked in Ho
  end.
  change (IsFwCompatibleWithHost env (outFwVersion info)) with new_compatible in Ho.
  (* the question of the interactive mode *)
  assert (Hask : (is_interactive args = true /\
                  (exists rest, (if is_interactive args then UserApproval else ret true)
                                  st_checked
                                = Returns false (mkState rest (clock st) (trace st_checked)) \/
                                (if is_interactive args then UserApproval else ret true)
                                  st_checked
                                = NeverReturns (mkState rest (clock st) (trace st_checked)))) \/
                 (exists rest, (if is_interactive args then UserApproval else ret true)
                                 st_checked
                               = Returns true (mkState rest (clock st) (trace st_checked)))).
  { destruct (is_interactive args).
    - destruct (UserApproval_cases st_checked) as [([|] & rest & H)|H]; rewrite H; eauto 6.
    - right. exists (cin st). reflexivity. }
  destruct Hask as [(Hinteractive & rest & [Hask|Hask])|(rest & Hask)];
    rewrite Hask in Ho; clear Hask; cbn [negb] in Ho.
  { unfold ret in Ho. eapply StoppedBeforeUpdate;
      [exact Hextracted | exact Hsupported | left; exact Ho | subst o; discriminate
      | exact Hchecked]. }
  { eapply StoppedBeforeUpdate;
      [exact Hextracted | exact Hsupported | right; exact Ho | intros _; left; exact Hinteractive
      | exact Hchecked]. }
  set (st_agreed := mkState rest (clock st) (trace st_checked)) in *.
  destruct (negb new_compatible && negb (force_version args)) eqn:Hgate.
  { unfold ret in Ho. eapply StoppedBeforeUpdate;
      [exact Hextracted | exact Hsupported | left; exact Ho | subst o; discriminate
      | exact Hchecked]. }
  assert (Hpass : new_compatible = true \/ force_version args = true).
  { destruct new_compatible; [auto|]. destruct (force_version args); [auto|].
    discriminate. }
  unfold bind at 1 in Ho.
  (* the question about the faceprints database *)
  set (compatible :=
         is_database_compatible (recognition_version (metadata selected_device))
           (outRecognitionVersion info)) in *.
  assert (Hfinish : forall update_recognition rest',
             Returns (A := Z)
               (if Status_eqb
                     (UpdateModules env settings (fw_file args)
                        (if negb update_recognition
                         then without_RECOG (moduleNames info)
                         else moduleNames info)) Ok
                then SUCCESS_MAIN else FAILURE_MAIN)
               (mkState rest' (clock st)
                  (trace st_checked ++
                   [EvUpdateModules settings (fw_file args)
                      (if negb update_recognition
                       then without_RECOG (moduleNames info)
                       else moduleNames info)
                      (UpdateModules env settings (fw_file args)
                         (if negb update_recognition
                          then without_RECOG (moduleNames info)
                          else moduleNames info))])) = o ->
             UpdatePath env args selected_device st o).
  { intros update_recognition rest' H.
    eapply (Updated env args selected_device st o _
              (if negb update_recognition
               then without_RECOG (moduleNames info) else moduleNames info));
      [exact Hextracted | exact Hsupported | exact Hpass
      | destruct update_recognition; auto
      | symmetry; exact H |].
    cbn [trace]. rewrite Hchecked, <- app_assoc. reflexivity. }
  destruct compatible; cbn [negb orb] in Ho.
  { unfold ret at 1 in Ho. unfold bind, emit, ret in Ho.
    cbn [cin clock trace negb] in Ho.
    apply (Hfinish true rest). symmetry. exact Ho. }
  destruct (auto_approve args) eqn:Hauto.
  { unfold ret at 1 in Ho. unfold bind, emit, ret in Ho.
    cbn [cin clock trace negb] in Ho.
    apply (Hfinish true rest). symmetry. exact Ho. }
  destruct (UserApproval_cases st_agreed) as [(answer & rest' & H)|H];
    rewrite H in Ho; clear H.
  - unfold bind, emit, ret in Ho. cbn [cin clock trace] in Ho.
    rewrite erase_remove_RECOG in Ho.
    apply (Hfinish answer rest'). symmetry. exact Ho.
  - eapply StoppedBeforeUpdate;
      [exact Hextracted | exact Hsupported | right; exact Ho | intros _; right; auto
      | exact Hchecked].
Qed.

End Update.

(** ** Runs of the tool *)

Local Open Scope list_scope.

Section Runs.

Variable env : Environment.

Lemma run_path (argv : list string) (input : string) : RunPath env argv input.
Proof.
  remember (run env argv input) as o eqn:Ho.
  pose proof Ho as Hrun. unfold run, main in Ho.
  set (args := ParseCommandLineArgs (Z.of_nat (List.length argv)) argv) in *.
  destruct (is_valid args) eqn:Hvalid; cbn [negb] in Ho.
  - unfold bind in Ho.
    destruct (main_select_device_cases env args (mkState input 0 []))
      as (st' & events & Htrace & Hq & [H|[[dev H]|[H|[H Hlong]]]]);
      rewrite H in Ho; cbn [trace app] in Htrace; rewrite <- Htrace in Hq.
    + apply (NoDevice env argv input st'); [exact Hvalid | exact Hq |].
      left. rewrite <- Hrun. exact Ho.
    + apply (Selected env argv input dev st'); [exact Hvalid | exact Hq | exact H | |].
      * rewrite <- Hrun. exact Ho.
      * rewrite <- Hrun, Ho. apply main_update_device_path.
    + apply (NoDevice env argv input st'); [exact Hvalid | exact Hq |].
      right. rewrite <- Hrun. exact Ho.
    + apply (PortTooLong env argv input st'); [exact Hvalid | exact Hq | exact Hlong |].
      rewrite <- Hrun. exact Ho.
  - apply Refused; [exact Hvalid | rewrite <- Hrun; exact Ho].
Qed.

(** *** Where the update is in the trace *)

Lemma queries_no_update (events : list Event) : Forall is_query events -> no_update events.
Proof.
  intros H. eapply Forall_impl; [|exact H]. intros [] Hq Hu; contradiction.
Qed.

Lemma no_update_app (l m : list Event) : no_update l -> no_update m -> no_update (l ++ m).
Proof. intros Hl Hm. apply Forall_app. auto. Qed.

Lemma no_update_middle (l before after : list Event) (e : Event) :
  no_update l -> is_update e -> l <> before ++ e :: after.
Proof.
  intros Hl He ->. apply Forall_app in Hl as [_ Hl].
  inversion Hl; subst. contradiction.
Qed.

(** A trace with a single update, at its end, splits around an update in
    one way only. *)
Lemma single_update_split (l before after : list Event) (u e : Event) :
  no_update l -> is_update e ->
  l ++ [u] = before ++ e :: after ->
  before = l /\ e = u /\ after = [].
Proof.
  revert before; induction l as [|x l IH]; intros before Hl He Heq.
  - destruct before as [|b before]; simpl in Heq.
    + injection Heq as <- <-. auto.
    + injection Heq as _ Heq. destruct before; discriminate.
  - inversion Hl as [|? ? Hx Hl']; subst.
    destruct before as [|b before]; simpl in Heq.
    + injection Heq as -> _. contradiction.
    + injection Heq as <- Heq. destruct (IH before Hl' He Heq) as (-> & -> & ->). auto.
Qed.

Lemma checks_no_update (args : CommandLineArgs) (dev : FullDeviceInfo) (events : list Event) :
  Forall is_query events ->
  no_update (events ++ extract_event env args :: encryption_event env args dev
               :: compatibility_events env args dev).
Proof.
  intros Hq. apply no_update_app; [apply queries_no_update; exact Hq|].
  repeat constructor; intros [].
Qed.

End Runs.

Local Open Scope string_scope.
Local Open Scope Z_scope.

(** ** What every run of the tool satisfies *)

Local Open Scope list_scope.


Lemma run_calls (env : Environment) (argv : list string) (input : string) :
  RunCalls env argv input.
Proof.
  destruct (run_path env argv input)
    as [Hv Hr | st' Hv Hq Hr | st' Hv Hq Hlong Hr | dev st' Hv Hq Hsel Hr Hpath].
  - apply QueriesOnly; rewrite Hr; [constructor | left; reflexivity].
  - apply QueriesOnly; destruct Hr as [-> | ->]; cbn; auto.
  - apply QueriesOnly; rewrite Hr; cbn; auto.
  - destruct Hpath as [st'' Hx Ho Ht | st'' Hx He Ho Ht | st'' Hx He Ho Hwait Ht
                      | st'' names Hx He Hpass Hnames Ho Ht].
    + apply (ChecksFailed env argv input dev (trace st') Hq). left.
      unfold calls. rewrite Ho. cbn [final_state exit_code]. auto.
    + apply (ChecksFailed env argv input dev (trace st') Hq). right. left.
      unfold calls. rewrite Ho. cbn [final_state exit_code]. auto.
    + apply (ChecksFailed env argv input dev (trace st') Hq). right. right.
      split; [exact Hx|]. split; [exact He|]. unfold calls.
      destruct Ho as [Ho | Ho].
      * rewrite Ho. cbn [final_state exit_code]. auto.
      * specialize (Hwait Ho). rewrite Ho. cbn [final_state exit_code waits_for_ever].
        split; [exact Ht|]. right. split; [exact I|]. tauto.
    + apply (UpdateCalled env argv input dev (trace st') names Hq Hx He Hpass Hnames).
      * unfold calls. rewrite Ho. cbn [final_state]. rewrite Ht, <- app_assoc. reflexivity.
      * rewrite Ho. reflexivity.
Qed.


Lemma query_not_check (queries : list Event) (e : Event) :
  Forall is_query queries -> In e queries -> ~ is_query e -> False.
Proof. intros Hq Hin Hn. rewrite Forall_forall in Hq. auto. Qed.


Local Open Scope string_scope.
Local Open Scope Z_scope.

Local Open Scope list_scope.





Local Open Scope string_scope.
Local Open Scope Z_scope.

Local Open Scope list_scope.

(** *** Two paths through the second half of [main] *)

Section Paths.

Variable env : Environment.
Variable args : CommandLineArgs.
Variable dev : FullDeviceInfo.
Variable st : State.

Hypothesis Hextracted : extracted (ExtractFwInformation env (fw_file args)) = true.
Hypothesis Hsupported :
  IsEncryptionSupported env (fw_file args) (serial_number (metadata dev)) = true.
Hypothesis Hinteractive : is_interactive args = true.


(** The user answers y to "Proceed with update?" and n to "Clear
    faceprints database and update the recognition module?". *)
Lemma main_update_device_kept_database (rest rest' : string) :
  auto_approve args = false ->
  IsFwCompatibleWithHost env (outFwVersion (ExtractFwInformation env (fw_file args)))
    = true \/ force_version args = true ->
  is_database_compatible (recognition_version (metadata dev))
    (outRecognitionVersion (ExtractFwInformation env (fw_file args))) = false ->
  UserApproval_loop "0" (cin st) = Some ("y"%char, rest) ->
  UserApproval_loop "0" rest = Some ("n"%char, rest') ->
  main_update_device env args dev st =
  Returns
    (update_code env args dev
       (without_RECOG (moduleNames (ExtractFwInformation env (fw_file args)))))
    (mkState rest' (clock st)
       ((trace st ++ extract_event env args :: encryption_event env args dev
           :: compatibility_events env args dev)
        ++ [update_event env args dev
              (without_RECOG (moduleNames (ExtractFwInformation env (fw_file args))))])).
Proof.
  intros Hauto Hpass Hdb Hfirst Hsecond.
  assert (Hgate : negb (IsFwCompatibleWithHost env
                          (outFwVersion (ExtractFwInformation env (fw_file args))))
                  && negb (force_version args) = false).
  { destruct Hpass as [-> | ->]; [reflexivity | apply andb_false_r]. }
  unfold main_update_device, FwUpdater_ExtractFwInformation,
    FwUpdater_IsEncryptionSupported, RealSenseID_IsFwCompatibleWithHost,
    FwUpdater_UpdateModules, UserApproval, bind, emit, ret.
  cbn [cin clock trace]. rewrite Hextracted. cbn [negb].
  rewrite Hsupported. cbn [negb]. rewrite Hinteractive.
  cbn [cin clock trace]. rewrite Hfirst.
  cbn [Ascii.eqb Bool.eqb negb cin clock trace]. rewrite Hgate, Hdb, Hauto.
  cbn [negb orb cin clock trace]. rewrite Hsecond.
  cbn [Ascii.eqb Bool.eqb negb cin clock trace]. rewrite erase_remove_RECOG.
  unfold encryption_event, extract_event, compatibility_events, update_event,
    update_code.
  rewrite Hsupported, <- !app_assoc. reflexivity.
Qed.

End Paths.

(** The loop does not touch the validity flag. *)
Lemma ParseCommandLineArgs_loop_is_valid (argc : Z) (argv : list string) (n : nat) :
  forall (i : Z) (args : CommandLineArgs),
    n = Z.to_nat (argc - i) ->
    is_valid (ParseCommandLineArgs_loop argc argv i args) = is_valid args.
Proof.
  induction n as [n IH] using lt_wf_ind. intros i a Hn.
  rewrite ParseCommandLineArgs_loop_step.
  destruct (Z.ltb_spec i argc); [|reflexivity].
  pose proof (ParseCommandLineArgs_body_advances argc argv i a) as Hadv.
  assert (Hbody : is_valid (snd (ParseCommandLineArgs_body argc argv i a)) = is_valid a).
  { unfold ParseCommandLineArgs_body.
    repeat match goal with |- context [if ?b then _ else _] => destruct b end;
      reflexivity. }
  destruct (ParseCommandLineArgs_body argc argv i a) as [i' a']. cbn [fst snd] in *.
  rewrite <- Hbody. apply (IH (Z.to_nat (argc - (i' + 1)))); [lia | reflexivity].
Qed.

(** A valid command line does not have both --interactive and
    --auto-approve. *)
Lemma ParseCommandLineArgs_exclusive (argc : Z) (argv : list string) :
  is_valid (ParseCommandLineArgs argc argv) = true ->
  is_interactive (ParseCommandLineArgs argc argv) &&
  auto_approve (ParseCommandLineArgs argc argv) = false.
Proof.
  unfold ParseCommandLineArgs.
  destruct (argc <? 2); [discriminate|].
  pose proof (ParseCommandLineArgs_loop_is_valid argc argv _ 1 CommandLineArgs_default
                eq_refl) as Hloop.
  set (args := ParseCommandLineArgs_loop argc argv 1 CommandLineArgs_default) in *.
  cbn in Hloop.
  destruct (size (fw_file args) =? 0); [congruence|].
  destruct (is_interactive args && auto_approve args) eqn:E; [congruence|].
  intros _. exact E.
Qed.

Local Open Scope string_scope.
Local Open Scope Z_scope.

Local Open Scope list_scope.

(** A run on a refused command line. *)
Lemma run_refused (env : Environment) (argv : list string) (input : string) :
  is_valid (ParseCommandLineArgs (Z.of_nat (List.length argv)) argv) = false ->
  run env argv input = Returns FAILURE_MAIN (mkState input 0 []).
Proof. intros H. unfold run, main. rewrite H. reflexivity. Qed.

(** A run on an accepted command line that selects a device. *)
Lemma run_selected (env : Environment) (argv : list string) (input : string)
    (dev : FullDeviceInfo) (st' : State) :
  is_valid (ParseCommandLineArgs (Z.of_nat (List.length argv)) argv) = true ->
  main_select_device env (ParseCommandLineArgs (Z.of_nat (List.length argv)) argv)
    (mkState input 0 []) = Returns (Some dev) st' ->
  run env argv input =
  main_update_device env (ParseCommandLineArgs (Z.of_nat (List.length argv)) argv) dev st'.
Proof.
  intros Hv Hs. unfold run, main. rewrite Hv. cbn [negb]. unfold bind.
  rewrite Hs. reflexivity.
Qed.

(** The only update of a run, when there is one. *)
Lemma update_in_calls (env : Environment) (args : CommandLineArgs) (dev : FullDeviceInfo)
    (queries : list Event) (names : list string) (e : Event) :
  Forall is_query queries -> is_update e ->
  In e ((queries ++ extract_event env args :: encryption_event env args dev
           :: compatibility_events env args dev) ++ [update_event env args dev names]) ->
  e = update_event env args dev names.
Proof.
  intros Hq He Hin. apply in_app_or in Hin as [Hin|[<-|[]]]; [exfalso | reflexivity].
  pose proof (checks_no_update env args dev queries Hq) as Hno.
  unfold no_update in Hno. rewrite Forall_forall in Hno. exact (Hno e Hin He).
Qed.


Local Open Scope string_scope.
Local Open Scope Z_scope.

Local Open Scope list_scope.





(** *** The module list without RECOG *)

Lemma without_RECOG_spec (names : list string) :
  ~ In RECOG (without_RECOG names) /\
  Subsequence (without_RECOG names) names /\
  (forall name, name <> RECOG ->
     count_occ string_dec (without_RECOG names) name = count_occ string_dec names name).
Proof.
  unfold without_RECOG. split; [|split].
  - intros H. apply filter_In in H as [_ H]. rewrite String.eqb_refl in H. discriminate.
  - apply Subsequence_filter.
  - intros name Hname. induction names as [|x names IH]; [reflexivity|].
    cbn [filter]. destruct (String.eqb_spec x RECOG) as [->|Hx]; cbn [negb].
    + rewrite count_occ_cons_neq by congruence. exact IH.
    + cbn [count_occ]. destruct (string_dec x name); congruence.
Qed.

Lemma is_database_compatible_false_iff (a b : string) :
  is_database_compatible a b = false <-> a <> b.
Proof.
  unfold is_database_compatible. rewrite <- equal_true_iff.
  destruct (equal a b); split; congruence.
Qed.

(** Claim C6.  On a valid command line with --interactive, when the
    recognition version of the selected device differs from the one of the
    image, the checks pass, and the user answers y to the confirmation of
    the update and n to the clearing of the faceprints database:
    [UpdateModules] is called once, at the end of the run, with the module
    names of the image from which every entry equal to "RECOG" is removed,
    the other names being kept as often and in the order in which
    [ExtractFwInformation] gave them. *)
Theorem declined_database_clearing_excludes_RECOG
    (env : Environment) (argv : list string) (input : string)
    (dev : FullDeviceInfo) (st' : State) (rest rest' : string) :
  let args := ParseCommandLineArgs (Z.of_nat (List.length argv)) argv in
  let info := ExtractFwInformation env (fw_file args) in
  let settings := mkSettings (serialPort (config dev)) (force_full args) in
  let names := without_RECOG (moduleNames info) in
  is_valid args = true ->
  is_interactive args = true ->
  main_select_device env args (mkState input 0 []) = Returns (Some dev) st' ->
  extracted info = true ->
  IsEncryptionSupported env (fw_file args) (serial_number (metadata dev)) = true ->
  IsFwCompatibleWithHost env (outFwVersion info) = true \/ force_version args = true ->
  recognition_version (metadata dev) <> outRecognitionVersion info ->
  UserApproval_loop "0" (cin st') = Some ("y"%char, rest) ->
  UserApproval_loop "0" rest = Some ("n"%char, rest') ->
  (exists before,
      calls (run env argv input) =
        before ++ [EvUpdateModules settings (fw_file args) names
                     (UpdateModules env settings (fw_file args) names)] /\
      no_update before) /\
  ~ In RECOG names /\
  Subsequence names (moduleNames info) /\
  (forall name, name <> RECOG ->
     count_occ string_dec names name = count_occ string_dec (moduleNames info) name).
Proof.
  intros args info settings names Hvalid Hinteractive Hselect Hx He Hpass Hdiffer
    Hfirst Hsecond.
  split; [|exact (without_RECOG_spec (moduleNames info))].
  assert (Hauto : auto_approve args = false).
  { pose proof (ParseCommandLineArgs_exclusive _ _ Hvalid) as H. fold args in H.
    rewrite Hinteractive in H. exact H. }
  apply is_database_compatible_false_iff in Hdiffer.
  rewrite (run_selected env argv input dev st' Hvalid Hselect). fold args.
  rewrite (main_update_device_kept_database env args dev st' Hx He Hinteractive
             rest rest' Hauto Hpass Hdiffer Hfirst Hsecond).
  eexists. split; [reflexivity|].
  destruct (main_select_device_cases env args (mkState input 0 []))
    as (st1 & events & Htrace & Hq & Hcases).
  rewrite Hselect in Hcases.
  destruct Hcases as [H|[[d H]|[H|[H _]]]]; try discriminate.
  injection H as _ <-. cbn [trace app] in Htrace. rewrite <- Htrace in Hq.
  apply checks_no_update. exact Hq.
Qed.

Lemma declined_database_clearing_excludes_RECOG_witness :
  exists before,
    calls (run sample_environment interactive_command
             ("1" ++ newline ++ "y n")) =
    before ++ [EvUpdateModules (mkSettings "COM1" false) "fw.bin" ["OPFW"; "NNLED"] Ok].
Proof.
  destruct (declined_database_clearing_excludes_RECOG sample_environment
              interactive_command
              ("1" ++ newline ++ "y n")
              (mkFullDeviceInfo (mkDeviceMetadata "SN-COM1" "3.1.0" "2.0")
                 (mkDeviceInfo "COM1"))
              (mkState "y n" 0
                 (EvDiscoverDevices :: query_events "COM1" ++ query_events "COM2"))
              " n" "")
    as [[before [Hcalls _]] _].
  - vm_compute; reflexivity.
  - vm_compute; reflexivity.
  - vm_compute; reflexivity.
  - vm_compute; reflexivity.
  - vm_compute; reflexivity.
  - left. vm_compute; reflexivity.
  - vm_compute. discriminate.
  - vm_compute; reflexivity.
  - vm_compute; reflexivity.
  - exists before. exact Hcalls.
Defined.

(** Claim C7.  In every run of the updater, the module names given to
    [UpdateModules] are a subsequence, hence a subset, of the module names
    that [ExtractFwInformation] returned for the same file, a call that is
    part of the run. *)
Theorem update_plan_is_subsequence (env : Environment) (argv : list string)
    (input : string) (settings : Settings) (path : string) (names : list string)
    (status : Status) :
  In (EvUpdateModules settings path names status) (calls (run env argv input)) ->
  In (EvExtractFwInformation path (ExtractFwInformation env path))
    (calls (run env argv input)) /\
  Subsequence names (moduleNames (ExtractFwInformation env path)) /\
  incl names (moduleNames (ExtractFwInformation env path)).
Proof.
  intros Hin.
  destruct (run_calls env argv input)
    as [Hq Hexit | args' dev queries Hq Hfail
       | args' dev queries names' Hq Hx He Hpass Hnames Hcalls Hexit];
    try (subst args';
         set (args := ParseCommandLineArgs (Z.of_nat (List.length argv)) argv) in * ).
  - exfalso. eapply query_not_check; [exact Hq | exact Hin | intros []].
  - exfalso.
    pose proof (checks_no_update env args dev queries Hq) as Hno.
    unfold no_update in Hno. rewrite Forall_forall in Hno.
    destruct Hfail as [(_ & Hc & _)|[(_ & _ & Hc & _)|(_ & _ & Hc & _)]];
      rewrite Hc in Hin; apply in_app_or in Hin as [Hin|Hin];
      try (eapply query_not_check; [exact Hq | exact Hin | intros []]);
      unfold extract_event, encryption_event, compatibility_events in Hin;
      cbn [In] in Hin;
      repeat (destruct Hin as [Hin|Hin]; [discriminate|]); contradiction.
  - rewrite Hcalls in Hin.
    apply (update_in_calls env args dev queries names'
             (EvUpdateModules settings path names status) Hq I) in Hin.
    unfold update_event in Hin. injection Hin as _ -> -> _.
    assert (Hsub : Subsequence names'
                     (moduleNames (ExtractFwInformation env (fw_file args)))).
    { destruct Hnames as [-> | ->];
        [apply Subsequence_refl | apply Subsequence_filter]. }
    split; [|split; [exact Hsub | apply Subsequence_incl; exact Hsub]].
    rewrite Hcalls. apply in_or_app. left. apply in_or_app. right. left. reflexivity.
Qed.

Lemma update_plan_is_subsequence_witness :
  Subsequence ["OPFW"; "NNLED"] ["OPFW"; "NNLED"; "RECOG"].
Proof.
  assert (Hin : In (EvUpdateModules (mkSettings "COM1" false) "fw.bin" ["OPFW"; "NNLED"] Ok)
                  (calls (run sample_environment
                            interactive_command
                            ("1" ++ newline ++ "y n"))))
    by (vm_compute; tauto).
  exact (proj1 (proj2 (update_plan_is_subsequence sample_environment
                         interactive_command
                         ("1" ++ newline ++ "y n")
                         (mkSettings "COM1" false) "fw.bin" ["OPFW"; "NNLED"] Ok Hin))).
Defined.

(** Claim C8, as amended.  [ParseCommandLineArgs] reads the arguments from
    left to right, the argument after --file or --port being the value of
    that option and not an option itself; it marks the arguments valid
    exactly when at least one argument is given, the value of the last
    --file that has one is not empty, and --interactive and --auto-approve
    were not both read as options.  On an invalid result [main] returns the
    failure code at once: no call is made and nothing is read. *)
Theorem ParseCommandLineArgs_valid_iff (argv : list string) :
  (is_valid (ParseCommandLineArgs (Z.of_nat (List.length argv)) argv) = true <->
   valid_command_line argv) /\
  (forall env input,
      is_valid (ParseCommandLineArgs (Z.of_nat (List.length argv)) argv) = false ->
      run env argv input = Returns FAILURE_MAIN (mkState input 0 [])).
Proof.
  split.
  { (* the three conditions, on the options that the loop has applied *)
    unfold ParseCommandLineArgs, valid_command_line.
    destruct (Z.ltb_spec (Z.of_nat (List.length argv)) 2) as [Hlt|Hge].
    - simpl. split; [discriminate | lia].
    - assert (Hlen : (2 <= List.length argv)%nat) by lia.
      rewrite (ParseCommandLineArgs_options argv Hlen).
      destruct (fold_apply_option_fields (read_options (tl argv)) CommandLineArgs_default)
        as (Hv & Hf & Hi & Ha).
      cbv zeta in Hv, Hf, Hi, Ha. simpl in Hf, Hi, Ha, Hv.
      fold (file_value (read_options (tl argv))) in Hf.
      set (args := fold_left apply_option (read_options (tl argv)) CommandLineArgs_default) in *.
      destruct (size (fw_file args) =? 0) eqn:Hsize.
      + apply size_zero_iff in Hsize. rewrite Hv. split; [discriminate|].
        intros (_ & Hfile & _). congruence.
      + assert (Hfile : file_value (read_options (tl argv)) <> "").
        { rewrite <- Hf. intros E. apply size_zero_iff in E. congruence. }
        destruct (is_interactive args && auto_approve args) eqn:Hboth.
        * rewrite Hv. split; [discriminate|]. intros (_ & _ & Hnot).
          apply andb_true_iff in Hboth as [Hint Hauto]. exfalso. apply Hnot.
          apply Hi in Hint. apply Ha in Hauto.
          destruct Hint; [discriminate|]. destruct Hauto; [discriminate|]. auto.
        * simpl. split; [|reflexivity]. intros _. repeat split; [exact Hlen | exact Hfile |].
          intros [Hint Hauto].
          assert (is_interactive args = true) by (apply Hi; auto).
          assert (auto_approve args = true) by (apply Ha; auto).
          rewrite andb_false_iff in Hboth. destruct Hboth; congruence. }
  intros env input H. unfold run, main. rewrite H. reflexivity.
Qed.

Lemma ParseCommandLineArgs_valid_iff_witness :
  run sample_environment ["rsid-fw-update"; "--file"; "fw.bin"; "--interactive"; "--auto-approve"]
    "y" = Returns FAILURE_MAIN (mkState "y" 0 []).
Proof.
  apply (proj2 (ParseCommandLineArgs_valid_iff
                  ["rsid-fw-update"; "--file"; "fw.bin"; "--interactive"; "--auto-approve"])).
  vm_compute; reflexivity.
Defined.

(** Claim C8, as stated, fails in both directions: a --file that is the
    value of --port is not an option, and an --interactive that is the value
    of --port is not one either. *)
Lemma stated_validity_counterexample :
  stated_valid_command_line ["rsid-fw-update"; "--port"; "--file"; "fw.bin"] /\
  is_valid (ParseCommandLineArgs 4 ["rsid-fw-update"; "--port"; "--file"; "fw.bin"]) = false /\
  ~ stated_valid_command_line
      ["rsid-fw-update"; "--file"; "fw.bin"; "--port"; "--interactive"; "--auto-approve"] /\
  is_valid (ParseCommandLineArgs 6
              ["rsid-fw-update"; "--file"; "fw.bin"; "--port"; "--interactive";
               "--auto-approve"]) = true.
Proof.
  split; [|split; [vm_compute; reflexivity|split; [|vm_compute; reflexivity]]].
  - split; [simpl; lia|]. split.
    + exists ["--port"], "fw.bin", []. split; [reflexivity | discriminate].
    + intros [H _]. simpl in H. repeat (destruct H as [H|H]; [discriminate|]). exact H.
  - intros (_ & _ & H). apply H. simpl. split.
    + right. right. right. left. reflexivity.
    + right. right. right. right. left. reflexivity.
Qed.

(** Claim C4.  The database is compatible exactly when the two recognition
    versions are the same string, that is, have the same length and the
    same byte at every position; any difference makes it incompatible. *)
Theorem database_compatibility_is_equality (current_version new_version : string) :
  (is_database_compatible current_version new_version = true <->
   current_version = new_version) /\
  (is_database_compatible current_version new_version = false <->
   current_version <> new_version) /\
  (is_database_compatible current_version new_version = true <->
   String.length current_version = String.length new_version /\
   forall i, String.get i current_version = String.get i new_version).
Proof.
  split; [apply equal_true_iff|]. split; [apply is_database_compatible_false_iff|].
  unfold is_database_compatible. rewrite equal_true_iff. split.
  - intros ->. auto.
  - intros [_ H]. apply get_correct. exact H.
Qed.

Local Open Scope string_scope.
Local Open Scope Z_scope.

(** ** Waiting for the device *)

Section Waiting.

Variable env : Environment.
Variable device_port : string.

(** One turn of the [while] loop. *)
Lemma WaitForDevice_loop_step (max_wait_seconds : Z) (isDeviceAlive : bool)
    (waitCounter : Z) :
  WaitForDevice_loop env max_wait_seconds device_port isDeviceAlive waitCounter =
  if negb isDeviceAlive && (waitCounter <? max_wait_seconds) then
    sleep_for_seconds 1 ;;
    alive <- IsDeviceAlive env (mkSerialConfig device_port) ;;
    WaitForDevice_loop env max_wait_seconds device_port alive (waitCounter + 1)
  else ret isDeviceAlive.
Proof.
  rewrite WaitForDevice_loop_equation_1.
  unfold WaitForDevice_loop_unfold_clause_1.
  destruct (Z_lt_dec waitCounter max_wait_seconds) as [Hlt|Hge].
  - rewrite (proj2 (Z.ltb_lt _ _) Hlt). destruct isDeviceAlive; reflexivity.
  - rewrite (proj2 (Z.ltb_nlt _ _) Hge). destruct isDeviceAlive; reflexivity.
Qed.

(** A ping takes no time on the clock of the model. *)
Lemma IsDeviceAlive_returns (st : State) :
  IsDeviceAlive env (mkSerialConfig device_port) st =
  Returns (Status_eqb (Ping env device_port (clock st)) Ok)
    (mkState (cin st) (clock st)
       (trace st ++ [EvConnect device_port; EvPing device_port (Ping env device_port (clock st));
                     EvDisconnect device_port])).
Proof.
  unfold IsDeviceAlive, DeviceController_Connect, DeviceController_Ping,
    DeviceController_Disconnect, bind, emit, ret.
  cbn [cin clock trace port]. rewrite <- !app_assoc. reflexivity.
Qed.

Lemma Status_eqb_Ok (status : Status) : Status_eqb status Ok = true <-> status = Ok.
Proof. destruct status; cbn; split; congruence. Qed.

(** The loop, entered with a device that is not known to be alive: it
    ends; the pings are sent one second apart; it ends with true at the
    first ping that is answered, and with false when [max_wait_seconds]
    is reached without an answer. *)
Lemma WaitForDevice_loop_spec (max_wait_seconds : Z) (n : nat) :
  forall (waitCounter : Z) (st : State),
    n = Z.to_nat (max_wait_seconds - waitCounter) ->
    exists alive st',
      WaitForDevice_loop env max_wait_seconds device_port false waitCounter st =
        Returns alive st' /\
      clock st <= clock st' <= clock st + Z.max 0 (max_wait_seconds - waitCounter) /\
      (forall t, clock st < t < clock st' -> Ping env device_port t <> Ok) /\
      (alive = true -> clock st < clock st' /\ Ping env device_port (clock st') = Ok) /\
      (alive = false ->
       clock st' = clock st + Z.max 0 (max_wait_seconds - waitCounter) /\
       forall t, clock st < t <= clock st' -> Ping env device_port t <> Ok).
Proof.
  induction n as [n IH] using lt_wf_ind. intros waitCounter st Hn.
  rewrite WaitForDevice_loop_step. cbn [negb andb].
  destruct (Z.ltb_spec waitCounter max_wait_seconds) as [Hlt|Hge].
  - unfold bind at 1. unfold sleep_for_seconds at 1. unfold bind at 1.
    rewrite IsDeviceAlive_returns. cbn [cin clock trace].
    change (Z.max 0 1) with 1.
    destruct (Status_eqb (Ping env device_port (clock st + 1)) Ok) eqn:Hping.
    + rewrite WaitForDevice_loop_step. cbn [negb andb]. unfold ret.
      apply Status_eqb_Ok in Hping.
      eexists true, _. split; [reflexivity|]. cbn [clock].
      split; [lia|]. split; [intros t Ht; lia|]. split; [|discriminate].
      intros _. split; [lia | exact Hping].
    + assert (Hfail : Ping env device_port (clock st + 1) <> Ok).
      { intros E. apply Status_eqb_Ok in E. congruence. }
      destruct (IH (Z.to_nat (max_wait_seconds - (waitCounter + 1))) ltac:(lia)
                  (waitCounter + 1)
                  (mkState (cin st) (clock st + 1)
                     (trace st ++ [EvConnect device_port;
                                   EvPing device_port (Ping env device_port (clock st + 1));
                                   EvDisconnect device_port]))%list
                  eq_refl)
        as (alive & st' & Hrun & Hclock & Hbefore & Htrue & Hfalse).
      cbn [clock] in *.
      exists alive, st'. split; [exact Hrun|]. split; [lia|]. split; [|split].
      * intros t Ht. destruct (Z.eq_dec t (clock st + 1)) as [->|Hne];
          [exact Hfail | apply Hbefore; lia].
      * intros Halive. destruct (Htrue Halive) as [H1 H2]. split; [lia | exact H2].
      * intros Halive. destruct (Hfalse Halive) as [H1 H2]. split; [lia|].
        intros t Ht. destruct (Z.eq_dec t (clock st + 1)) as [->|Hne];
          [exact Hfail | apply H2; lia].
  - unfold ret. exists false, st. split; [reflexivity|]. split; [lia|].
    split; [intros t Ht; lia|]. split; [discriminate|].
    intros _. split; [lia | intros t Ht; lia].
Qed.

Lemma WaitForDevice_spec (min_wait_seconds max_wait_seconds : Z) (st : State) :
  0 <= min_wait_seconds <= max_wait_seconds ->
  exists alive st',
    WaitForDevice env min_wait_seconds max_wait_seconds device_port st = Returns alive st' /\
    clock st + min_wait_seconds <= clock st' <= clock st + max_wait_seconds /\
    (forall t, clock st + min_wait_seconds < t < clock st' -> Ping env device_port t <> Ok) /\
    (alive = true ->
     clock st + min_wait_seconds < clock st' /\ Ping env device_port (clock st') = Ok) /\
    (alive = false ->
     clock st' = clock st + max_wait_seconds /\
     forall t, clock st + min_wait_seconds < t <= clock st' -> Ping env device_port t <> Ok).
Proof.
  intros Hbounds. unfold WaitForDevice. unfold bind at 1. unfold sleep_for_seconds at 1.
  destruct (WaitForDevice_loop_spec max_wait_seconds _ min_wait_seconds
              (mkState (cin st) (clock st + Z.max 0 min_wait_seconds) (trace st)) eq_refl)
    as (alive & st' & Hrun & Hclock & Hbefore & Htrue & Hfalse).
  cbn [clock] in *.
  replace (Z.max 0 min_wait_seconds) with min_wait_seconds in * by lia.
  replace (Z.max 0 (max_wait_seconds - min_wait_seconds))
    with (max_wait_seconds - min_wait_seconds) in * by lia.
  exists alive, st'. split; [exact Hrun|]. split; [lia|]. split; [exact Hbefore|].
  split; [exact Htrue|]. intros Halive. destruct (Hfalse Halive) as [H1 H2].
  split; [lia | exact H2].
Qed.

End Waiting.

(** Claim C2.  With the bounds 6 and 30 and whatever the device answers to
    the pings, [WaitForDevice] returns, between the seconds 6 and 30 after
    it was called; it returns true only after second 6 has elapsed, at a
    second at which the device answers; if the device answers from second
    10 on and not before, it returns true at second 10; and if the device
    answers no ping up to second 30, it returns false at second 30. *)
Theorem WaitForDevice_bounds (env : Environment) (port : string) (st : State) :
  let start := clock st in
  let o := WaitForDevice env MIN_WAIT_FOR_DEVICE MAX_WAIT_FOR_DEVICE port st in
  (exists alive st',
      o = Returns alive st' /\ start + 6 <= clock st' <= start + 30) /\
  (forall st',
      o = Returns true st' ->
      start + 6 < clock st' /\ Ping env port (clock st') = Ok) /\
  ((forall t, start <= t < start + 10 -> Ping env port t <> Ok) ->
   Ping env port (start + 10) = Ok ->
   exists st', o = Returns true st' /\ clock st' = start + 10) /\
  ((forall t, start < t <= start + 30 -> Ping env port t <> Ok) ->
   exists st', o = Returns false st' /\ clock st' = start + 30).
Proof.
  intros start o.
  destruct (WaitForDevice_spec env port MIN_WAIT_FOR_DEVICE MAX_WAIT_FOR_DEVICE st)
    as (alive & st' & Hrun & Hclock & Hbefore & Htrue & Hfalse);
    [unfold MIN_WAIT_FOR_DEVICE, MAX_WAIT_FOR_DEVICE; lia|].
  unfold MIN_WAIT_FOR_DEVICE, MAX_WAIT_FOR_DEVICE in Hclock, Hbefore, Htrue, Hfalse.
  fold start in Hclock, Hbefore, Htrue, Hfalse. fold o in Hrun.
  split; [|split; [|split]].
  - exists alive, st'. auto.
  - intros st'' Ho. rewrite Hrun in Ho. injection Ho as -> <-. auto.
  - intros Hsilent Hanswer. destruct alive.
    + exists st'. split; [exact Hrun|]. destruct (Htrue eq_refl) as [Hafter Hok].
      destruct (Z.lt_trichotomy (clock st') (start + 10)) as [Hlt|[Heq|Hgt]].
      * exfalso. apply (Hsilent (clock st')); [lia | exact Hok].
      * exact Heq.
      * exfalso. apply (Hbefore (start + 10)); [lia | exact Hanswer].
    + exfalso. destruct (Hfalse eq_refl) as [Hend Hnone].
      apply (Hnone (start + 10)); [lia | exact Hanswer].
  - intros Hsilent. destruct alive.
    + exfalso. destruct (Htrue eq_refl) as [Hafter Hok].
      apply (Hsilent (clock st')); [lia | exact Hok].
    + exists st'. split; [exact Hrun|]. exact (proj1 (Hfalse eq_refl)).
Qed.

Lemma WaitForDevice_bounds_witness :
  exists st',
    WaitForDevice sample_environment MIN_WAIT_FOR_DEVICE MAX_WAIT_FOR_DEVICE "COM1"
      (mkState "" 0 []) = Returns true st' /\
    clock st' = 10.
Proof.
  apply (proj1 (proj2 (proj2 (WaitForDevice_bounds sample_environment "COM1"
                                (mkState "" 0 []))))).
  - intros t Ht. cbn in *. destruct (Z.leb_spec 10 t); [lia | discriminate].
  - reflexivity.
Defined.

(** ** The compatibility check of the host *)

(** The model on the version strings of the examples. *)
Example IsFwCompatibleWithHost_examples :
  let host := Version.mkHostRange (3, 0, 0) (3, 2, 9) in
  Version.IsFwCompatibleWithHost host "3.1.0" = true /\
  Version.IsFwCompatibleWithHost host "3.3.0" = false /\
  Version.IsFwCompatibleWithHost host "2.9.9" = false /\
  Version.IsFwCompatibleWithHost host "Unknown" = false /\
  Version.IsFwCompatibleWithHost host "3.1" = false.
Proof. repeat split. Qed.

(** Claim C9.  Whatever the range of the host, the version string, the
    number of calls and the state in which they are made, calling
    [IsFwCompatibleWithHost] again and again with the same string yields the
    same boolean every time, the one that the function has for this string,
    and leaves the state as it was: nothing is read, no time passes and no
    call leaves the tool. *)
Theorem IsFwCompatibleWithHost_pure (host : Version.HostRange) (versionString : string)
    (n : nat) (st : State) :
  repeat_IsFwCompatibleWithHost host versionString n st =
  Returns (repeat (Version.IsFwCompatibleWithHost host versionString) n) st.
Proof.
  induction n as [|n IH]; [reflexivity|].
  cbn [repeat_IsFwCompatibleWithHost repeat].
  unfold bind, call_IsFwCompatibleWithHost, ret in *. rewrite IH. reflexivity.
Qed.

(* ===================================================================== *)
(** * Part III: further properties of the code *)
(* ===================================================================== *)

(** ** The second half of [main], question by question *)

Local Open Scope list_scope.

(** Reduces the states and puts the traces in one shape. *)
Ltac trace_norm := cbn [cin clock trace negb]; rewrite <- ?app_assoc; cbn [app].

Lemma main_update_device_outcome (env : Environment) (args : CommandLineArgs)
    (dev : FullDeviceInfo) (st : State) :
  main_update_device env args dev st = update_outcome env args dev st.
Proof.
  unfold main_update_device, update_outcome, answer,
    FwUpdater_ExtractFwInformation, FwUpdater_IsEncryptionSupported,
    RealSenseID_IsFwCompatibleWithHost, FwUpdater_UpdateModules, UserApproval,
    extract_event, encryption_event, compatibility_events, update_event, update_code,
    bind, emit, ret.
  cbn [cin clock trace].
  destruct (extracted (ExtractFwInformation env (fw_file args))); cbn [negb];
    [|reflexivity].
  destruct (IsEncryptionSupported env (fw_file args) (serial_number (metadata dev)));
    trace_norm; [|reflexivity].
  destruct (is_interactive args); trace_norm.
  - destruct (UserApproval_loop "0" (cin st)) as [[proceed rest]|]; [|reflexivity].
    trace_norm.
    destruct (Ascii.eqb proceed "y"); cbn [negb]; [|reflexivity].
    destruct (negb (IsFwCompatibleWithHost env
                      (outFwVersion (ExtractFwInformation env (fw_file args))))
              && negb (force_version args)); [reflexivity|].
    destruct (is_database_compatible (recognition_version (metadata dev))
                (outRecognitionVersion (ExtractFwInformation env (fw_file args))));
      cbn [negb orb andb]; trace_norm; [reflexivity|].
    destruct (auto_approve args); cbn [negb]; trace_norm; [reflexivity|].
    destruct (UserApproval_loop "0" rest) as [[clear rest']|]; [|reflexivity].
    trace_norm. rewrite erase_remove_RECOG.
    destruct (Ascii.eqb clear "y"); trace_norm; reflexivity.
  - cbn [negb Ascii.eqb Bool.eqb].
    destruct (negb (IsFwCompatibleWithHost env
                      (outFwVersion (ExtractFwInformation env (fw_file args))))
              && negb (force_version args)); [reflexivity|].
    destruct (is_database_compatible (recognition_version (metadata dev))
                (outRecognitionVersion (ExtractFwInformation env (fw_file args))));
      cbn [negb orb andb]; trace_norm; [reflexivity|].
    destruct (auto_approve args); cbn [negb]; trace_norm; [reflexivity|].
    destruct (UserApproval_loop "0" (cin st)) as [[clear rest']|]; [|reflexivity].
    trace_norm. rewrite erase_remove_RECOG.
    destruct (Ascii.eqb clear "y"); trace_norm; reflexivity.
Qed.

Local Open Scope string_scope.
Local Open Scope Z_scope.

(** ** Version strings: what [ExtractModuleFromVersion] can return *)

Lemma Substring_trans (a b c : string) :
  Substring a b -> Substring b c -> Substring a c.
Proof.
  intros (p & q & ->) (p' & q' & ->). exists (p' ++ p), (q ++ q').
  rewrite !append_assoc. reflexivity.
Qed.

Lemma substring_prefix (s : string) :
  forall m, exists post, s = substring 0 m s ++ post.
Proof.
  induction s as [|c s IH]; intros m.
  - exists "". destruct m; reflexivity.
  - destruct m as [|m]; simpl.
    + exists (String c s). reflexivity.
    + destruct (IH m) as [post E]. exists post. simpl. rewrite <- E. reflexivity.
Qed.

Lemma substring_Substring (s : string) :
  forall n m, Substring (substring n m s) s.
Proof.
  induction s as [|c s IH]; intros n m.
  - exists "", "". destruct n, m; reflexivity.
  - destruct n as [|n].
    + destruct (substring_prefix (String c s) m) as [post E].
      exists "", post. exact E.
    + destruct (IH n m) as (pre & post & E). exists (String c pre), post.
      simpl. rewrite <- E. reflexivity.
Qed.

Lemma char_free_Substring (c : ascii) (a s : string) :
  Substring a s -> char_free c s = true -> char_free c a = true.
Proof.
  intros (pre & post & ->). rewrite !char_free_append.
  intros H. apply andb_true_iff in H as [_ H]. apply andb_true_iff in H as [H _].
  exact H.
Qed.

(** What [std::getline] extracts holds no delimiter, and the input is
    what was extracted, the delimiter if one was met, and what is left. *)
Lemma getline_scan_parts (s : string) (delim : ascii) :
  char_free delim (fst (getline_scan s delim)) = true /\
  (s = fst (getline_scan s delim) ++ snd (getline_scan s delim) \/
   s = fst (getline_scan s delim) ++ String delim (snd (getline_scan s delim))).
Proof.
  induction s as [|c s [IHfree IHparts]]; simpl.
  - split; [reflexivity | left; reflexivity].
  - destruct (Ascii.eqb c delim) eqn:E; simpl.
    + apply Ascii.eqb_eq in E. subst c. split; [reflexivity | right; reflexivity].
    + destruct (getline_scan s delim) as [str rest]; simpl in *.
      rewrite E. split; [exact IHfree|].
      destruct IHparts as [H | H]; [left | right]; rewrite <- H; reflexivity.
Qed.

Lemma getline_scan_Substrings (s : string) (delim : ascii) :
  Substring (fst (getline_scan s delim)) s /\ Substring (snd (getline_scan s delim)) s.
Proof.
  destruct (getline_scan_parts s delim) as [_ [H | H]].
  - split.
    + exists "", (snd (getline_scan s delim)). exact H.
    + exists (fst (getline_scan s delim)), "". rewrite append_empty_r. exact H.
  - split.
    + exists "", (String delim (snd (getline_scan s delim))). exact H.
    + exists (fst (getline_scan s delim) ++ String delim ""), "".
      rewrite append_empty_r, append_assoc. exact H.
Qed.

Lemma substr_Substring (section text : string) (pos n : Z) :
  substr section pos n = Some text -> Substring text section.
Proof.
  unfold substr. destruct (size section <? pos); [discriminate|].
  intros H. injection H as <-. apply substring_Substring.
Qed.

Lemma find_found (section module_name : string) :
  negb (find section module_name =? npos) = true -> Substring module_name section.
Proof.
  unfold find. destruct (find_first module_name section) as [i|] eqn:E.
  - intros _. destruct (find_first_Some _ _ _ E) as (pre & post & -> & _).
    exists pre, post. reflexivity.
  - rewrite Z.eqb_refl. discriminate.
Qed.

Lemma ExtractModuleFromVersion_loop_text (module_name : string) (n : nat) :
  forall version_stream,
    (String.length version_stream <= n)%nat ->
    exists text,
      ExtractModuleFromVersion_loop module_name version_stream = Some text /\
      char_free "|" text = true /\
      (text = "Unknown" \/ Substring text version_stream) /\
      (~ Substring module_name version_stream -> text = "Unknown").
Proof.
  induction n as [|n IH]; intros version_stream Hlen;
    rewrite ExtractModuleFromVersion_loop_step.
  - destruct version_stream; [|simpl in Hlen; lia].
    exists "Unknown". repeat split; auto.
  - destruct version_stream as [|c v].
    + exists "Unknown". repeat split; auto.
    + unfold getline.
      pose proof (getline_scan_parts (String c v) "|") as [Hfree _].
      pose proof (getline_scan_Substrings (String c v) "|") as [Hsection Hrest].
      pose proof (getline_scan_shrinks v "|") as Hshrink.
      assert (Hshorter : (String.length (snd (getline_scan (String c v) "|")) <= n)%nat).
      { simpl. simpl in Hlen. destruct (Ascii.eqb c "|"); simpl; [lia|].
        destruct (getline_scan v "|") as [str rest]; simpl in *. lia. }
      destruct (getline_scan (String c v) "|") as [section rest]; cbn [fst snd] in *.
      destruct (negb (find section module_name =? npos)) eqn:Efound.
      * destruct (substr_after_colon_returns section) as [text Etext].
        exists text. split; [exact Etext|].
        pose proof (substr_Substring _ _ _ _ Etext) as Hsub.
        split; [eapply char_free_Substring; eassumption|].
        split; [right; eapply Substring_trans; eassumption|].
        intros Hno. exfalso. apply Hno.
        eapply Substring_trans; [apply find_found; exact Efound | exact Hsection].
      * destruct (IH rest Hshorter) as (text & E & Hpipe & Hfrom & Hunknown).
        exists text. split; [exact E|]. split; [exact Hpipe|]. split.
        -- destruct Hfrom as [-> | Hsub]; [left; reflexivity|].
           right. eapply Substring_trans; eassumption.
        -- intros Hno. apply Hunknown. intros Hin. apply Hno.
           eapply Substring_trans; eassumption.
Qed.

(** Property X1.  [ExtractModuleFromVersion] returns for every searched
    name and every version string, the empty ones and those without any
    colon or pipe included: no [std::out_of_range] leaves the [substr] of
    line 98.  What it returns holds no pipe, and is either "Unknown" or a
    piece of the version string; it is "Unknown" when the name occurs
    nowhere in the version string. *)
Theorem ExtractModuleFromVersion_total (module_name full_version : string) :
  exists text,
    ExtractModuleFromVersion module_name full_version = Some text /\
    char_free "|" text = true /\
    (text = "Unknown" \/ Substring text full_version) /\
    (~ Substring module_name full_version -> text = "Unknown").
Proof.
  unfold ExtractModuleFromVersion.
  apply (ExtractModuleFromVersion_loop_text module_name (String.length full_version)).
  lia.
Qed.

(** ** The command line: what the parser reads, and what each field is *)





Lemma fold_apply_option_other_fields (options : list CliOption) (args : CommandLineArgs) :
  let args' := fold_left apply_option options args in
  serial_port args' =
    fold_left (fun value o => match o with OptPort v => v | _ => value end)
      options (serial_port args) /\
  (force_full args' = true <-> force_full args = true \/ In OptForceFull options) /\
  (force_version args' = true <-> force_version args = true \/ In OptForceVersion options).
Proof.
  revert args; induction options as [|o options IH]; intros args; cbn [fold_left].
  - simpl. tauto.
  - destruct (IH (apply_option args o)) as (Hp & Hf & Hv).
    cbv zeta. rewrite Hp, Hf, Hv. clear IH Hp Hf Hv.
    destruct o; simpl; repeat split; try tauto;
      try (intros [H|[H|H]]; (discriminate || tauto));
      try (intros [H|H]; tauto).
Qed.

(** The last two tests of the parser change [is_valid] only. *)
Lemma ParseCommandLineArgs_keeps_fields (argc : Z) (argv : list string) :
  2 <= argc ->
  let parsed := ParseCommandLineArgs argc argv in
  let read := ParseCommandLineArgs_loop argc argv 1 CommandLineArgs_default in
  force_version parsed = force_version read /\ force_full parsed = force_full read /\
  is_interactive parsed = is_interactive read /\ auto_approve parsed = auto_approve read /\
  fw_file parsed = fw_file read /\ serial_port parsed = serial_port read.
Proof.
  intros Hargc. unfold ParseCommandLineArgs.
  destruct (Z.ltb_spec argc 2) as [Hlt|_]; [lia|]. cbv zeta.
  destruct (size (fw_file _) =? 0); [tauto|].
  destruct (is_interactive _ && auto_approve _); [tauto|].
  simpl. tauto.
Qed.

(** Property X3.  The fields that [ParseCommandLineArgs] fills are those of
    the options read from left to right, whether the command line is valid
    or not: the firmware file and the port are the values of the last
    [--file] and of the last [--port] (empty when there is none), and a flag
    is set exactly when it is among the options, which an argument that is
    the value of [--file] or [--port] is not.  Without any argument every
    field keeps its default. *)
Theorem ParseCommandLineArgs_fields (argv : list string) :
  let args := ParseCommandLineArgs (Z.of_nat (List.length argv)) argv in
  let options := read_options (tl argv) in
  fw_file args = file_value options /\
  serial_port args = port_value options /\
  (force_full args = true <-> In OptForceFull options) /\
  (force_version args = true <-> In OptForceVersion options) /\
  (is_interactive args = true <-> In OptInteractive options) /\
  (auto_approve args = true <-> In OptAutoApprove options).
Proof.
  cbv zeta.
  destruct (Z.ltb_spec (Z.of_nat (List.length argv)) 2) as [Hlt|Hge].
  - assert (E : tl argv = []).
    { destruct argv as [|program [|a arguments]]; try reflexivity. simpl in Hlt. lia. }
    unfold ParseCommandLineArgs. rewrite E.
    rewrite (proj2 (Z.ltb_lt _ _) Hlt). simpl.
    repeat split; try discriminate; try tauto.
  - destruct (ParseCommandLineArgs_keeps_fields (Z.of_nat (List.length argv)) argv Hge)
      as (Ev & Ef & Ei & Ea & Efile & Eport).
    cbv zeta in Ev, Ef, Ei, Ea, Efile, Eport.
    rewrite Ev, Ef, Ei, Ea, Efile, Eport.
    rewrite (ParseCommandLineArgs_options argv) by lia.
    destruct (fold_apply_option_fields (read_options (tl argv)) CommandLineArgs_default)
      as (_ & Hfile & Hi & Ha).
    destruct (fold_apply_option_other_fields (read_options (tl argv)) CommandLineArgs_default)
      as (Hport & Hf & Hv).
    cbv zeta in Hfile, Hi, Ha, Hport, Hf, Hv. simpl in Hfile, Hi, Ha, Hport, Hf, Hv.
    unfold file_value, port_value.
    split; [exact Hfile|]. split; [exact Hport|].
    repeat split; intros H;
      first [ apply Hf in H | apply Hv in H | apply Hi in H | apply Ha in H
            | apply Hf | apply Hv | apply Hi | apply Ha ];
      try tauto; destruct H as [H|H]; (discriminate || exact H).
Qed.

(** ** The answers of the user *)

Lemma extract_char_cons (a : ascii) (input : string) :
  extract_char (String a input) =
  if isspace a then extract_char input else Some (a, input).
Proof. unfold extract_char. cbn [skipws]. destruct (isspace a); reflexivity. Qed.

(** The characters before the first 'y' or 'n' are read and dropped. *)
Lemma UserApproval_loop_first_answer (junk : string) :
  forall (key c : ascii) (rest : string),
    negb (Ascii.eqb key "y") && negb (Ascii.eqb key "n") = true ->
    char_free "y" junk = true -> char_free "n" junk = true ->
    c = "y"%char \/ c = "n"%char ->
    UserApproval_loop key (junk ++ String c rest) = Some (c, rest).
Proof.
  induction junk as [|a junk IH]; intros key c rest Hkey Hjy Hjn Hc;
    rewrite UserApproval_loop_step, Hkey; cbn [append]; rewrite extract_char_cons.
  - assert (Hspace : isspace c = false) by (destruct Hc as [-> | ->]; reflexivity).
    rewrite Hspace, UserApproval_loop_step.
    destruct Hc as [-> | ->]; reflexivity.
  - cbn [char_free] in Hjy, Hjn.
    apply andb_true_iff in Hjy as [Hay Hjy]. apply andb_true_iff in Hjn as [Han Hjn].
    destruct (isspace a).
    + specialize (IH key c rest Hkey Hjy Hjn Hc).
      rewrite UserApproval_loop_step, Hkey in IH. exact IH.
    + apply IH; auto. rewrite Hay, Han. reflexivity.
Qed.

(** An answer is 'y' or 'n'; it is the key that the loop was entered
    with, or a character of the input, after which the input is left. *)
Lemma UserApproval_loop_answer (n : nat) :
  forall (key : ascii) (input : string) (c : ascii) (rest : string),
    String.length input = n ->
    UserApproval_loop key input = Some (c, rest) ->
    (c = "y"%char \/ c = "n"%char) /\
    (c = key /\ rest = input \/ exists pre, input = pre ++ String c rest).
Proof.
  induction n as [n IH] using lt_wf_ind. intros key input c rest Hlen.
  rewrite UserApproval_loop_step.
  destruct (negb (Ascii.eqb key "y") && negb (Ascii.eqb key "n")) eqn:Hkey.
  - destruct (skipws_split input) as (blanks & Hsplit & _ & _).
    pose proof (skipws_shrinks input) as Hshrink.
    unfold extract_char.
    destruct (skipws input) as [|read rest'] eqn:Hskip; [discriminate|].
    cbn [String.length] in Hshrink.
    intros Hloop.
    destruct (IH (String.length rest') ltac:(lia) read rest' c rest eq_refl Hloop)
      as [Hc [[-> ->] | [pre ->]]].
    + split; [exact Hc|]. right. exists blanks. exact Hsplit.
    + split; [exact Hc|]. right. exists (blanks ++ String read pre).
      rewrite Hsplit at 1. rewrite append_assoc. reflexivity.
  - intros [= <- <-]. split; [|left; auto].
    destruct (Ascii.eqb_spec key "y") as [->|_]; [left; reflexivity|].
    destruct (Ascii.eqb_spec key "n") as [->|_]; [right; reflexivity|].
    discriminate.
Qed.

(** Property X4.  [UserApproval] is decided by the first 'y' or 'n' of the
    input: whatever precedes it, white space or not, is read and dropped,
    the answer is whether that character is 'y', and what follows it is left
    on [std::cin] for the next question.  When the input holds neither, the
    question is never answered.  No call is made and no time passes. *)
Theorem UserApproval_first_answer (st : State) :
  (forall junk c rest,
      cin st = junk ++ String c rest ->
      char_free "y" junk = true -> char_free "n" junk = true ->
      c = "y"%char \/ c = "n"%char ->
      UserApproval st = Returns (Ascii.eqb c "y") (mkState rest (clock st) (trace st))) /\
  (char_free "y" (cin st) = true -> char_free "n" (cin st) = true ->
   UserApproval st = NeverReturns (mkState "" (clock st) (trace st))).
Proof.
  split.
  - intros junk c rest Hcin Hy Hn Hc. unfold UserApproval.
    rewrite Hcin, (UserApproval_loop_first_answer junk "0" c rest eq_refl Hy Hn Hc).
    reflexivity.
  - intros Hy Hn. unfold UserApproval.
    assert (E : UserApproval_loop "0" (cin st) = None).
    { apply (UserApproval_loop_waits _ "0" (cin st) eq_refl); [discriminate.. | auto]. }
    rewrite E. reflexivity.
Qed.

Lemma UserApproval_first_answer_witness :
  UserApproval (mkState "ok, no" 0 []) = Returns false (mkState "o" 0 []).
Proof.
  apply (proj1 (UserApproval_first_answer (mkState "ok, no" 0 [])) "ok, " "n"%char "o");
    [reflexivity | reflexivity | reflexivity | right; reflexivity].
Defined.

(** ** The selection of a device *)

Lemma getline_scan_line (line rest : string) (delim : ascii) :
  char_free delim line = true ->
  getline_scan (line ++ String delim rest) delim = (line, rest).
Proof.
  induction line as [|c line IH]; cbn [append getline_scan char_free].
  - rewrite Ascii.eqb_refl. reflexivity.
  - intros H. apply andb_true_iff in H as [Hc Hline].
    apply negb_true_iff in Hc. rewrite Hc, (IH Hline). reflexivity.
Qed.

Lemma getline_line (line rest : string) (delim : ascii) :
  char_free delim line = true ->
  getline (line ++ String delim rest) delim = Some (line, rest).
Proof.
  intros H. unfold getline. rewrite <- (getline_scan_line line rest delim H).
  destruct line; reflexivity.
Qed.

(** An index that is not the number of a device is as good as none. *)
Lemma UserDeviceSelection_loop_again (devices_size device_index : Z) (input : string) :
  (device_index <? 1) || (device_index mod size_t_modulus >? devices_size) = true ->
  UserDeviceSelection_loop devices_size device_index input =
  UserDeviceSelection_loop devices_size (-1) input.
Proof.
  intros H. rewrite (UserDeviceSelection_loop_step devices_size device_index), H.
  rewrite (UserDeviceSelection_loop_step devices_size (-1)). reflexivity.
Qed.

Lemma device_number_test (devices_size k : Z) :
  k <= INT_MAX ->
  (k <? 1) || (k mod size_t_modulus >? devices_size) = negb ((1 <=? k) && (k <=? devices_size)).
Proof.
  intros Hmax. destruct (Z.ltb_spec k 1) as [Hlt|Hge]; cbn [orb].
  - destruct (Z.leb_spec 1 k); [lia | reflexivity].
  - rewrite Z.mod_small by (unfold INT_MAX, size_t_modulus in *; lia).
    destruct (Z.leb_spec 1 k); [|lia]. cbn [andb].
    destruct (Z.gtb_spec k devices_size), (Z.leb_spec k devices_size); try lia; reflexivity.
Qed.

(** The first line of the input gives the next index. *)
Lemma UserDeviceSelection_loop_line (devices_size : Z) (line rest : string) :
  char_free "010" line = true ->
  UserDeviceSelection_loop devices_size (-1) (line ++ newline ++ rest) =
  UserDeviceSelection_loop devices_size
    (match stoi line with Some v => v | None => -1 end) rest.
Proof.
  intros Hline. rewrite UserDeviceSelection_loop_step. cbn [Z.ltb Z.compare orb].
  unfold newline. cbn [append]. rewrite (getline_line line rest "010" Hline).
  reflexivity.
Qed.

(** The number of a device ends the loop. *)
Lemma UserDeviceSelection_loop_selected (devices_size k : Z) (input : string) :
  1 <= k <= devices_size -> k <= INT_MAX ->
  UserDeviceSelection_loop devices_size k input = Some (k, input).
Proof.
  intros Hrange Hmax. rewrite UserDeviceSelection_loop_step, device_number_test by exact Hmax.
  destruct (Z.leb_spec 1 k); [|lia].
  destruct (Z.leb_spec k devices_size); [|lia].
  reflexivity.
Qed.

(** What is left on the input is the end of what was there. *)
Lemma UserDeviceSelection_loop_consumes (devices_size : Z) (n : nat) :
  forall (device_index : Z) (input : string) (selected : Z) (rest : string),
    String.length input = n ->
    UserDeviceSelection_loop devices_size device_index input = Some (selected, rest) ->
    exists consumed, input = consumed ++ rest.
Proof.
  induction n as [n IH] using lt_wf_ind.
  intros device_index input selected rest Hn.
  rewrite UserDeviceSelection_loop_step.
  destruct ((device_index <? 1) || (device_index mod size_t_modulus >? devices_size)).
  - destruct input as [|c input']; [discriminate|].
    unfold getline.
    pose proof (getline_scan_parts (String c input') "010") as [_ Hparts].
    assert (Hshorter : (String.length (snd (getline_scan (String c input') "010")) < n)%nat).
    { rewrite <- Hn.
      apply (getline_shrinks (String c input') "010"
               (fst (getline_scan (String c input') "010"))).
      unfold getline. destruct (getline_scan (String c input') "010"); reflexivity. }
    destruct (getline_scan (String c input') "010") as [line rest']; cbn [fst snd] in *.
    intros Hloop.
    destruct (IH (String.length rest') Hshorter _ rest' selected rest eq_refl Hloop)
      as [consumed ->].
    destruct Hparts as [-> | ->].
    + exists (line ++ consumed). rewrite append_assoc. reflexivity.
    + exists (line ++ String "010" consumed). rewrite append_assoc. reflexivity.
  - intros [= <- <-]. exists "". reflexivity.
Qed.

(** Property X5.  When [UserDeviceSelection] returns, the index returned
    is the index of one of the devices, so that the [devices_info.at(id)]
    of line 309 does not throw; in particular nothing is ever returned for
    an empty list.  The function makes no call, lets no time pass and only
    takes characters from the front of the input. *)
Theorem UserDeviceSelection_index_in_range (devices : list FullDeviceInfo)
    (st : State) (id : Z) (st' : State) :
  UserDeviceSelection devices st = Returns id st' ->
  0 <= id < Z.of_nat (List.length devices) /\
  devices <> [] /\
  clock st' = clock st /\ trace st' = trace st /\
  exists consumed, cin st = consumed ++ cin st'.
Proof.
  unfold UserDeviceSelection.
  destruct (UserDeviceSelection_loop (Z.of_nat (List.length devices)) (-1) (cin st))
    as [[selected rest]|] eqn:E; [|discriminate].
  intros [= <- <-]. cbn [cin clock trace].
  assert (Hrange : 1 <= selected <= Z.of_nat (List.length devices)).
  { eapply (UserDeviceSelection_loop_range _ _ (-1) (cin st));
      [reflexivity | unfold INT_MAX; lia | exact E]. }
  split; [lia|]. split; [intros ->; simpl in Hrange; lia|].
  split; [reflexivity|]. split; [reflexivity|].
  eapply UserDeviceSelection_loop_consumes; [reflexivity | exact E].
Qed.

Lemma UserDeviceSelection_index_in_range_witness :
  UserDeviceSelection
    [mkFullDeviceInfo DeviceMetadata_default (mkDeviceInfo "COM1");
     mkFullDeviceInfo DeviceMetadata_default (mkDeviceInfo "COM2")]
    (mkState ("x" ++ newline ++ "2" ++ newline ++ "y") 0 []) = Returns 1 (mkState "y" 0 []) /\
  0 <= 1 < 2.
Proof.
  assert (H : UserDeviceSelection
                [mkFullDeviceInfo DeviceMetadata_default (mkDeviceInfo "COM1");
                 mkFullDeviceInfo DeviceMetadata_default (mkDeviceInfo "COM2")]
                (mkState ("x" ++ newline ++ "2" ++ newline ++ "y") 0 []) =
              Returns 1 (mkState "y" 0 [])) by (vm_compute; reflexivity).
  split; [exact H|].
  exact (proj1 (UserDeviceSelection_index_in_range _ _ _ _ H)).
Defined.

(** Property X6.  [UserDeviceSelection] reads the input line by line.  A
    first line that [std::stoi] reads as the number [k] of a device, counted
    from 1, selects the device of index [k - 1], and the lines after it are
    left on [std::cin]; a first line that is not a number, or not the number
    of a device, is dropped, and the selection goes on with the next
    line. *)
Theorem UserDeviceSelection_lines (devices : list FullDeviceInfo) (st : State)
    (line rest : string) :
  cin st = line ++ newline ++ rest ->
  char_free "010" line = true ->
  (forall k, stoi line = Some k -> 1 <= k <= Z.of_nat (List.length devices) ->
     UserDeviceSelection devices st = Returns (k - 1) (mkState rest (clock st) (trace st))) /\
  ((forall k, stoi line = Some k -> ~ 1 <= k <= Z.of_nat (List.length devices)) ->
     UserDeviceSelection devices st =
     UserDeviceSelection devices (mkState rest (clock st) (trace st))).
Proof.
  intros Hcin Hline.
  assert (Hfirst : UserDeviceSelection_loop (Z.of_nat (List.length devices)) (-1) (cin st) =
                   UserDeviceSelection_loop (Z.of_nat (List.length devices))
                     (match stoi line with Some v => v | None => -1 end) rest).
  { rewrite Hcin. apply UserDeviceSelection_loop_line. exact Hline. }
  split.
  - intros k Hk Hrange. unfold UserDeviceSelection. rewrite Hfirst, Hk.
    rewrite UserDeviceSelection_loop_selected by (apply stoi_range in Hk; lia).
    reflexivity.
  - intros Hnot. unfold UserDeviceSelection. cbn [cin clock trace].
    rewrite Hfirst, UserDeviceSelection_loop_again; [reflexivity|].
    destruct (stoi line) as [k|] eqn:Hk; [|reflexivity].
    rewrite device_number_test by (apply stoi_range in Hk; lia).
    specialize (Hnot k eq_refl).
    destruct (Z.leb_spec 1 k); [|reflexivity].
    destruct (Z.leb_spec k (Z.of_nat (List.length devices))); [lia | reflexivity].
Qed.

Lemma UserDeviceSelection_lines_witness :
  UserDeviceSelection
    [mkFullDeviceInfo DeviceMetadata_default (mkDeviceInfo "COM1");
     mkFullDeviceInfo DeviceMetadata_default (mkDeviceInfo "COM2")]
    (mkState (" 2nd" ++ newline ++ "y") 0 []) = Returns 1 (mkState "y" 0 []).
Proof.
  apply (proj1 (UserDeviceSelection_lines
                  [mkFullDeviceInfo DeviceMetadata_default (mkDeviceInfo "COM1");
                   mkFullDeviceInfo DeviceMetadata_default (mkDeviceInfo "COM2")]
                  (mkState (" 2nd" ++ newline ++ "y") 0 []) " 2nd" "y"
                  eq_refl eq_refl) 2);
    [reflexivity | simpl; lia].
Defined.

(** ** The metadata of a device *)

Section Metadata.

Variable env : Environment.

Lemma QueryDeviceMetadata_metadata (serial_config : SerialConfig) (st : State) :
  QueryDeviceMetadata env serial_config st =
  Returns (metadata_of env (port serial_config))
    (mkState (cin st) (clock st) (trace st ++ query_events (port serial_config))).
Proof.
  unfold QueryDeviceMetadata, metadata_of, DeviceController_Connect,
    DeviceController_QueryFirmwareVersion, DeviceController_QuerySerialNumber,
    DeviceController_Disconnect, bind, emit, ret, or_throw, query_events.
  cbn [cin clock trace].
  set (version := QueryFirmwareVersion env (port serial_config)).
  set (serial := QuerySerialNumber env (port serial_config)).
  destruct (ExtractModuleFromVersion_returns "OPFW:" version) as [fw Hfw].
  destruct (ExtractModuleFromVersion_returns "RECOG:" version) as [recog Hrecog].
  unfold ParseFirmwareVersion, ParseRecognitionVersion.
  destruct (size version =? 0); cbn [negb]; rewrite ?Hfw, ?Hrecog;
    cbn [cin clock trace text_or_unknown];
    destruct (size serial =? 0); cbn [negb];
    rewrite <- !app_assoc; reflexivity.
Qed.

(** Property X7.  [QueryDeviceMetadata] always returns, after exactly
    four calls on the port it was given: connect, firmware version, serial
    number, disconnect; it reads no input and lets no time pass.  A field
    that the device does not report (an empty answer) is "Unknown"; the
    serial number is otherwise the answer itself, and the two versions are
    what [ParseFirmwareVersion] and [ParseRecognitionVersion] extract from
    the reported version string. *)
Theorem QueryDeviceMetadata_fields (serial_config : SerialConfig) (st : State) :
  let version := QueryFirmwareVersion env (port serial_config) in
  let serial := QuerySerialNumber env (port serial_config) in
  exists metadata,
    QueryDeviceMetadata env serial_config st =
      Returns metadata
        (mkState (cin st) (clock st)
           (trace st ++ [EvConnect (port serial_config);
                         EvQueryFirmwareVersion (port serial_config);
                         EvQuerySerialNumber (port serial_config);
                         EvDisconnect (port serial_config)])) /\
    (version = "" ->
     fw_version metadata = "Unknown" /\ recognition_version metadata = "Unknown") /\
    (version <> "" ->
     ParseFirmwareVersion version = Some (fw_version metadata) /\
     ParseRecognitionVersion version = Some (recognition_version metadata)) /\
    (serial = "" -> serial_number metadata = "Unknown") /\
    (serial <> "" -> serial_number metadata = serial).
Proof.
  cbv zeta. exists (metadata_of env (port serial_config)).
  split; [apply QueryDeviceMetadata_metadata|].
  unfold metadata_of. cbn [fw_version recognition_version serial_number].
  set (version := QueryFirmwareVersion env (port serial_config)).
  set (serial := QuerySerialNumber env (port serial_config)).
  destruct (ExtractModuleFromVersion_returns "OPFW:" version) as [fw Hfw].
  destruct (ExtractModuleFromVersion_returns "RECOG:" version) as [recog Hrecog].
  unfold ParseFirmwareVersion, ParseRecognitionVersion. rewrite Hfw, Hrecog.
  cbn [text_or_unknown].
  pose proof (size_zero_iff version) as Hv. pose proof (size_zero_iff serial) as Hs.
  split; [|split; [|split]].
  - intros E. rewrite (proj2 Hv E). auto.
  - intros E. destruct (size version =? 0); [exfalso; tauto | auto].
  - intros E. rewrite (proj2 Hs E). reflexivity.
  - intros E. destruct (size serial =? 0); [exfalso; tauto | reflexivity].
Qed.

(** ** The device list and the selected device *)

Lemma populate_devices (detected_devices : list DeviceInfo) (st : State) :
  for_each
    (fun detected_device =>
       metadata <- QueryDeviceMetadata env (mkSerialConfig (serialPort detected_device)) ;;
       ret (mkFullDeviceInfo metadata detected_device))
    detected_devices st =
  Returns (map (full_device_info env) detected_devices)
    (mkState (cin st) (clock st)
       (trace st ++ flat_map (fun d => query_events (serialPort d)) detected_devices)).
Proof.
  revert st; induction detected_devices as [|d devices IH]; intros st.
  - cbn. rewrite app_nil_r. destruct st; reflexivity.
  - cbn [for_each map flat_map]. unfold bind at 1. unfold bind at 1.
    rewrite QueryDeviceMetadata_metadata. unfold ret at 1.
    unfold bind at 1. rewrite IH. cbn [cin clock trace ret port].
    rewrite <- app_assoc. reflexivity.
Qed.

Lemma main_select_device_outcome (args : CommandLineArgs) (st : State) :
  main_select_device env args st = select_outcome env args st.
Proof.
  unfold main_select_device, select_outcome, devices_of, populate_events.
  destruct (size (serial_port args) =? 0); cbn [negb andb].
  - unfold bind at 1. unfold bind at 1.
    unfold RealSenseID_DiscoverDevices at 1.
    unfold bind at 1. unfold emit at 1. unfold ret at 1.
    rewrite populate_devices. cbn [cin clock trace].
    rewrite <- app_assoc. cbn [app].
    destruct (DiscoverDevices env) as [|d0 [|d1 detected]]; [reflexivity | reflexivity |].
    set (devices_info := map (full_device_info env) (d0 :: d1 :: detected)).
    assert (Hlen : (2 <= List.length devices_info)%nat) by (simpl; lia).
    destruct (Nat.eqb_spec (List.length devices_info) 0); [lia|].
    destruct (Nat.eqb_spec (List.length devices_info) 1); [lia|].
    unfold bind at 1. unfold UserDeviceSelection. cbn [cin clock trace].
    destruct (UserDeviceSelection_loop (Z.of_nat (List.length devices_info)) (-1) (cin st))
      as [[device_index rest]|] eqn:E.
    + assert (Hrange : 1 <= device_index <= Z.of_nat (List.length devices_info)).
      { eapply (UserDeviceSelection_loop_range _ _ (-1) (cin st));
          [reflexivity | unfold INT_MAX; lia | exact E]. }
      unfold bind, vector_at, or_throw, ret.
      destruct (Z.ltb_spec (device_index - 1) 0); [lia|].
      subst devices_info. cbn [map].
      destruct (nth_error _ (Z.to_nat (device_index - 1))); reflexivity.
    + subst devices_info. reflexivity.
  - unfold bind at 1. unfold bind at 1.
    rewrite QueryDeviceMetadata_metadata.
    unfold bind at 1. unfold strncpy_serialPort.
    destruct (size (serial_port args) <? serialPort_size env); reflexivity.
Qed.

Lemma port_fits_test (args : CommandLineArgs) :
  negb (size (serial_port args) =? 0)
  && negb (size (serial_port args) <? serialPort_size env) = false <->
  port_fits env args.
Proof.
  unfold port_fits. pose proof (size_zero_iff (serial_port args)) as Hsize.
  destruct (size (serial_port args) =? 0); cbn [negb andb].
  - intuition.
  - destruct (Z.ltb_spec (size (serial_port args)) (serialPort_size env)) as [Hlt|Hge];
      cbn [negb]; split; try tauto; try discriminate.
    intros [Hnone | Hlt]; [apply Hsize in Hnone; discriminate | lia].
Qed.

(** The selected device is one of the list, and nothing but the
    selection itself reads the input. *)
Lemma select_outcome_cases (args : CommandLineArgs) (st : State) :
  let queried := (trace st ++ populate_events env args)%list in
  (~ port_fits env args /\
   select_outcome env args st = Undefined (mkState (cin st) (clock st) queried)) \/
  port_fits env args /\
  ((devices_of env args = [] /\
   select_outcome env args st = Returns None (mkState (cin st) (clock st) queried)) \/
  (exists device rest consumed,
      In device (devices_of env args) /\ cin st = consumed ++ rest /\
      ((List.length (devices_of env args) <= 1)%nat -> rest = cin st) /\
      select_outcome env args st = Returns (Some device) (mkState rest (clock st) queried)) \/
  ((2 <= List.length (devices_of env args))%nat /\
   select_outcome env args st = NeverReturns (mkState "" (clock st) queried))).
Proof.
  cbv zeta. unfold select_outcome.
  pose proof (port_fits_test args) as Hfits.
  destruct (negb (size (serial_port args) =? 0)
            && negb (size (serial_port args) <? serialPort_size env)).
  { left. split; [|reflexivity]. intros H. apply Hfits in H. discriminate. }
  right. split; [apply Hfits; reflexivity|]. clear Hfits.
  destruct (devices_of env args) as [|d0 [|d1 devices]] eqn:Hdevices.
  - left. auto.
  - right; left. exists d0, (cin st), "". repeat split; auto. left; reflexivity.
  - right.
    destruct (UserDeviceSelection_loop _ (-1) (cin st)) as [[device_index rest]|] eqn:E.
    + left.
      assert (Hrange : 1 <= device_index <= Z.of_nat (List.length (d0 :: d1 :: devices))).
      { eapply (UserDeviceSelection_loop_range _ _ (-1) (cin st));
          [reflexivity | unfold INT_MAX; lia | exact E]. }
      destruct (UserDeviceSelection_loop_consumes _ _ _ _ _ _ eq_refl E) as [consumed Hc].
      destruct (nth_error (d0 :: d1 :: devices) (Z.to_nat (device_index - 1)))
        as [device|] eqn:Hnth.
      * exists device, rest, consumed. repeat split; auto.
        -- eapply nth_error_In; exact Hnth.
        -- simpl. lia.
      * apply nth_error_None in Hnth. lia.
    + right. split; [simpl; lia | reflexivity].
Qed.

End Metadata.

(** ** Waiting for the device, whatever the bounds *)

Local Open Scope list_scope.

Section WaitingPings.

Variable env : Environment.
Variable device_port : string.

Lemma WaitForDevice_loop_pings (max_wait_seconds : Z) (n : nat) :
  forall (waitCounter : Z) (st : State),
    n = Z.to_nat (max_wait_seconds - waitCounter) ->
    exists (alive : bool) (count : nat),
      WaitForDevice_loop env max_wait_seconds device_port false waitCounter st =
        Returns alive
          (mkState (cin st) (clock st + Z.of_nat count)
             (trace st ++ pings env device_port (clock st) count)) /\
      Z.of_nat count <= Z.max 0 (max_wait_seconds - waitCounter) /\
      (forall t, clock st < t < clock st + Z.of_nat count ->
                 Ping env device_port t <> Ok) /\
      (alive = true <->
       (0 < count)%nat /\ Ping env device_port (clock st + Z.of_nat count) = Ok) /\
      (alive = false -> Z.of_nat count = Z.max 0 (max_wait_seconds - waitCounter)).
Proof.
  induction n as [n IH] using lt_wf_ind. intros waitCounter st Hn.
  rewrite WaitForDevice_loop_step. cbn [negb andb].
  destruct (Z.ltb_spec waitCounter max_wait_seconds) as [Hlt|Hge].
  - unfold bind at 1. unfold sleep_for_seconds at 1. unfold bind at 1.
    rewrite IsDeviceAlive_returns. cbn [cin clock trace].
    change (Z.max 0 1) with 1.
    destruct (Status_eqb (Ping env device_port (clock st + 1)) Ok) eqn:Hping.
    + rewrite WaitForDevice_loop_step. cbn [negb andb]. unfold ret.
      apply Status_eqb_Ok in Hping.
      exists true, 1%nat. cbn [pings ping_events]. rewrite app_nil_r.
      change (Z.of_nat 1) with 1.
      split; [reflexivity|]. split; [lia|]. split; [intros t Ht; lia|].
      split; [|discriminate]. split; [intros _; split; [lia | exact Hping] | reflexivity].
    + assert (Hfail : Ping env device_port (clock st + 1) <> Ok).
      { intros E. apply Status_eqb_Ok in E. congruence. }
      destruct (IH (Z.to_nat (max_wait_seconds - (waitCounter + 1))) ltac:(lia)
                  (waitCounter + 1)
                  (mkState (cin st) (clock st + 1)
                     (trace st ++ [EvConnect device_port;
                                   EvPing device_port (Ping env device_port (clock st + 1));
                                   EvDisconnect device_port]))
                  eq_refl)
        as (alive & count & Hrun & Hcount & Hbefore & Htrue & Hfalse).
      cbn [cin clock trace] in *.
      exists alive, (S count). rewrite Hrun. cbn [pings ping_events].
      rewrite <- app_assoc.
      replace (clock st + 1 + Z.of_nat count) with (clock st + Z.of_nat (S count)) in * by lia.
      split; [reflexivity|]. split; [lia|]. split; [|split].
      * intros t Ht. destruct (Z.eq_dec t (clock st + 1)) as [->|Hne];
          [exact Hfail | apply Hbefore; lia].
      * rewrite Htrue. split; intros [Hpos Hok]; (split; [|exact Hok]); [lia|].
        destruct count as [|count]; [|lia].
        replace (clock st + Z.of_nat 1) with (clock st + 1) in Hok by lia.
        contradiction.
      * intros Halive. specialize (Hfalse Halive). lia.
  - unfold ret. exists false, 0%nat. cbn [pings]. rewrite app_nil_r, Z.add_0_r.
    destruct st as [input seconds events]. cbn [cin clock trace].
    split; [reflexivity|]. split; [lia|]. split; [intros t Ht; lia|].
    split; [split; [discriminate | intros [H _]; lia] | intros _; lia].
Qed.

(** Property X8.  For any bounds, [WaitForDevice] returns: it sleeps
    [min_wait_seconds] (not at all when that is negative), then sends one
    ping per second, each on a connection of its own that it closes, until
    a ping is answered with Ok or [max_wait_seconds - min_wait_seconds]
    pings have been sent.  It returns true exactly when its last ping
    was answered with Ok; with [max_wait_seconds <= min_wait_seconds] it
    sends no ping at all and returns false.  It reads no input. *)
Theorem WaitForDevice_pings (min_wait_seconds max_wait_seconds : Z) (st : State) :
  let start := clock st + Z.max 0 min_wait_seconds in
  exists (alive : bool) (count : nat),
    WaitForDevice env min_wait_seconds max_wait_seconds device_port st =
      Returns alive
        (mkState (cin st) (start + Z.of_nat count)
           (trace st ++ pings env device_port start count)) /\
    Z.of_nat count <= Z.max 0 (max_wait_seconds - min_wait_seconds) /\
    (forall t, start < t < start + Z.of_nat count -> Ping env device_port t <> Ok) /\
    (alive = true <->
     (0 < count)%nat /\ Ping env device_port (start + Z.of_nat count) = Ok) /\
    (alive = false -> Z.of_nat count = Z.max 0 (max_wait_seconds - min_wait_seconds)) /\
    (max_wait_seconds <= min_wait_seconds -> alive = false /\ count = 0%nat).
Proof.
  cbv zeta. unfold WaitForDevice. unfold bind at 1. unfold sleep_for_seconds at 1.
  destruct (WaitForDevice_loop_pings max_wait_seconds _ min_wait_seconds
              (mkState (cin st) (clock st + Z.max 0 min_wait_seconds) (trace st)) eq_refl)
    as (alive & count & Hrun & Hcount & Hbefore & Htrue & Hfalse).
  cbn [cin clock trace] in *.
  exists alive, count. split; [exact Hrun|]. split; [exact Hcount|].
  split; [exact Hbefore|]. split; [exact Htrue|]. split; [exact Hfalse|].
  intros Hbounds. assert (count = 0%nat) by lia. split; [|assumption].
  destruct alive; [|reflexivity]. destruct (proj1 Htrue eq_refl). lia.
Qed.

End WaitingPings.

Local Open Scope string_scope.
Local Open Scope Z_scope.

(** ** The progress bar *)

Lemma replicate_length (n : nat) (c : ascii) : String.length (replicate n c) = n.
Proof. induction n as [|n IH]; simpl; congruence. Qed.

Lemma OnProgress_bar_loop_cells (n : nat) :
  forall bar progress_marker,
    OnProgress_bar_loop n bar progress_marker =
    replicate (Nat.min n (Z.to_nat (progress_marker - bar))) ":" ++
    replicate (n - Nat.min n (Z.to_nat (progress_marker - bar))) " ".
Proof.
  induction n as [|n IH]; intros bar progress_marker; [reflexivity|].
  cbn [OnProgress_bar_loop]. rewrite IH.
  destruct (Z.ltb_spec bar progress_marker) as [Hlt|Hge].
  - replace (Z.to_nat (progress_marker - bar))
      with (S (Z.to_nat (progress_marker - (bar + 1)))) by lia.
    reflexivity.
  - replace (Z.to_nat (progress_marker - (bar + 1))) with 0%nat by lia.
    replace (Z.to_nat (progress_marker - bar)) with 0%nat by lia.
    rewrite !Nat.min_0_r, !Nat.sub_0_r. reflexivity.
Qed.

(** Property X9.  The bar that [OnProgress] prints between its brackets has
    exactly 80 cells, whatever the progress: the first [progress_marker]
    cells are ':' and the others are blank; a marker that is negative gives
    an empty bar and a marker above 80 a full one. *)
Theorem OnProgress_bar_cells (progress_marker : Z) :
  let filled := Z.to_nat (Z.min progress_bars (Z.max 0 progress_marker)) in
  OnProgress_bar progress_marker = replicate filled ":" ++ replicate (80 - filled) " " /\
  String.length (OnProgress_bar progress_marker) = 80%nat.
Proof.
  cbv zeta.
  assert (E : OnProgress_bar progress_marker =
              replicate (Z.to_nat (Z.min progress_bars (Z.max 0 progress_marker))) ":" ++
              replicate (80 - Z.to_nat (Z.min progress_bars (Z.max 0 progress_marker))) " ").
  { unfold OnProgress_bar. rewrite OnProgress_bar_loop_cells.
    unfold progress_bars.
    replace (Nat.min (Z.to_nat (80 - 0)) (Z.to_nat (progress_marker - 0)))
      with (Z.to_nat (Z.min 80 (Z.max 0 progress_marker))) by lia.
    replace (Z.to_nat (80 - 0)) with 80%nat by lia. reflexivity. }
  split; [exact E|].
  rewrite E, length_append, !replicate_length. unfold progress_bars. lia.
Qed.

(** ** The runs of the tool, half by half *)

Local Open Scope list_scope.

Lemma run_outcome (env : Environment) (argv : list string) (input : string) :
  let args := ParseCommandLineArgs (Z.of_nat (List.length argv)) argv in
  run env argv input =
  if negb (is_valid args) then Returns FAILURE_MAIN (mkState input 0 [])
  else match select_outcome env args (mkState input 0 []) with
       | Returns None st' => Returns FAILURE_MAIN st'
       | Returns (Some selected_device) st' => update_outcome env args selected_device st'
       | NeverReturns st' => NeverReturns st'
       | Throws st' => Throws st'
       | Undefined st' => Undefined st'
       end.
Proof.
  cbv zeta. unfold run, main.
  destruct (is_valid (ParseCommandLineArgs (Z.of_nat (List.length argv)) argv));
    cbn [negb]; [|reflexivity].
  unfold bind. rewrite main_select_device_outcome.
  destruct (select_outcome env _ (mkState input 0 [])) as [[dev|] st'|st'|st'|st'];
    try reflexivity.
  apply main_update_device_outcome.
Qed.

Lemma devices_of_length (env : Environment) (args : CommandLineArgs) :
  List.length (devices_of env args) =
  if size (serial_port args) =? 0 then List.length (DiscoverDevices env) else 1%nat.
Proof.
  unfold devices_of. destruct (size (serial_port args) =? 0); [apply length_map | reflexivity].
Qed.


Lemma populate_events_are_queries (env : Environment) (args : CommandLineArgs) :
  Forall is_query (populate_events env args).
Proof.
  unfold populate_events. destruct (size (serial_port args) =? 0).
  - constructor; [exact I|]. induction (DiscoverDevices env) as [|d l IH]; [constructor|].
    cbn [flat_map]. apply Forall_app. split; [apply query_events_are_queries | exact IH].
  - apply query_events_are_queries.
Qed.

(** The ways in which a run with a valid command line goes on after the
    devices are queried. *)
Lemma run_cases (env : Environment) (argv : list string) (input : string) :
  let args := ParseCommandLineArgs (Z.of_nat (List.length argv)) argv in
  is_valid args = true ->
  (~ port_fits env args /\
   run env argv input = Undefined (mkState input 0 (populate_events env args))) \/
  port_fits env args /\
  ((devices_of env args = [] /\
   run env argv input = Returns FAILURE_MAIN (mkState input 0 (populate_events env args))) \/
  (exists device rest consumed,
      In device (devices_of env args) /\ input = (consumed ++ rest)%string /\
      ((List.length (devices_of env args) <= 1)%nat -> rest = input) /\
      run env argv input =
        update_outcome env args device (mkState rest 0 (populate_events env args))) \/
  ((2 <= List.length (devices_of env args))%nat /\
   run env argv input = NeverReturns (mkState "" 0 (populate_events env args)))).
Proof.
  cbv zeta. intros Hvalid. rewrite run_outcome. cbv zeta. rewrite Hvalid. cbn [negb].
  destruct (select_outcome_cases env
              (ParseCommandLineArgs (Z.of_nat (List.length argv)) argv) (mkState input 0 []))
    as [[Hlong ->] | [Hfits [[Hnone ->]
                             | [(device & rest & consumed & Hin & Hcin & Hrest & ->)
                               | [Hmany ->]]]]];
    cbn [cin clock trace app] in *.
  - left. auto.
  - right. split; [exact Hfits|]. left. auto.
  - right. split; [exact Hfits|]. right; left. exists device, rest, consumed. auto.
  - right. split; [exact Hfits|]. right; right. auto.
Qed.

(** ** The second half of [main], from its normal form *)

Section UpdateOutcome.

Variable env : Environment.
Variable args : CommandLineArgs.
Variable dev : FullDeviceInfo.
Variable st : State.

Let info := ExtractFwInformation env (fw_file args).
Let checks := extract_event env args :: encryption_event env args dev
                :: compatibility_events env args dev.

(** The second half of [main] queries no device. *)
Lemma update_outcome_calls :
  exists events,
    calls (update_outcome env args dev st) = trace st ++ events /\
    Forall (fun e => ~ is_query e) events.
Proof.
  unfold update_outcome.
  destruct (negb (extracted _)).
  { eexists. split; [reflexivity|]. repeat constructor; intros []. }
  destruct (negb (IsEncryptionSupported _ _ _)).
  { eexists. split; [reflexivity|]. repeat constructor; intros []. }
  destruct (answer (is_interactive args) (cin st)) as [[proceed rest]|].
  2: { eexists. split; [reflexivity|]. repeat constructor; intros []. }
  destruct (negb (Ascii.eqb proceed "y")).
  { eexists. split; [reflexivity|]. repeat constructor; intros []. }
  destruct (negb (IsFwCompatibleWithHost _ _) && negb (force_version args)).
  { eexists. split; [reflexivity|]. repeat constructor; intros []. }
  destruct (answer _ rest) as [[clear rest']|].
  2: { eexists. split; [reflexivity|]. repeat constructor; intros []. }
  eexists. cbn [calls final_state trace]. rewrite <- app_assoc. split; [reflexivity|].
  repeat constructor; intros [].
Qed.

(** A module transfer in the second half of [main] is the one of its
    last line, made after both questions were answered or skipped. *)
Lemma update_outcome_update (e : Event) :
  no_update (trace st) -> is_update e ->
  In e (calls (update_outcome env args dev st)) ->
  exists clear rest rest',
    answer (is_interactive args) (cin st) = Some ("y"%char, rest) /\
    answer (negb (is_database_compatible (recognition_version (metadata dev))
                    (outRecognitionVersion info))
            && negb (auto_approve args)) rest = Some (clear, rest') /\
    e = update_event env args dev
          (if Ascii.eqb clear "y" then moduleNames info
           else without_RECOG (moduleNames info)).
Proof.
  intros Hbefore He. unfold update_outcome. fold info.
  assert (Hno : forall events, no_update events -> ~ In e (trace st ++ events)).
  { intros events Hev Hin. apply in_app_or in Hin.
    unfold no_update in *. rewrite Forall_forall in Hbefore, Hev.
    destruct Hin as [Hin|Hin]; [apply (Hbefore _ Hin He) | apply (Hev _ Hin He)]. }
  assert (Hchecks : no_update checks) by (repeat constructor; intros []).
  destruct (negb (extracted _)).
  { intros Hin. exfalso. revert Hin. apply Hno. repeat constructor; intros []. }
  destruct (negb (IsEncryptionSupported _ _ _)).
  { intros Hin. exfalso. revert Hin. apply Hno. repeat constructor; intros []. }
  destruct (answer (is_interactive args) (cin st)) as [[proceed rest]|];
    [|intros Hin; exfalso; revert Hin; apply Hno; exact Hchecks].
  destruct (Ascii.eqb_spec proceed "y") as [->|_]; cbn [negb];
    [|intros Hin; exfalso; revert Hin; apply Hno; exact Hchecks].
  destruct (negb (IsFwCompatibleWithHost _ _) && negb (force_version args));
    [intros Hin; exfalso; revert Hin; apply Hno; exact Hchecks|].
  destruct (answer _ rest) as [[clear rest']|] eqn:Eclear;
    [|intros Hin; exfalso; revert Hin; apply Hno; exact Hchecks].
  cbn [calls final_state trace]. intros Hin.
  exists clear, rest, rest'. split; [reflexivity|]. split; [exact Eclear|].
  apply in_app_or in Hin. destruct Hin as [Hin | [Hin | []]].
  - exfalso. revert Hin. apply Hno. exact Hchecks.
  - symmetry. exact Hin.
Qed.

End UpdateOutcome.

Local Open Scope string_scope.
Local Open Scope Z_scope.

(** ** What every run of the tool keeps to *)

Local Open Scope list_scope.

(** Property X10.  In every run the tool calls [UpdateModules] at most
    once, and that call is the last call of the run: no device is queried,
    pinged or updated after it. *)
Theorem update_is_last_call (env : Environment) (argv : list string) (input : string)
    (before : list Event) (e : Event) (after : list Event) :
  calls (run env argv input) = before ++ e :: after ->
  is_update e ->
  after = [] /\ no_update before.
Proof.
  intros Hcalls He.
  destruct (run_calls env argv input)
    as [Hq _ | args dev queries Hq H | args dev queries names Hq _ _ _ _ Hupdate _].
  - exfalso. apply (no_update_middle (calls (run env argv input)) before after e);
      [apply queries_no_update; exact Hq | exact He | exact Hcalls].
  - exfalso.
    assert (Hno : no_update (calls (run env argv input))).
    { destruct H as [(_ & -> & _) | [(_ & _ & -> & _) | (_ & _ & -> & _)]].
      - apply no_update_app; [apply queries_no_update; exact Hq|].
        repeat constructor; intros [].
      - apply no_update_app; [apply queries_no_update; exact Hq|].
        repeat constructor; intros [].
      - apply checks_no_update; exact Hq. }
    apply (no_update_middle (calls (run env argv input)) before after e);
      [exact Hno | exact He | exact Hcalls].
  - rewrite Hupdate in Hcalls.
    pose proof (checks_no_update env args dev queries Hq) as Hno.
    destruct (single_update_split _ before after _ e Hno He Hcalls) as (-> & _ & ->).
    split; [reflexivity | exact Hno].
Qed.

Lemma update_is_last_call_witness :
  exists before,
    calls (run sample_environment auto_approve_command "") =
      before ++ [EvUpdateModules (mkSettings "COM1" false) "fw.bin"
                   ["OPFW"; "NNLED"; "RECOG"] Ok] /\
    no_update before.
Proof.
  assert (H : calls (run sample_environment auto_approve_command "") =
              (query_events "COM1" ++
               [EvExtractFwInformation "fw.bin"
                  (mkFwInformation true "3.2.0" "2.1" ["OPFW"; "NNLED"; "RECOG"]);
                EvIsEncryptionSupported "fw.bin" "SN-COM1" true;
                EvIsFwCompatibleWithHost "3.1.0" false;
                EvIsFwCompatibleWithHost "3.2.0" true]) ++
              EvUpdateModules (mkSettings "COM1" false) "fw.bin"
                ["OPFW"; "NNLED"; "RECOG"] Ok :: []) by (vm_compute; reflexivity).
  eexists. split; [exact H|].
  exact (proj2 (update_is_last_call sample_environment auto_approve_command "" _
                  (EvUpdateModules (mkSettings "COM1" false) "fw.bin"
                     ["OPFW"; "NNLED"; "RECOG"] Ok) [] H I)).
Defined.

(** Property X11.  A run with a valid command line first populates its
    device list and queries no device afterwards: with [--port] it queries
    that port alone, without any discovery; without it, it discovers the
    devices and queries each of them once, in the order of their
    discovery.  Every later call is a check or the update. *)
Theorem devices_are_queried_first (env : Environment) (argv : list string)
    (input : string) :
  let args := ParseCommandLineArgs (Z.of_nat (List.length argv)) argv in
  is_valid args = true ->
  exists checks,
    calls (run env argv input) = populate_events env args ++ checks /\
    Forall (fun e => ~ is_query e) checks.
Proof.
  cbv zeta. intros Hvalid.
  destruct (run_cases env argv input Hvalid)
    as [[_ ->] | [_ [[_ ->] | [(device & rest & consumed & _ & _ & _ & ->) | [_ ->]]]]].
  - exists []. cbn. rewrite app_nil_r. split; [reflexivity | constructor].
  - exists []. cbn. rewrite app_nil_r. split; [reflexivity | constructor].
  - destruct (update_outcome_calls env
                (ParseCommandLineArgs (Z.of_nat (List.length argv)) argv) device
                (mkState rest 0
                   (populate_events env
                      (ParseCommandLineArgs (Z.of_nat (List.length argv)) argv))))
      as (events & -> & Hevents).
    exists events. split; [reflexivity | exact Hevents].
  - exists []. cbn. rewrite app_nil_r. split; [reflexivity | constructor].
Qed.

Lemma devices_are_queried_first_witness :
  exists checks,
    calls (run sample_environment interactive_command "") =
      (EvDiscoverDevices :: query_events "COM1" ++ query_events "COM2") ++ checks /\
    Forall (fun e => ~ is_query e) checks.
Proof.
  apply (devices_are_queried_first sample_environment interactive_command "").
  vm_compute; reflexivity.
Defined.

(** A module transfer of a run, in the normal form of the run. *)
Lemma run_update (env : Environment) (argv : list string) (input : string) (e : Event) :
  let args := ParseCommandLineArgs (Z.of_nat (List.length argv)) argv in
  let info := ExtractFwInformation env (fw_file args) in
  is_update e ->
  In e (calls (run env argv input)) ->
  is_valid args = true /\ port_fits env args /\
  exists device consumed asked clear rest rest',
    In device (devices_of env args) /\
    input = (consumed ++ asked)%string /\
    ((List.length (devices_of env args) <= 1)%nat -> asked = input) /\
    run env argv input =
      update_outcome env args device (mkState asked 0 (populate_events env args)) /\
    answer (is_interactive args) asked = Some ("y"%char, rest) /\
    answer (negb (is_database_compatible (recognition_version (metadata device))
                    (outRecognitionVersion info))
            && negb (auto_approve args)) rest = Some (clear, rest') /\
    e = update_event env args device
          (if Ascii.eqb clear "y" then moduleNames info
           else without_RECOG (moduleNames info)).
Proof.
  cbv zeta. intros He Hin.
  destruct (is_valid (ParseCommandLineArgs (Z.of_nat (List.length argv)) argv)) eqn:Hvalid.
  2: { rewrite (run_refused env argv input Hvalid) in Hin. destruct Hin. }
  split; [reflexivity|].
  pose proof (queries_no_update _ (populate_events_are_queries env
                (ParseCommandLineArgs (Z.of_nat (List.length argv)) argv))) as Hno.
  destruct (run_cases env argv input Hvalid)
    as [[_ Hrun]
       | [Hfits [[_ Hrun]
                | [(device & asked & consumed & Hdev & Hinput & Hone & Hrun) | [_ Hrun]]]]].
  - exfalso. rewrite Hrun in Hin. cbn in Hin.
    unfold no_update in Hno. rewrite Forall_forall in Hno. exact (Hno e Hin He).
  - exfalso. rewrite Hrun in Hin. cbn in Hin.
    unfold no_update in Hno. rewrite Forall_forall in Hno. exact (Hno e Hin He).
  - split; [exact Hfits|]. rewrite Hrun in Hin.
    destruct (update_outcome_update env _ device
                (mkState asked 0
                   (populate_events env
                      (ParseCommandLineArgs (Z.of_nat (List.length argv)) argv)))
                e Hno He Hin)
      as (clear & rest & rest' & Hfirst & Hsecond & ->).
    exists device, consumed, asked, clear, rest, rest'. cbn [cin] in *. auto 10.
  - exfalso. rewrite Hrun in Hin. cbn in Hin.
    unfold no_update in Hno. rewrite Forall_forall in Hno. exact (Hno e Hin He).
Qed.



(** Property X13.  A run that waits for ever for an answer has called
    [UpdateModules] neither before nor while waiting: every question of the
    tool is asked before the transfer starts. *)
Theorem waiting_run_updates_nothing (env : Environment) (argv : list string)
    (input : string) :
  waits_for_ever (run env argv input) ->
  no_update (calls (run env argv input)).
Proof.
  intros Hwaits. unfold no_update. rewrite Forall_forall. intros e Hin He.
  destruct (In_split _ _ Hin) as (before & after & Hcalls).
  destruct (run_calls env argv input)
    as [Hq _ | args dev queries Hq H | args dev queries names Hq _ _ _ _ _ Hcode].
  - apply (no_update_middle (calls (run env argv input)) before after e);
      [apply queries_no_update; exact Hq | exact He | exact Hcalls].
  - assert (Hno : no_update (calls (run env argv input))).
    { destruct H as [(_ & -> & _) | [(_ & _ & -> & _) | (_ & _ & -> & _)]].
      - apply no_update_app; [apply queries_no_update; exact Hq|].
        repeat constructor; intros [].
      - apply no_update_app; [apply queries_no_update; exact Hq|].
        repeat constructor; intros [].
      - apply checks_no_update; exact Hq. }
    apply (no_update_middle (calls (run env argv input)) before after e);
      [exact Hno | exact He | exact Hcalls].
  - destruct (run env argv input); try discriminate; contradiction.
Qed.

Lemma waiting_run_updates_nothing_witness :
  no_update (calls (run sample_environment interactive_command ("1" ++ newline ++ "maybe"))).
Proof.
  apply (waiting_run_updates_nothing sample_environment interactive_command
           ("1" ++ newline ++ "maybe")).
  vm_compute. exact I.
Defined.

Local Open Scope string_scope.
Local Open Scope Z_scope.

(** ** Runs without a user, and what the user decides *)

Lemma devices_of_single (env : Environment) (args : CommandLineArgs) :
  serial_port args <> "" \/ (List.length (DiscoverDevices env) <= 1)%nat ->
  (List.length (devices_of env args) <= 1)%nat.
Proof.
  rewrite devices_of_length. pose proof (size_zero_iff (serial_port args)) as Hsize.
  destruct (size (serial_port args) =? 0); [|lia].
  intros [Hport | Hone]; [exfalso; apply Hport; tauto | exact Hone].
Qed.

(** Property X14.  With [--auto-approve], and a device given by a
    [--port] that fits the array [DeviceInfo::serialPort], or no [--port]
    and at most one device detected, the tool asks nothing: every run
    returns an exit code, whatever the input is, and leaves the input as it
    was; no time is spent waiting. *)
Theorem unattended_run_returns (env : Environment) (argv : list string) (input : string) :
  let args := ParseCommandLineArgs (Z.of_nat (List.length argv)) argv in
  is_valid args = true ->
  auto_approve args = true ->
  (serial_port args <> "" /\ size (serial_port args) < serialPort_size env) \/
  (serial_port args = "" /\ (List.length (DiscoverDevices env) <= 1)%nat) ->
  exists code st',
    run env argv input = Returns code st' /\ cin st' = input /\ clock st' = 0.
Proof.
  cbv zeta. intros Hvalid Hauto Hdevice.
  pose proof (ParseCommandLineArgs_exclusive _ _ Hvalid) as Hexclusive.
  rewrite Hauto, andb_true_r in Hexclusive.
  assert (Hfits : port_fits env
                    (ParseCommandLineArgs (Z.of_nat (List.length argv)) argv))
    by (unfold port_fits; tauto).
  assert (Hsingle : (List.length
                       (devices_of env
                          (ParseCommandLineArgs (Z.of_nat (List.length argv)) argv)) <= 1)%nat)
    by (apply devices_of_single; tauto).
  destruct (run_cases env argv input Hvalid)
    as [[Hlong _]
       | [_ [[_ ->] | [(device & asked & consumed & _ & _ & Hone & ->) | [Hmany _]]]]].
  - contradiction.
  - eexists _, _. split; [reflexivity|]. split; reflexivity.
  - rewrite (Hone Hsingle). unfold update_outcome, answer.
    rewrite Hexclusive, Hauto. cbn [negb]. rewrite andb_false_r. cbn [cin clock trace].
    destruct (negb (extracted _));
      [eexists _, _; split; [reflexivity|]; split; reflexivity|].
    destruct (negb (IsEncryptionSupported _ _ _));
      [eexists _, _; split; [reflexivity|]; split; reflexivity|].
    cbn [Ascii.eqb Bool.eqb negb].
    destruct (negb (IsFwCompatibleWithHost _ _) && negb (force_version _));
      eexists _, _; (split; [reflexivity|]); split; reflexivity.
  - lia.
Qed.

Lemma unattended_run_returns_witness :
  exists code st',
    run sample_environment auto_approve_command "no" = Returns code st' /\
    cin st' = "no" /\ clock st' = 0.
Proof.
  apply (unattended_run_returns sample_environment auto_approve_command "no").
  - vm_compute; reflexivity.
  - vm_compute; reflexivity.
  - left. split; [vm_compute; discriminate | vm_compute; reflexivity].
Defined.

(** An answer that was asked for and is not 'y' is an 'n' of the input. *)
Lemma answer_no (asked : bool) (input : string) (c : ascii) (rest : string) :
  answer asked input = Some (c, rest) ->
  Ascii.eqb c "y" = false ->
  asked = true /\ char_free "n" input = false.
Proof.
  unfold answer. destruct asked.
  - intros Hloop Hc.
    destruct (UserApproval_loop_answer _ _ _ _ _ eq_refl Hloop) as [Hyn Hwhere].
    split; [reflexivity|].
    destruct Hyn as [-> | ->]; [discriminate|].
    destruct Hwhere as [[E _] | [pre ->]]; [discriminate|].
    rewrite char_free_append. cbn. apply andb_false_r.
  - intros [= <- <-]. discriminate.
Qed.

(** What an answer leaves of the input is the end of the input. *)
Lemma answer_rest (asked : bool) (input : string) (c : ascii) (rest : string) :
  answer asked input = Some (c, rest) -> exists consumed, input = consumed ++ rest.
Proof.
  unfold answer. destruct asked.
  - intros Hloop.
    destruct (UserApproval_loop_answer _ _ _ _ _ eq_refl Hloop) as [_ [[_ ->] | [pre ->]]].
    + exists "". reflexivity.
    + exists (pre ++ String c ""). rewrite append_assoc. reflexivity.
  - intros [= <- <-]. exists "". reflexivity.
Qed.

(** Property X15.  The tool leaves a module out of an update only on
    request: when the list given to [UpdateModules] is not the whole list of
    the firmware file, it is that list without its RECOG entries, the
    command line has no [--auto-approve], the input holds an 'n', and the
    recognition version of the device that is updated differs from the one
    of the firmware file. *)
Theorem modules_left_out_only_on_request (env : Environment) (argv : list string)
    (input : string) (settings : Settings) (path : string) (names : list string)
    (status : Status) :
  let args := ParseCommandLineArgs (Z.of_nat (List.length argv)) argv in
  In (EvUpdateModules settings path names status) (calls (run env argv input)) ->
  names <> moduleNames (ExtractFwInformation env path) ->
  names = without_RECOG (moduleNames (ExtractFwInformation env path)) /\
  auto_approve args = false /\
  char_free "n" input = false /\
  exists device,
    In device (devices_of env args) /\
    settings_port settings = serialPort (config device) /\
    recognition_version (metadata device) <>
      outRecognitionVersion (ExtractFwInformation env path).
Proof.
  cbv zeta. intros Hin Hnames.
  destruct (run_update env argv input (EvUpdateModules settings path names status) I Hin)
    as (_ & _ & device & consumed & asked & clear & rest & rest' & Hdevice & -> & _ & _
        & Hfirst & Hsecond & E).
  unfold update_event in E. injection E as -> -> -> ->.
  destruct (Ascii.eqb clear "y") eqn:Hclear; [contradiction|].
  split; [reflexivity|].
  destruct (answer_no _ _ _ _ Hsecond Hclear) as [Hasked Hrest].
  apply andb_true_iff in Hasked as [Hdatabase Hauto].
  apply negb_true_iff in Hauto. apply negb_true_iff in Hdatabase.
  split; [exact Hauto|]. split.
  - destruct (answer_rest _ _ _ _ Hfirst) as [consumed' ->].
    rewrite !char_free_append, Hrest, !andb_false_r. reflexivity.
  - exists device. split; [exact Hdevice|]. split; [reflexivity|].
    apply is_database_compatible_false_iff. exact Hdatabase.
Qed.

Lemma modules_left_out_only_on_request_witness :
  ["OPFW"; "NNLED"] = without_RECOG ["OPFW"; "NNLED"; "RECOG"] /\
  auto_approve (ParseCommandLineArgs 4 interactive_command) = false /\
  char_free "n" ("1" ++ newline ++ "y n") = false.
Proof.
  destruct (modules_left_out_only_on_request sample_environment interactive_command
              ("1" ++ newline ++ "y n") (mkSettings "COM1" false) "fw.bin"
              ["OPFW"; "NNLED"] Ok) as (Hnames & Hauto & Hinput & _).
  - vm_compute. repeat (first [left; reflexivity | right]).
  - vm_compute. discriminate.
  - split; [exact Hnames|]. split; [exact Hauto | exact Hinput].
Defined.

(** ** Which device is updated *)

Lemma nth_error_in_range {A : Type} (l : list A) (i : nat) (x : A) :
  nth_error l i = Some x -> (i < List.length l)%nat.
Proof. intros H. apply nth_error_Some. congruence. Qed.

(** Property X16.  The device on which a valid run goes on is: with a
    [--port] that fits the array [DeviceInfo::serialPort], the device of
    that port, found without any discovery and without reading the input;
    without [--port] and with one detected device, that device, again
    without reading the input; without [--port] and with several detected
    devices, the device whose number, counted from 1 in the order of
    discovery, the first line of the input gives, the lines after it being
    left for the questions that follow.  A [--port] that is longer than the
    array is queried like any other; its copy then writes past the end of
    the array, and the behaviour of the run is undefined from there. *)
Theorem device_selection (env : Environment) (argv : list string) (input : string) :
  let args := ParseCommandLineArgs (Z.of_nat (List.length argv)) argv in
  is_valid args = true ->
  (serial_port args <> "" -> size (serial_port args) < serialPort_size env ->
   run env argv input =
   main_update_device env args
     (mkFullDeviceInfo (metadata_of env (serial_port args)) (mkDeviceInfo (serial_port args)))
     (mkState input 0 (query_events (serial_port args)))) /\
  (serial_port args <> "" -> serialPort_size env < size (serial_port args) ->
   undefined_behaviour (run env argv input) /\
   calls (run env argv input) = query_events (serial_port args)) /\
  (serial_port args = "" ->
   forall d, DiscoverDevices env = [d] ->
     run env argv input =
     main_update_device env args (full_device_info env d)
       (mkState input 0 (EvDiscoverDevices :: query_events (serialPort d)))) /\
  (serial_port args = "" ->
   (2 <= List.length (DiscoverDevices env))%nat ->
   forall line rest k d,
     input = line ++ newline ++ rest ->
     char_free "010" line = true ->
     stoi line = Some k -> 1 <= k ->
     nth_error (DiscoverDevices env) (Z.to_nat (k - 1)) = Some d ->
     run env argv input =
     main_update_device env args (full_device_info env d)
       (mkState rest 0
          (EvDiscoverDevices
             :: flat_map (fun d => query_events (serialPort d)) (DiscoverDevices env)))).
Proof.
  cbv zeta. intros Hvalid. rewrite run_outcome. cbv zeta. rewrite Hvalid. cbn [negb].
  unfold select_outcome, devices_of, populate_events.
  pose proof (size_zero_iff
                (serial_port (ParseCommandLineArgs (Z.of_nat (List.length argv)) argv)))
    as Hsize.
  split; [|split; [|split]].
  - intros Hport Hfits.
    destruct (size (serial_port _) =? 0); [exfalso; apply Hport; tauto|].
    rewrite (proj2 (Z.ltb_lt _ _) Hfits).
    cbn [negb andb cin clock trace app]. symmetry. apply main_update_device_outcome.
  - intros Hport Hlong.
    destruct (size (serial_port _) =? 0); [exfalso; apply Hport; tauto|].
    rewrite (proj2 (Z.ltb_ge _ _) (Z.lt_le_incl _ _ Hlong)).
    cbn [negb andb cin clock trace app]. split; [exact I | reflexivity].
  - intros Hport d Hd. rewrite (proj2 Hsize Hport), Hd.
    cbn [negb andb map flat_map cin clock trace app]. rewrite app_nil_r.
    symmetry. apply main_update_device_outcome.
  - intros Hport Hmany line rest k d -> Hline Hk Hpos Hd. rewrite (proj2 Hsize Hport).
    cbn [negb andb].
    pose proof (nth_error_in_range _ _ _ Hd) as Hlt.
    destruct (DiscoverDevices env) as [|d0 [|d1 detected]] eqn:Hdetected;
      [simpl in Hmany; lia | simpl in Hmany; lia |].
    cbn [map]. rewrite <- Hdetected in *. cbn [cin clock trace app].
    change (full_device_info env d0 :: full_device_info env d1
              :: map (full_device_info env) detected)
      with (map (full_device_info env) (d0 :: d1 :: detected)).
    rewrite <- Hdetected, length_map.
    rewrite (UserDeviceSelection_loop_line _ line rest Hline), Hk.
    rewrite UserDeviceSelection_loop_selected by (apply stoi_range in Hk; lia).
    rewrite (map_nth_error (full_device_info env) _ _ Hd).
    symmetry. apply main_update_device_outcome.
Qed.

Lemma device_selection_witness :
  run sample_environment interactive_command ("2" ++ newline ++ "y") =
  main_update_device sample_environment (ParseCommandLineArgs 4 interactive_command)
    (full_device_info sample_environment (mkDeviceInfo "COM2"))
    (mkState "y" 0 (EvDiscoverDevices :: query_events "COM1" ++ query_events "COM2")).
Proof.
  apply (proj2 (proj2 (proj2 (device_selection sample_environment interactive_command
                                ("2" ++ newline ++ "y") eq_refl))) eq_refl
           ltac:(simpl; lia) "2" "y" 2 (mkDeviceInfo "COM2") eq_refl eq_refl eq_refl
           ltac:(lia) eq_refl).
Defined.

(** ** The compatibility of the firmware that the device runs *)

Local Open Scope list_scope.

Lemma update_outcome_compatibility (env : Environment) (compatible : string -> bool)
    (args : CommandLineArgs) (dev : FullDeviceInfo) (st : State) :
  compatible (outFwVersion (ExtractFwInformation env (fw_file args))) =
    IsFwCompatibleWithHost env (outFwVersion (ExtractFwInformation env (fw_file args))) ->
  let o' := update_outcome (with_compatibility env compatible) args dev st in
  let o := update_outcome env args dev st in
  exit_code o' = exit_code o /\
  (waits_for_ever o' <-> waits_for_ever o) /\
  cin (final_state o') = cin (final_state o) /\
  (forall e, is_update e -> (In e (calls o') <-> In e (calls o))).
Proof.
  intros Hnew. cbv zeta.
  unfold update_outcome, extract_event, encryption_event, compatibility_events,
    update_event, update_code.
  cbn [with_compatibility DiscoverDevices QueryFirmwareVersion QuerySerialNumber Ping
         ExtractFwInformation IsEncryptionSupported IsFwCompatibleWithHost UpdateModules].
  rewrite Hnew.
  assert (Hsame : forall (before : list Event) (c1 c2 c1' c2' : Event) (after : list Event)
                         (e : Event),
             ~ is_update c1 -> ~ is_update c2 -> ~ is_update c1' -> ~ is_update c2' ->
             is_update e ->
             (In e ((before ++ c1' :: c2' :: nil) ++ after) <->
              In e ((before ++ c1 :: c2 :: nil) ++ after))).
  { intros before c1 c2 c1' c2' after e H1 H2 H1' H2' He.
    rewrite !in_app_iff. cbn [In].
    split; intros [[H | [H | [H | []]]] | H]; subst; tauto. }
  destruct (negb (extracted _)); [repeat split; auto|].
  destruct (negb (IsEncryptionSupported _ _ _)); [repeat split; auto|].
  set (x := EvExtractFwInformation _ _). set (y := EvIsEncryptionSupported _ _ _).
  assert (Hshape : forall (c1 c2 : Event) (after : list Event),
             trace st ++ x :: y :: c1 :: c2 :: after =
             ((trace st ++ [x; y]) ++ [c1; c2]) ++ after).
  { intros. rewrite <- !app_assoc. reflexivity. }
  assert (Hchecks : forall (c1 c2 c1' c2' : Event) (e : Event),
             ~ is_update c1 -> ~ is_update c2 -> ~ is_update c1' -> ~ is_update c2' ->
             is_update e ->
             (In e (trace st ++ [x; y; c1'; c2']) <-> In e (trace st ++ [x; y; c1; c2]))).
  { intros c1 c2 c1' c2' e H1 H2 H1' H2' He.
    pose proof (Hsame (trace st ++ [x; y]) c1 c2 c1' c2' [] e H1 H2 H1' H2' He) as H.
    rewrite !app_nil_r, <- !app_assoc in H. exact H. }
  assert (Hstopped : forall (code : Z) (rest : string) (c1 c2 c1' c2' : Event),
             ~ is_update c1 -> ~ is_update c2 -> ~ is_update c1' -> ~ is_update c2' ->
             forall e, is_update e ->
               (In e (calls (Returns code (mkState rest (clock st)
                                             (trace st ++ [x; y; c1'; c2'])))) <->
                In e (calls (Returns code (mkState rest (clock st)
                                             (trace st ++ [x; y; c1; c2])))))).
  { intros; cbn [calls final_state trace]; apply Hchecks; auto. }
  assert (Hwaiting : forall (c1 c2 c1' c2' : Event),
             ~ is_update c1 -> ~ is_update c2 -> ~ is_update c1' -> ~ is_update c2' ->
             forall e, is_update e ->
               (In e (calls (@NeverReturns Z (mkState "" (clock st)
                                                (trace st ++ [x; y; c1'; c2'])))) <->
                In e (calls (@NeverReturns Z (mkState "" (clock st)
                                                (trace st ++ [x; y; c1; c2])))))).
  { intros; cbn [calls final_state trace]; apply Hchecks; auto. }
  destruct (answer (is_interactive args) (cin st)) as [[proceed rest]|];
    [|split; [reflexivity | split; [tauto | split; [reflexivity | apply Hwaiting; auto]]]].
  destruct (negb (Ascii.eqb proceed "y"));
    [split; [reflexivity | split; [tauto | split; [reflexivity | apply Hstopped; auto]]]|].
  destruct (negb (IsFwCompatibleWithHost env _) && negb (force_version args));
    [split; [reflexivity | split; [tauto | split; [reflexivity | apply Hstopped; auto]]]|].
  destruct (answer _ rest) as [[clear rest']|];
    [|split; [reflexivity | split; [tauto | split; [reflexivity | apply Hwaiting; auto]]]].
  split; [reflexivity | split; [tauto | split; [reflexivity|]]].
  intros e He. cbn [calls final_state trace].
  rewrite <- !app_assoc. cbn [app].
  rewrite !(Hshape _ _ [_]). apply Hsame; auto.
Qed.

(** Property X17.  Whether the host is compatible with the firmware that
    the device runs now is shown to the user and has no other part in a run:
    if the host library answered differently about every version but the
    one of the firmware file, the run would return the same exit code or
    wait for ever alike, read the same input, and call [UpdateModules] with
    the same arguments and result. *)
Theorem current_compatibility_is_informational (env : Environment)
    (compatible : string -> bool) (argv : list string) (input : string) :
  let args := ParseCommandLineArgs (Z.of_nat (List.length argv)) argv in
  let new_fw_version := outFwVersion (ExtractFwInformation env (fw_file args)) in
  let env' := with_compatibility env compatible in
  compatible new_fw_version = IsFwCompatibleWithHost env new_fw_version ->
  exit_code (run env' argv input) = exit_code (run env argv input) /\
  (waits_for_ever (run env' argv input) <-> waits_for_ever (run env argv input)) /\
  cin (final_state (run env' argv input)) = cin (final_state (run env argv input)) /\
  (forall e, is_update e ->
     (In e (calls (run env' argv input)) <-> In e (calls (run env argv input)))).
Proof.
  cbv zeta. intros Hnew. rewrite !run_outcome. cbv zeta.
  destruct (negb (is_valid _)); [split; [reflexivity | split; [tauto | split; [reflexivity | tauto]]]|].
  change (select_outcome (with_compatibility env compatible))
    with (select_outcome env).
  destruct (select_outcome env _ (mkState input 0 [])) as [[dev|] st'|st'|st'|st'];
    try (split; [reflexivity | split; [tauto | split; [reflexivity | tauto]]]).
  apply update_outcome_compatibility. exact Hnew.
Qed.

Lemma current_compatibility_is_informational_witness :
  exit_code (run (with_compatibility sample_environment (fun _ => true))
               auto_approve_command "") =
  exit_code (run sample_environment auto_approve_command "").
Proof.
  apply (current_compatibility_is_informational sample_environment (fun _ => true)
           auto_approve_command "").
  vm_compute; reflexivity.
Defined.

Local Open Scope string_scope.
Local Open Scope Z_scope.

(** ** What the tool does not do *)

Local Open Scope list_scope.

(** The second half of [main] neither sleeps nor pings. *)
Lemma update_outcome_no_ping (env : Environment) (args : CommandLineArgs)
    (dev : FullDeviceInfo) (st : State) :
  clock (final_state (update_outcome env args dev st)) = clock st /\
  forall port status,
    In (EvPing port status) (calls (update_outcome env args dev st)) ->
    In (EvPing port status) (trace st).
Proof.
  assert (Hin : forall (events : list Event) port status,
             Forall (fun e => match e with EvPing _ _ => False | _ => True end) events ->
             In (EvPing port status) (trace st ++ events) ->
             In (EvPing port status) (trace st)).
  { intros events port status Hev H. apply in_app_or in H. destruct H as [H|H]; [exact H|].
    rewrite Forall_forall in Hev. destruct (Hev _ H). }
  unfold update_outcome, extract_event, encryption_event, compatibility_events, update_event.
  destruct (negb (extracted _)).
  { split; [reflexivity|]. intros port status. apply Hin. repeat constructor. }
  destruct (negb (IsEncryptionSupported _ _ _)).
  { split; [reflexivity|]. intros port status. apply Hin. repeat constructor. }
  destruct (answer (is_interactive args) (cin st)) as [[proceed rest]|].
  2: { split; [reflexivity|]. intros port status. apply Hin. repeat constructor. }
  destruct (negb (Ascii.eqb proceed "y")).
  { split; [reflexivity|]. intros port status. apply Hin. repeat constructor. }
  destruct (negb (IsFwCompatibleWithHost _ _) && negb (force_version args)).
  { split; [reflexivity|]. intros port status. apply Hin. repeat constructor. }
  destruct (answer _ rest) as [[clear rest']|].
  2: { split; [reflexivity|]. intros port status. apply Hin. repeat constructor. }
  split; [reflexivity|]. intros port status. cbn [calls final_state trace].
  rewrite <- app_assoc. apply Hin. repeat constructor.
Qed.

(** Property X18.  The two-step installation being disabled, [main] never
    waits for the device to come back: no run pings a device, and no run
    sleeps, whatever the result of the update is. *)
Theorem run_never_pings (env : Environment) (argv : list string) (input : string) :
  clock (final_state (run env argv input)) = 0 /\
  forall port status, ~ In (EvPing port status) (calls (run env argv input)).
Proof.
  destruct (is_valid (ParseCommandLineArgs (Z.of_nat (List.length argv)) argv)) eqn:Hvalid.
  2: { rewrite (run_refused env argv input Hvalid). split; [reflexivity|].
       intros port status []. }
  assert (Hqueries : forall port status,
             ~ In (EvPing port status)
                 (populate_events env
                    (ParseCommandLineArgs (Z.of_nat (List.length argv)) argv))).
  { intros port status Hin.
    pose proof (populate_events_are_queries env
                  (ParseCommandLineArgs (Z.of_nat (List.length argv)) argv)) as Hq.
    rewrite Forall_forall in Hq. exact (Hq _ Hin). }
  destruct (run_cases env argv input Hvalid)
    as [[_ ->] | [_ [[_ ->] | [(device & rest & consumed & _ & _ & _ & ->) | [_ ->]]]]].
  - split; [reflexivity | exact Hqueries].
  - split; [reflexivity | exact Hqueries].
  - destruct (update_outcome_no_ping env
                (ParseCommandLineArgs (Z.of_nat (List.length argv)) argv) device
                (mkState rest 0
                   (populate_events env
                      (ParseCommandLineArgs (Z.of_nat (List.length argv)) argv))))
      as [Hclock Hpings].
    split; [exact Hclock|]. intros port status Hin.
    apply (Hqueries port status). exact (Hpings port status Hin).
  - split; [reflexivity | exact Hqueries].
Qed.

Local Open Scope string_scope.
Local Open Scope Z_scope.

